(** * SynFMC: the 3D U-Net blocks of [fmc/models/unet_blocks.py]

    A shallow embedding of the block factory, of the five block
    constructors and of their [forward] methods, together with the
    [einops] reshapes they use between 5-axis video tensors and 4-axis
    batches of frames. *)

From Stdlib Require Import List Arith ZArith QArith Lia String Bool.
From stdpp Require Import base option list gmap strings.
Import ListNotations.
Open Scope nat_scope.

(** ** Exceptions and results *)

Inductive exn : Type :=
| ValueError (msg : string)
| NotImplementedError
| IndexError
| TypeError
| EinopsError
| ZeroDivisionError
| RuntimeError.

Inductive result (A : Type) : Type :=
| Ok (a : A)
| Raise (e : exn).
Arguments Ok {A} a.
Arguments Raise {A} e.

(** ** Tensors

    A tensor is its shape and its elements in row-major (contiguous)
    order, which is what [einops] produces after a rearrangement. *)

Record Tensor (A : Type) : Type := mkTensor {
  shape : list nat;
  data : list A
}.
Arguments mkTensor {A} shape data.
Arguments shape {A} t.
Arguments data {A} t.

Definition numel (s : list nat) : nat := fold_right Nat.mul 1 s.

Definition wf_tensor {A} (t : Tensor A) : Prop :=
  length (data t) = numel (shape t).

(** [gather n src xs]: the list of length [n] whose element [i] is
    element [src i] of [xs]. *)
Definition gather {A} (n : nat) (src : nat -> nat) (xs : list A) : list A :=
  match xs with
  | [] => []
  | a :: _ => map (fun i => nth (src i) xs a) (seq 0 n)
  end.

(** Exchange of the two middle axes of a tensor read as
    [(d0, d1, d2, slab)]: position [i] of the result, of shape
    [(d0, d2, d1, slab)], holds the element at [swap_src d1 d2 slab i]. *)
Definition swap_src (d1 d2 slab i : nat) : nat :=
  let s := i mod slab in
  let q := i / slab in
  let i1 := q mod d1 in
  let r := q / d1 in
  let i2 := r mod d2 in
  let i0 := r / d2 in
  ((i0 * d1 + i1) * d2 + i2) * slab + s.

(** [rearrange(x, "b c f h w -> (b f) c h w")] *)
Definition flatten_frames {A} (x : Tensor A) : result (Tensor A) :=
  match shape x with
  | [b; c; f; h; w] =>
      Ok (mkTensor [b * f; c; h; w]
            (gather (b * f * c * (h * w)) (swap_src c f (h * w)) (data x)))
  | _ => Raise EinopsError
  end.

(** [rearrange(x, "(b f) c h w -> b c f h w", f=f)]: the batch axis is
    split by integer division, which fails for [f = 0] and for a batch
    length that [f] does not divide. *)
Definition unflatten_frames {A} (x : Tensor A) (f : nat) : result (Tensor A) :=
  match shape x with
  | [n; c; h; w] =>
      if f =? 0 then Raise ZeroDivisionError
      else if negb (n mod f =? 0) then Raise EinopsError
      else
        let b := n / f in
        Ok (mkTensor [b; c; f; h; w]
              (gather (b * c * f * (h * w)) (swap_src f c (h * w)) (data x)))
  | _ => Raise EinopsError
  end.

(** [repeat(temb, "b c -> (b f) c", f=f)] *)
Definition repeat_frames {A} (t : Tensor A) (f : nat) : result (Tensor A) :=
  match shape t with
  | [b; c] =>
      Ok (mkTensor [b * f; c]
            (gather (b * f * c) (fun i => (i / c / f) * c + i mod c) (data t)))
  | _ => Raise EinopsError
  end.

(** [x.shape[2]] *)
Definition video_length_of {A} (x : Tensor A) : result nat :=
  match nth_error (shape x) 2 with
  | Some f => Ok f
  | None => Raise IndexError
  end.

(** ** Python-side plumbing: result and store monads *)

Definition rbind {X Y} (m : result X) (k : X -> result Y) : result Y :=
  match m with
  | Ok x => k x
  | Raise e => Raise e
  end.

(** [for x in xs: s = body(s, x)], stopping at the first exception. *)
Fixpoint for_result {X S} (body : S -> X -> result S) (xs : list X) (s : S)
  : result S :=
  match xs with
  | [] => Ok s
  | x :: xs' => rbind (body s x) (for_result body xs')
  end.

(** [range(n)] *)
Definition range (n : nat) : list nat := seq 0 n.

(** [zip(a, b)] and [zip(a, b, c)] *)
Definition zip2 {X Y} (a : list X) (b : list Y) : list (X * Y) := combine a b.
Definition zip3 {X Y W} (a : list X) (b : list Y) (c : list W)
  : list (X * Y * W) := combine (combine a b) c.

(** [t[-1]] and [t[:-1]] on a tuple *)
Definition tuple_last {X} (t : list X) : result X :=
  match rev t with
  | [] => Raise IndexError
  | x :: _ => Ok x
  end.
Definition tuple_init {X} (t : list X) : list X := removelast t.

(** [l[0]] and [l[1:]] on a list; the latter is [tl]. *)
Definition list_first {X} (l : list X) : result X :=
  match l with
  | [] => Raise IndexError
  | x :: _ => Ok x
  end.

(** [s[7:] if s.startswith("UNetRes") else s] *)
Definition strip_UNetRes (s : string) : string :=
  if String.prefix "UNetRes" s
  then String.substring 7 (String.length s - 7) s
  else s.

(** ** The collaborators' constructor records

    The 2D operators come from [diffusers]. A record below holds the
    arguments of one constructor call; the call itself runs the class's
    [__init__] on them, which may raise (see [construct]), and the
    operator it returns is identified with the record. Integers are [Z],
    float hyper-parameters are rationals. *)

Record ResnetBlock2D : Type := mkResnetBlock2D {
  rn_in_channels : Z;
  rn_out_channels : Z;
  rn_temb_channels : Z;
  rn_eps : Q;
  rn_groups : option Z;
  rn_dropout : Q;
  rn_time_embedding_norm : string;
  rn_non_linearity : string;
  rn_output_scale_factor : Q;
  rn_pre_norm : bool
}.

Record Transformer2DModel : Type := mkTransformer2DModel {
  tr_num_attention_heads : Z;
  tr_attention_head_dim : Z;
  tr_in_channels : Z;
  tr_num_layers : Z;
  tr_cross_attention_dim : option Z;
  tr_norm_num_groups : option Z;
  tr_use_linear_projection : bool;
  tr_only_cross_attention : option bool;
  tr_upcast_attention : bool
}.

Record Downsample2D : Type := mkDownsample2D {
  ds_channels : Z;
  ds_use_conv : bool;
  ds_out_channels : Z;
  ds_padding : option Z;
  ds_name : string
}.

Record Upsample2D : Type := mkUpsample2D {
  us_channels : Z;
  us_use_conv : bool;
  us_out_channels : Z
}.

(** [a // b] on Python integers *)
Definition floordiv (a b : Z) : result Z :=
  if (b =? 0)%Z then Raise ZeroDivisionError else Ok (a / b)%Z.

(** References to keyword-argument dictionaries: Python's [None] or a
    dictionary object, identified by its address in the store. *)
Definition loc := nat.

Inductive kwref : Type :=
| KwNone
| KwDict (l : loc).

(** The dictionary objects created once, when the [def] statements of the
    module are executed, as default values of [forward] parameters. All
    instances of a class share them. *)
Definition CrossAttnDown_cross_default : loc := 0.
Definition CrossAttnDown_motion_default : loc := 1.
Definition Down_motion_default : loc := 2.
Definition CrossAttnUp_motion_default : loc := 3.
Definition Up_motion_default : loc := 4.

(** Keyword arguments of the block constructors. Channel counts are
    Python integers; [num_layers], which is only passed to [range], is a
    natural number; [use_motion_module] is read for its truth value. *)
Record BlockArgs (MK : Type) : Type := mkBlockArgs {
  in_channels : Z;
  out_channels : Z;
  prev_output_channel : Z;
  temb_channels : Z;
  dropout : Q;
  num_layers : nat;
  resnet_eps : Q;
  resnet_time_scale_shift : string;
  resnet_act_fn : string;
  resnet_groups : option Z;
  resnet_pre_norm : bool;
  attn_num_head_channels : Z;
  cross_attention_dim : option Z;
  output_scale_factor : Q;
  downsample_padding : option Z;
  add_downsample : bool;
  add_upsample : bool;
  dual_cross_attention : bool;
  use_linear_projection : bool;
  only_cross_attention : bool;
  upcast_attention : bool;
  use_motion_module : bool;
  motion_module_type : option string;
  motion_module_kwargs : option MK
}.
Arguments mkBlockArgs {MK}.
Arguments in_channels {MK} b.
Arguments out_channels {MK} b.
Arguments prev_output_channel {MK} b.
Arguments temb_channels {MK} b.
Arguments dropout {MK} b.
Arguments num_layers {MK} b.
Arguments resnet_eps {MK} b.
Arguments resnet_time_scale_shift {MK} b.
Arguments resnet_act_fn {MK} b.
Arguments resnet_groups {MK} b.
Arguments resnet_pre_norm {MK} b.
Arguments attn_num_head_channels {MK} b.
Arguments cross_attention_dim {MK} b.
Arguments output_scale_factor {MK} b.
Arguments downsample_padding {MK} b.
Arguments add_downsample {MK} b.
Arguments add_upsample {MK} b.
Arguments dual_cross_attention {MK} b.
Arguments use_linear_projection {MK} b.
Arguments only_cross_attention {MK} b.
Arguments upcast_attention {MK} b.
Arguments use_motion_module {MK} b.
Arguments motion_module_type {MK} b.
Arguments motion_module_kwargs {MK} b.

(** Parameters of [get_down_block] and [get_up_block]. *)
Record FactoryArgs (MK : Type) : Type := mkFactoryArgs {
  f_num_layers : nat;
  f_in_channels : Z;
  f_out_channels : Z;
  f_prev_output_channel : Z;
  f_temb_channels : Z;
  f_add_sample : bool;
  f_resnet_eps : Q;
  f_resnet_act_fn : string;
  f_attn_num_head_channels : Z;
  f_resnet_groups : option Z;
  f_cross_attention_dim : option Z;
  f_downsample_padding : option Z;
  f_dual_cross_attention : bool;
  f_use_linear_projection : bool;
  f_only_cross_attention : bool;
  f_upcast_attention : bool;
  f_resnet_time_scale_shift : string;
  f_use_motion_module : bool;
  f_motion_module_type : option string;
  f_motion_module_kwargs : option MK
}.
Arguments mkFactoryArgs {MK}.
Arguments f_num_layers {MK} f.
Arguments f_in_channels {MK} f.
Arguments f_out_channels {MK} f.
Arguments f_prev_output_channel {MK} f.
Arguments f_temb_channels {MK} f.
Arguments f_add_sample {MK} f.
Arguments f_resnet_eps {MK} f.
Arguments f_resnet_act_fn {MK} f.
Arguments f_attn_num_head_channels {MK} f.
Arguments f_resnet_groups {MK} f.
Arguments f_cross_attention_dim {MK} f.
Arguments f_downsample_padding {MK} f.
Arguments f_dual_cross_attention {MK} f.
Arguments f_use_linear_projection {MK} f.
Arguments f_only_cross_attention {MK} f.
Arguments f_upcast_attention {MK} f.
Arguments f_resnet_time_scale_shift {MK} f.
Arguments f_use_motion_module {MK} f.
Arguments f_motion_module_type {MK} f.
Arguments f_motion_module_kwargs {MK} f.

(** The constructed blocks: the attributes [__init__] sets. *)
Record UNetMidBlock3DCrossAttn (MM : Type) : Type := mkMid {
  mid_has_cross_attention : bool;
  mid_attn_num_head_channels : Z;
  mid_attentions : list Transformer2DModel;
  mid_resnets : list ResnetBlock2D;
  mid_motion_modules : list (option MM)
}.
Arguments mkMid {MM}.
Arguments mid_has_cross_attention {MM} u.
Arguments mid_attn_num_head_channels {MM} u.
Arguments mid_attentions {MM} u.
Arguments mid_resnets {MM} u.
Arguments mid_motion_modules {MM} u.

Record CrossAttnDownBlock3D (MM : Type) : Type := mkCrossAttnDown {
  cad_has_cross_attention : bool;
  cad_attn_num_head_channels : Z;
  cad_attentions : list Transformer2DModel;
  cad_resnets : list ResnetBlock2D;
  cad_motion_modules : list (option MM);
  cad_downsamplers : option (list Downsample2D)
}.
Arguments mkCrossAttnDown {MM}.
Arguments cad_has_cross_attention {MM} c.
Arguments cad_attn_num_head_channels {MM} c.
Arguments cad_attentions {MM} c.
Arguments cad_resnets {MM} c.
Arguments cad_motion_modules {MM} c.
Arguments cad_downsamplers {MM} c.

Record DownBlock3D (MM : Type) : Type := mkDown {
  dn_resnets : list ResnetBlock2D;
  dn_motion_modules : list (option MM);
  dn_downsamplers : option (list Downsample2D)
}.
Arguments mkDown {MM}.
Arguments dn_resnets {MM} d.
Arguments dn_motion_modules {MM} d.
Arguments dn_downsamplers {MM} d.

Record CrossAttnUpBlock3D (MM : Type) : Type := mkCrossAttnUp {
  cau_has_cross_attention : bool;
  cau_attn_num_head_channels : Z;
  cau_attentions : list Transformer2DModel;
  cau_resnets : list ResnetBlock2D;
  cau_motion_modules : list (option MM);
  cau_upsamplers : option (list Upsample2D)
}.
Arguments mkCrossAttnUp {MM}.
Arguments cau_has_cross_attention {MM} c.
Arguments cau_attn_num_head_channels {MM} c.
Arguments cau_attentions {MM} c.
Arguments cau_resnets {MM} c.
Arguments cau_motion_modules {MM} c.
Arguments cau_upsamplers {MM} c.

Record UpBlock3D (MM : Type) : Type := mkUp {
  up_resnets : list ResnetBlock2D;
  up_motion_modules : list (option MM);
  up_upsamplers : option (list Upsample2D)
}.
Arguments mkUp {MM}.
Arguments up_resnets {MM} u.
Arguments up_motion_modules {MM} u.
Arguments up_upsamplers {MM} u.

(** What [get_down_block] and [get_up_block] return. *)
Inductive DownBlock (MM : Type) : Type :=
| IsDownBlock3D (b : DownBlock3D MM)
| IsCrossAttnDownBlock3D (b : CrossAttnDownBlock3D MM).
Arguments IsDownBlock3D {MM} b.
Arguments IsCrossAttnDownBlock3D {MM} b.

Inductive UpBlock (MM : Type) : Type :=
| IsUpBlock3D (b : UpBlock3D MM)
| IsCrossAttnUpBlock3D (b : CrossAttnUpBlock3D MM).
Arguments IsUpBlock3D {MM} b.
Arguments IsCrossAttnUpBlock3D {MM} b.

(** Instance attributes that are set after construction: the module's
    mode, the flag the outer model sets to select activation
    recomputation, and the two optional adapter scales. *)
Record Attrs (V : Type) : Type := mkAttrs {
  training : bool;
  gradient_checkpointing : bool;
  lora_scale : option V;
  motion_lora_scale : option V
}.
Arguments mkAttrs {V}.
Arguments training {V} a.
Arguments gradient_checkpointing {V} a.
Arguments lora_scale {V} a.
Arguments motion_lora_scale {V} a.

(** ** The collaborators

    The operators the blocks call are outside this file: the 2D operators
    of [diffusers], [torch.cat], and the motion modules that
    [motion_module.get_motion_module] builds. They are the fields of one
    interface; each may raise, the constructors of the [diffusers]
    classes included (the first four fields: [__init__] on the arguments
    of the call). [A] is the type of tensor elements, [V] the type of the
    values stored in keyword-argument dictionaries, [MM] the type of
    motion modules and [MK] that of their construction arguments. *)

Class Collaborators (A V MM MK : Type) : Type := {
  ResnetBlock2D_init : ResnetBlock2D -> result unit;
  Transformer2DModel_init : Transformer2DModel -> result unit;
  Downsample2D_init : Downsample2D -> result unit;
  Upsample2D_init : Upsample2D -> result unit;
  get_motion_module : Z -> option string -> option MK -> result MM;
  resnet_call : ResnetBlock2D -> Tensor A -> Tensor A -> result (Tensor A);
  attn_call : Transformer2DModel -> Tensor A -> option (Tensor A) ->
              option (gmap string V) -> result (Tensor A);
  motion_call : MM -> Tensor A -> option (Tensor A) -> option (Tensor A) ->
                option (gmap string V) -> result (Tensor A);
  downsample_call : Downsample2D -> Tensor A -> result (Tensor A);
  upsample_call : Upsample2D -> Tensor A -> option (list nat) ->
                  result (Tensor A);
  torch_cat : Tensor A -> Tensor A -> result (Tensor A)
}.

Section Blocks.
Context {A V MM MK : Type} `{Collaborators A V MM MK}.

(** *** Constructors *)

(** [get_motion_module(...) if use_motion_module else None] *)
Definition motion_module_slot (args : BlockArgs MK) (channels : Z)
  : result (option MM) :=
  if use_motion_module args
  then rbind (get_motion_module channels (motion_module_type args)
                (motion_module_kwargs args))
             (fun m => Ok (Some m))
  else Ok None.

(** [Cls(...)] for a class of [diffusers]: [__init__] runs on the
    arguments and may raise; otherwise the call returns the operator. *)
Definition construct {X} (init : X -> result unit) (x : X) : result X :=
  rbind (init x) (fun _ => Ok x).

(** The arguments of the [ResnetBlock2D(...)] calls of a constructor. *)
Definition make_resnet (args : BlockArgs MK) (groups : option Z)
  (cin cout : Z) : ResnetBlock2D :=
  mkResnetBlock2D cin cout (temb_channels args) (resnet_eps args) groups
    (dropout args) (resnet_time_scale_shift args) (resnet_act_fn args)
    (output_scale_factor args) (resnet_pre_norm args).

(** One iteration of the loop of [UNetMidBlock3DCrossAttn.__init__]; the
    state is [(attentions, motion_modules, resnets)]. *)
Definition Mid_init_layer (args : BlockArgs MK) (groups : option Z)
  (st : list Transformer2DModel * list (option MM) * list ResnetBlock2D)
  (i : nat)
  : result (list Transformer2DModel * list (option MM) * list ResnetBlock2D) :=
  let '(attentions, motion_modules, resnets) := st in
  if dual_cross_attention args then Raise NotImplementedError else
  rbind (floordiv (in_channels args) (attn_num_head_channels args)) (fun head_dim =>
  rbind (construct Transformer2DModel_init
           (mkTransformer2DModel (attn_num_head_channels args) head_dim
              (in_channels args) 1 (cross_attention_dim args) groups
              (use_linear_projection args) None (upcast_attention args)))
    (fun attn =>
  let attentions := attentions ++ [attn] in
  rbind (motion_module_slot args (in_channels args)) (fun mm =>
  let motion_modules := motion_modules ++ [mm] in
  rbind (construct ResnetBlock2D_init
           (make_resnet args groups (in_channels args) (in_channels args)))
    (fun resnet =>
  Ok (attentions, motion_modules, resnets ++ [resnet]))))).

Definition UNetMidBlock3DCrossAttn_init (args : BlockArgs MK)
  : result (UNetMidBlock3DCrossAttn MM) :=
  let groups :=
    match resnet_groups args with
    | Some g => Some g
    | None => Some (Z.min (in_channels args / 4) 32)
    end in
  rbind (construct ResnetBlock2D_init
           (make_resnet args groups (in_channels args) (in_channels args)))
    (fun resnet0 =>
  rbind (for_result (Mid_init_layer args groups) (range (num_layers args))
           ([], [], [resnet0]))
    (fun '(attentions, motion_modules, resnets) =>
       Ok (mkMid true (attn_num_head_channels args) attentions resnets
             motion_modules))).

(** One iteration of the loop of [CrossAttnDownBlock3D.__init__]; the
    state carries the rebound [in_channels]. *)
Definition CrossAttnDown_init_layer (args : BlockArgs MK)
  (st : Z * list ResnetBlock2D * list Transformer2DModel * list (option MM))
  (i : nat)
  : result (Z * list ResnetBlock2D * list Transformer2DModel * list (option MM)) :=
  let '(in_ch, resnets, attentions, motion_modules) := st in
  let in_ch := if i =? 0 then in_ch else out_channels args in
  rbind (construct ResnetBlock2D_init
           (make_resnet args (resnet_groups args) in_ch (out_channels args)))
    (fun resnet =>
  let resnets := resnets ++ [resnet] in
  if dual_cross_attention args then Raise NotImplementedError else
  rbind (floordiv (out_channels args) (attn_num_head_channels args)) (fun head_dim =>
  rbind (construct Transformer2DModel_init
           (mkTransformer2DModel (attn_num_head_channels args) head_dim
              (out_channels args) 1 (cross_attention_dim args)
              (resnet_groups args) (use_linear_projection args)
              (Some (only_cross_attention args)) (upcast_attention args)))
    (fun attn =>
  let attentions := attentions ++ [attn] in
  rbind (motion_module_slot args (out_channels args)) (fun mm =>
  Ok (in_ch, resnets, attentions, motion_modules ++ [mm]))))).

(** [self.downsamplers] and [self.upsamplers]: one resampler, constructed
    when the flag is set. *)
Definition make_downsamplers (args : BlockArgs MK)
  : result (option (list Downsample2D)) :=
  if add_downsample args
  then rbind (construct Downsample2D_init
                (mkDownsample2D (out_channels args) true (out_channels args)
                   (downsample_padding args) "op"))
         (fun d => Ok (Some [d]))
  else Ok None.

Definition make_upsamplers (args : BlockArgs MK)
  : result (option (list Upsample2D)) :=
  if add_upsample args
  then rbind (construct Upsample2D_init
                (mkUpsample2D (out_channels args) true (out_channels args)))
         (fun u => Ok (Some [u]))
  else Ok None.

Definition CrossAttnDownBlock3D_init (args : BlockArgs MK)
  : result (CrossAttnDownBlock3D MM) :=
  rbind (for_result (CrossAttnDown_init_layer args) (range (num_layers args))
           (in_channels args, [], [], []))
    (fun '(_, resnets, attentions, motion_modules) =>
       rbind (make_downsamplers args) (fun downsamplers =>
       Ok (mkCrossAttnDown true (attn_num_head_channels args) attentions
             resnets motion_modules downsamplers))).

Definition Down_init_layer (args : BlockArgs MK)
  (st : Z * list ResnetBlock2D * list (option MM)) (i : nat)
  : result (Z * list ResnetBlock2D * list (option MM)) :=
  let '(in_ch, resnets, motion_modules) := st in
  let in_ch := if i =? 0 then in_ch else out_channels args in
  rbind (construct ResnetBlock2D_init
           (make_resnet args (resnet_groups args) in_ch (out_channels args)))
    (fun resnet =>
  let resnets := resnets ++ [resnet] in
  rbind (motion_module_slot args (out_channels args)) (fun mm =>
  Ok (in_ch, resnets, motion_modules ++ [mm]))).

Definition DownBlock3D_init (args : BlockArgs MK) : result (DownBlock3D MM) :=
  rbind (for_result (Down_init_layer args) (range (num_layers args))
           (in_channels args, [], []))
    (fun '(_, resnets, motion_modules) =>
       rbind (make_downsamplers args) (fun downsamplers =>
       Ok (mkDown resnets motion_modules downsamplers))).

(** The channel arithmetic shared by the two Up constructors:
    [res_skip_channels] and [resnet_in_channels] of iteration [i]. *)
Definition res_skip_channels (args : BlockArgs MK) (i : nat) : Z :=
  if (Z.of_nat i =? Z.of_nat (num_layers args) - 1)%Z
  then in_channels args else out_channels args.

Definition resnet_in_channels (args : BlockArgs MK) (i : nat) : Z :=
  if i =? 0 then prev_output_channel args else out_channels args.

(** The channel count the resnet of Up layer [i] is constructed with. *)
Definition up_layer_channels (args : BlockArgs MK) (i : nat) : Z :=
  (resnet_in_channels args i + res_skip_channels args i)%Z.

Definition CrossAttnUp_init_layer (args : BlockArgs MK)
  (st : list ResnetBlock2D * list Transformer2DModel * list (option MM))
  (i : nat)
  : result (list ResnetBlock2D * list Transformer2DModel * list (option MM)) :=
  let '(resnets, attentions, motion_modules) := st in
  rbind (construct ResnetBlock2D_init
           (make_resnet args (resnet_groups args) (up_layer_channels args i)
              (out_channels args)))
    (fun resnet =>
  let resnets := resnets ++ [resnet] in
  if dual_cross_attention args then Raise NotImplementedError else
  rbind (floordiv (out_channels args) (attn_num_head_channels args)) (fun head_dim =>
  rbind (construct Transformer2DModel_init
           (mkTransformer2DModel (attn_num_head_channels args) head_dim
              (out_channels args) 1 (cross_attention_dim args)
              (resnet_groups args) (use_linear_projection args)
              (Some (only_cross_attention args)) (upcast_attention args)))
    (fun attn =>
  let attentions := attentions ++ [attn] in
  rbind (motion_module_slot args (out_channels args)) (fun mm =>
  Ok (resnets, attentions, motion_modules ++ [mm]))))).

Definition CrossAttnUpBlock3D_init (args : BlockArgs MK)
  : result (CrossAttnUpBlock3D MM) :=
  rbind (for_result (CrossAttnUp_init_layer args) (range (num_layers args))
           ([], [], []))
    (fun '(resnets, attentions, motion_modules) =>
       rbind (make_upsamplers args) (fun upsamplers =>
       Ok (mkCrossAttnUp true (attn_num_head_channels args) attentions
             resnets motion_modules upsamplers))).

Definition Up_init_layer (args : BlockArgs MK)
  (st : list ResnetBlock2D * list (option MM)) (i : nat)
  : result (list ResnetBlock2D * list (option MM)) :=
  let '(resnets, motion_modules) := st in
  rbind (construct ResnetBlock2D_init
           (make_resnet args (resnet_groups args) (up_layer_channels args i)
              (out_channels args)))
    (fun resnet =>
  let resnets := resnets ++ [resnet] in
  rbind (motion_module_slot args (out_channels args)) (fun mm =>
  Ok (resnets, motion_modules ++ [mm]))).

Definition UpBlock3D_init (args : BlockArgs MK) : result (UpBlock3D MM) :=
  rbind (for_result (Up_init_layer args) (range (num_layers args)) ([], []))
    (fun '(resnets, motion_modules) =>
       rbind (make_upsamplers args) (fun upsamplers =>
       Ok (mkUp resnets motion_modules upsamplers))).

(** *** The factory *)

(** The arguments the factory hands to a constructor; [dropout],
    [resnet_pre_norm] and [output_scale_factor] are not passed and take
    the constructors' defaults [0.0], [True] and [1.0]. *)
Definition factory_block_args (fa : FactoryArgs MK) (down : bool)
  : BlockArgs MK :=
  mkBlockArgs (f_in_channels fa) (f_out_channels fa)
    (f_prev_output_channel fa) (f_temb_channels fa) 0%Q (f_num_layers fa)
    (f_resnet_eps fa) (f_resnet_time_scale_shift fa) (f_resnet_act_fn fa)
    (f_resnet_groups fa) true (f_attn_num_head_channels fa)
    (f_cross_attention_dim fa) 1%Q (f_downsample_padding fa)
    (if down then f_add_sample fa else true)
    (if down then true else f_add_sample fa)
    (f_dual_cross_attention fa) (f_use_linear_projection fa)
    (f_only_cross_attention fa) (f_upcast_attention fa)
    (f_use_motion_module fa) (f_motion_module_type fa)
    (f_motion_module_kwargs fa).

Definition get_down_block (down_block_type : string) (fa : FactoryArgs MK)
  : result (DownBlock MM) :=
  let down_block_type := strip_UNetRes down_block_type in
  if String.eqb down_block_type "DownBlock3D" then
    rbind (DownBlock3D_init (factory_block_args fa true))
          (fun b => Ok (IsDownBlock3D b))
  else if String.eqb down_block_type "CrossAttnDownBlock3D" then
    match f_cross_attention_dim fa with
    | None =>
        Raise (ValueError
                 "cross_attention_dim must be specified for CrossAttnDownBlock3D")
    | Some _ =>
        rbind (CrossAttnDownBlock3D_init (factory_block_args fa true))
              (fun b => Ok (IsCrossAttnDownBlock3D b))
    end
  else Raise (ValueError (down_block_type ++ " does not exist.")).

Definition get_up_block (up_block_type : string) (fa : FactoryArgs MK)
  : result (UpBlock MM) :=
  let up_block_type := strip_UNetRes up_block_type in
  if String.eqb up_block_type "UpBlock3D" then
    rbind (UpBlock3D_init (factory_block_args fa false))
          (fun b => Ok (IsUpBlock3D b))
  else if String.eqb up_block_type "CrossAttnUpBlock3D" then
    match f_cross_attention_dim fa with
    | None =>
        Raise (ValueError
                 "cross_attention_dim must be specified for CrossAttnUpBlock3D")
    | Some _ =>
        rbind (CrossAttnUpBlock3D_init (factory_block_args fa false))
              (fun b => Ok (IsCrossAttnUpBlock3D b))
    end
  else Raise (ValueError (up_block_type ++ " does not exist.")).

(** *** The store: dictionary objects and the log of collaborator calls *)

(** A call of a collaborator, with the arguments it received. An
    attention or motion-module call records the keyword-argument
    reference it was given and the contents of that dictionary at the
    time of the call. *)
Inductive event : Type :=
| CallResnet (r : ResnetBlock2D) (x temb : Tensor A)
| CallAttn (a : Transformer2DModel) (x : Tensor A) (enc : option (Tensor A))
           (kw : kwref) (contents : option (gmap string V))
| CallMotion (m : MM) (x : Tensor A) (temb enc : option (Tensor A))
             (kw : kwref) (contents : option (gmap string V))
| CallCat (hidden skip : Tensor A)
| CallDownsample (d : Downsample2D) (x : Tensor A)
| CallUpsample (u : Upsample2D) (x : Tensor A) (size : option (list nat)).

Record store : Type := mkStore {
  heap : list (gmap string V);
  trace : list event
}.

(** A computation may update the store and may raise; the store survives
    an exception, as Python's objects do. *)
Definition Py (X : Type) : Type := store -> result X * store.

Definition ret {X} (x : X) : Py X := fun st => (Ok x, st).

Definition raise {X} (e : exn) : Py X := fun st => (Raise e, st).

Definition bind {X Y} (m : Py X) (k : X -> Py Y) : Py Y :=
  fun st =>
    match m st with
    | (Ok x, st') => k x st'
    | (Raise e, st') => (Raise e, st')
    end.

Definition lift {X} (r : result X) : Py X := fun st => (r, st).

Notation "'let*' x ':=' m 'in' k" := (bind m (fun x => k))
  (at level 10, x pattern, m at level 200, k at level 200).

Fixpoint for_each {X S} (body : S -> X -> Py S) (xs : list X) (s : S) : Py S :=
  match xs with
  | [] => ret s
  | x :: xs' => let* s' := body s x in for_each body xs' s'
  end.

Definition emit (e : event) : Py unit :=
  fun st => (Ok tt, mkStore (heap st) (trace st ++ [e])).

(** The contents a reference denotes. *)
Definition contents_of (h : list (gmap string V)) (kw : kwref)
  : option (gmap string V) :=
  match kw with
  | KwNone => None
  | KwDict l => Some (default ∅ (h !! l))
  end.

Definition deref (kw : kwref) : Py (option (gmap string V)) :=
  fun st => (Ok (contents_of (heap st) kw), st).

(** A dictionary display [{...}] creates a new object. *)
Definition new_dict (d : gmap string V) : Py kwref :=
  fun st => (Ok (KwDict (length (heap st))),
             mkStore (heap st ++ [d]) (trace st)).

(** [kw[key] = v]; [None] does not support item assignment. *)
Definition dict_setitem (kw : kwref) (key : string) (v : V) : Py unit :=
  match kw with
  | KwNone => raise TypeError
  | KwDict l =>
      fun st => (Ok tt, mkStore (alter (insert key v) l (heap st)) (trace st))
  end.

(** [kw.update(d)], for a [kw] that is not [None]. *)
Definition dict_update (l : loc) (d : gmap string V) : Py unit :=
  fun st => (Ok tt, mkStore (alter (fun old => d ∪ old) l (heap st)) (trace st)).

(** *** Calls of the collaborators *)

Definition call_resnet (r : ResnetBlock2D) (x temb : Tensor A) : Py (Tensor A) :=
  let* _ := emit (CallResnet r x temb) in
  lift (resnet_call r x temb).

Definition call_attn (a : Transformer2DModel) (x : Tensor A)
  (enc : option (Tensor A)) (kw : kwref) : Py (Tensor A) :=
  let* c := deref kw in
  let* _ := emit (CallAttn a x enc kw c) in
  lift (attn_call a x enc c).

Definition call_motion (m : MM) (x : Tensor A) (temb enc : option (Tensor A))
  (kw : kwref) : Py (Tensor A) :=
  let* c := deref kw in
  let* _ := emit (CallMotion m x temb enc kw c) in
  lift (motion_call m x temb enc c).

Definition call_cat (hidden skip : Tensor A) : Py (Tensor A) :=
  let* _ := emit (CallCat hidden skip) in
  lift (torch_cat hidden skip).

Definition call_downsample (d : Downsample2D) (x : Tensor A) : Py (Tensor A) :=
  let* _ := emit (CallDownsample d x) in
  lift (downsample_call d x).

Definition call_upsample (u : Upsample2D) (x : Tensor A)
  (size : option (list nat)) : Py (Tensor A) :=
  let* _ := emit (CallUpsample u x size) in
  lift (upsample_call u x size).

(** *** Code shared by the [forward] methods *)

(** [repeat(temb, "b c -> (b f) c", f=video_length)]; [einops] does not
    accept [None]. *)
Definition repeat_temb (temb : option (Tensor A)) (video_length : nat)
  : result (Tensor A) :=
  match temb with
  | Some t => repeat_frames t video_length
  | None => Raise RuntimeError
  end.

(** A 2D operator between one flatten and the matching unflatten. *)
Definition per_frame (video_length : nat) (op : Tensor A -> Py (Tensor A))
  (hidden_states : Tensor A) : Py (Tensor A) :=
  let* hidden_states := lift (flatten_frames hidden_states) in
  let* hidden_states := op hidden_states in
  lift (unflatten_frames hidden_states video_length).

(** The motion-scale injection, the same five lines in every [forward]:
    a new dictionary when the argument is [None], an update in place
    otherwise. The result is the rebound [motion_cross_attention_kwargs]. *)
Definition inject_motion_scale (attrs : Attrs V)
  (motion_cross_attention_kwargs : kwref) : Py kwref :=
  match motion_lora_scale attrs with
  | Some s =>
      match motion_cross_attention_kwargs with
      | KwNone => new_dict {[ "scale" := s ]}
      | KwDict l =>
          let* _ := dict_update l {[ "scale" := s ]} in
          ret motion_cross_attention_kwargs
      end
  | None => ret motion_cross_attention_kwargs
  end.

(** The spatial-scale injection of the Mid and CrossAttnUp blocks: the
    parameter is rebound to a new dictionary. *)
Definition inject_lora_scale_rebind (attrs : Attrs V)
  (cross_attention_kwargs : kwref) : Py kwref :=
  match lora_scale attrs with
  | Some s => new_dict {[ "scale" := s ]}
  | None => ret cross_attention_kwargs
  end.

(** The spatial-scale injection of CrossAttnDownBlock3D: the scale is
    stored into the dictionary the parameter refers to. *)
Definition inject_lora_scale_inplace (attrs : Attrs V)
  (cross_attention_kwargs : kwref) : Py unit :=
  match lora_scale attrs with
  | Some s => dict_setitem cross_attention_kwargs "scale" s
  | None => ret tt
  end.

(** [motion_module(...)] when the slot is not [None]. *)
Definition motion_slot_call (motion_module : option MM)
  (hidden_states : Tensor A) (temb enc : option (Tensor A))
  (motion_cross_attention_kwargs : kwref) : Py (Tensor A) :=
  match motion_module with
  | Some m => call_motion m hidden_states temb enc motion_cross_attention_kwargs
  | None => ret hidden_states
  end.

(** [for downsampler in self.downsamplers: ...] *)
Definition downsample_all (video_length : nat) (ds : list Downsample2D)
  (hidden_states : Tensor A) : Py (Tensor A) :=
  for_each (fun h d => per_frame video_length (call_downsample d) h)
    ds hidden_states.

Definition upsample_all (video_length : nat) (us : list Upsample2D)
  (upsample_size : option (list nat)) (hidden_states : Tensor A)
  : Py (Tensor A) :=
  for_each (fun h u =>
              per_frame video_length (fun x => call_upsample u x upsample_size) h)
    us hidden_states.

(** *** [UNetMidBlock3DCrossAttn.forward]

    In every [forward] below, an omitted keyword argument is [None] on
    the Coq side and stands for the parameter's default value. The
    parameters [attention_mask] and [motion_module_alpha], which no
    [forward] reads, are left out. *)

Definition Mid_layer (video_length : nat) (temb : option (Tensor A))
  (temb_repeated : Tensor A) (encoder_hidden_states : option (Tensor A))
  (cross_attention_kwargs motion_cross_attention_kwargs : kwref)
  (hidden_states : Tensor A)
  (layer : Transformer2DModel * ResnetBlock2D * option MM) : Py (Tensor A) :=
  let '(attn, resnet, motion_module) := layer in
  let* hidden_states :=
    per_frame video_length
      (fun x => call_attn attn x encoder_hidden_states cross_attention_kwargs)
      hidden_states in
  let* hidden_states :=
    motion_slot_call motion_module hidden_states temb encoder_hidden_states
      motion_cross_attention_kwargs in
  per_frame video_length (fun x => call_resnet resnet x temb_repeated)
    hidden_states.

Definition UNetMidBlock3DCrossAttn_forward (self : UNetMidBlock3DCrossAttn MM)
  (attrs : Attrs V) (hidden_states : Tensor A) (temb : option (Tensor A))
  (encoder_hidden_states : option (Tensor A))
  (cross_attention_kwargs motion_cross_attention_kwargs : option kwref)
  : Py (Tensor A) :=
  let cross_attention_kwargs := default KwNone cross_attention_kwargs in
  let motion_cross_attention_kwargs :=
    default KwNone motion_cross_attention_kwargs in
  let* video_length := lift (video_length_of hidden_states) in
  let* temb_repeated := lift (repeat_temb temb video_length) in
  let* hidden_states :=
    per_frame video_length
      (fun x =>
         let* resnet0 := lift (list_first (mid_resnets self)) in
         call_resnet resnet0 x temb_repeated)
      hidden_states in
  let* cross_attention_kwargs :=
    inject_lora_scale_rebind attrs cross_attention_kwargs in
  let* motion_cross_attention_kwargs :=
    inject_motion_scale attrs motion_cross_attention_kwargs in
  for_each
    (Mid_layer video_length temb temb_repeated encoder_hidden_states
       cross_attention_kwargs motion_cross_attention_kwargs)
    (zip3 (mid_attentions self) (tl (mid_resnets self))
       (mid_motion_modules self))
    hidden_states.

(** *** [CrossAttnDownBlock3D.forward] *)

(** The loop body; the state is [(hidden_states, output_states)]. *)
Definition CrossAttnDown_layer (attrs : Attrs V) (video_length : nat)
  (temb : option (Tensor A)) (temb_repeated : Tensor A)
  (encoder_hidden_states : option (Tensor A))
  (cross_attention_kwargs motion_cross_attention_kwargs : kwref)
  (st : Tensor A * list (Tensor A))
  (layer : ResnetBlock2D * Transformer2DModel * option MM)
  : Py (Tensor A * list (Tensor A)) :=
  let '(hidden_states, output_states) := st in
  let '(resnet, attn, motion_module) := layer in
  let* hidden_states :=
    if training attrs && gradient_checkpointing attrs
    then raise NotImplementedError
    else
      let* hidden_states :=
        per_frame video_length (fun x => call_resnet resnet x temb_repeated)
          hidden_states in
      let* hidden_states :=
        per_frame video_length
          (fun x => call_attn attn x encoder_hidden_states cross_attention_kwargs)
          hidden_states in
      motion_slot_call motion_module hidden_states temb encoder_hidden_states
        motion_cross_attention_kwargs in
  ret (hidden_states, output_states ++ [hidden_states]).

(** [if self.downsamplers is not None: ...; output_states += (...)] *)
Definition down_tail (video_length : nat) (downsamplers : option (list Downsample2D))
  (st : Tensor A * list (Tensor A)) : Py (Tensor A * list (Tensor A)) :=
  let '(hidden_states, output_states) := st in
  match downsamplers with
  | Some ds =>
      let* hidden_states := downsample_all video_length ds hidden_states in
      ret (hidden_states, output_states ++ [hidden_states])
  | None => ret (hidden_states, output_states)
  end.

Definition CrossAttnDownBlock3D_forward (self : CrossAttnDownBlock3D MM)
  (attrs : Attrs V) (hidden_states : Tensor A) (temb : option (Tensor A))
  (encoder_hidden_states : option (Tensor A))
  (cross_attention_kwargs motion_cross_attention_kwargs : option kwref)
  : Py (Tensor A * list (Tensor A)) :=
  let cross_attention_kwargs :=
    default (KwDict CrossAttnDown_cross_default) cross_attention_kwargs in
  let motion_cross_attention_kwargs :=
    default (KwDict CrossAttnDown_motion_default) motion_cross_attention_kwargs in
  let* video_length := lift (video_length_of hidden_states) in
  let* temb_repeated := lift (repeat_temb temb video_length) in
  let output_states := [] in
  let* _ := inject_lora_scale_inplace attrs cross_attention_kwargs in
  let* motion_cross_attention_kwargs :=
    inject_motion_scale attrs motion_cross_attention_kwargs in
  let* st :=
    for_each
      (CrossAttnDown_layer attrs video_length temb temb_repeated
         encoder_hidden_states cross_attention_kwargs
         motion_cross_attention_kwargs)
      (zip3 (cad_resnets self) (cad_attentions self) (cad_motion_modules self))
      (hidden_states, output_states) in
  down_tail video_length (cad_downsamplers self) st.

(** *** [DownBlock3D.forward] *)

Definition Down_layer (attrs : Attrs V) (video_length : nat)
  (temb : option (Tensor A)) (temb_repeated : Tensor A)
  (encoder_hidden_states : option (Tensor A))
  (motion_cross_attention_kwargs : kwref)
  (st : Tensor A * list (Tensor A))
  (layer : ResnetBlock2D * option MM) : Py (Tensor A * list (Tensor A)) :=
  let '(hidden_states, output_states) := st in
  let '(resnet, motion_module) := layer in
  let* hidden_states :=
    if training attrs && gradient_checkpointing attrs
    then raise NotImplementedError
    else
      let* hidden_states :=
        per_frame video_length (fun x => call_resnet resnet x temb_repeated)
          hidden_states in
      motion_slot_call motion_module hidden_states temb encoder_hidden_states
        motion_cross_attention_kwargs in
  ret (hidden_states, output_states ++ [hidden_states]).

Definition DownBlock3D_forward (self : DownBlock3D MM)
  (attrs : Attrs V) (hidden_states : Tensor A) (temb : option (Tensor A))
  (encoder_hidden_states : option (Tensor A))
  (motion_cross_attention_kwargs : option kwref)
  : Py (Tensor A * list (Tensor A)) :=
  let motion_cross_attention_kwargs :=
    default (KwDict Down_motion_default) motion_cross_attention_kwargs in
  let* video_length := lift (video_length_of hidden_states) in
  let* temb_repeated := lift (repeat_temb temb video_length) in
  let output_states := [] in
  let* motion_cross_attention_kwargs :=
    inject_motion_scale attrs motion_cross_attention_kwargs in
  let* st :=
    for_each
      (Down_layer attrs video_length temb temb_repeated encoder_hidden_states
         motion_cross_attention_kwargs)
      (zip2 (dn_resnets self) (dn_motion_modules self))
      (hidden_states, output_states) in
  down_tail video_length (dn_downsamplers self) st.

(** *** [CrossAttnUpBlock3D.forward] *)

(** The first three lines of an Up layer: pop the last skip entry and
    concatenate it to the hidden states. *)
Definition pop_and_cat (st : Tensor A * list (Tensor A))
  : Py (Tensor A * list (Tensor A)) :=
  let '(hidden_states, res_hidden_states_tuple) := st in
  let* res_hidden_states := lift (tuple_last res_hidden_states_tuple) in
  let res_hidden_states_tuple := tuple_init res_hidden_states_tuple in
  let* hidden_states := call_cat hidden_states res_hidden_states in
  ret (hidden_states, res_hidden_states_tuple).

(** The loop body; the state is [(hidden_states, res_hidden_states_tuple)]. *)
Definition CrossAttnUp_layer (attrs : Attrs V) (video_length : nat)
  (temb : option (Tensor A)) (temb_repeated : Tensor A)
  (encoder_hidden_states : option (Tensor A))
  (cross_attention_kwargs motion_cross_attention_kwargs : kwref)
  (st : Tensor A * list (Tensor A))
  (layer : ResnetBlock2D * Transformer2DModel * option MM)
  : Py (Tensor A * list (Tensor A)) :=
  let '(resnet, attn, motion_module) := layer in
  let* (hidden_states, res_hidden_states_tuple) := pop_and_cat st in
  let* hidden_states :=
    if training attrs && gradient_checkpointing attrs
    then raise NotImplementedError
    else
      let* hidden_states :=
        per_frame video_length (fun x => call_resnet resnet x temb_repeated)
          hidden_states in
      let* hidden_states :=
        per_frame video_length
          (fun x => call_attn attn x encoder_hidden_states cross_attention_kwargs)
          hidden_states in
      motion_slot_call motion_module hidden_states temb encoder_hidden_states
        motion_cross_attention_kwargs in
  ret (hidden_states, res_hidden_states_tuple).

(** [if self.upsamplers is not None: ...] *)
Definition up_tail (video_length : nat) (upsamplers : option (list Upsample2D))
  (upsample_size : option (list nat)) (hidden_states : Tensor A)
  : Py (Tensor A) :=
  match upsamplers with
  | Some us => upsample_all video_length us upsample_size hidden_states
  | None => ret hidden_states
  end.

(** The prelude and the loop of [CrossAttnUpBlock3D.forward]: the result
    is the loop's final [(hidden_states, res_hidden_states_tuple)] and
    the frame count. *)
Definition CrossAttnUpBlock3D_layers (self : CrossAttnUpBlock3D MM)
  (attrs : Attrs V) (hidden_states : Tensor A)
  (res_hidden_states_tuple : list (Tensor A)) (temb : option (Tensor A))
  (encoder_hidden_states : option (Tensor A))
  (cross_attention_kwargs motion_cross_attention_kwargs : option kwref)
  : Py (nat * (Tensor A * list (Tensor A))) :=
  let cross_attention_kwargs := default KwNone cross_attention_kwargs in
  let motion_cross_attention_kwargs :=
    default (KwDict CrossAttnUp_motion_default) motion_cross_attention_kwargs in
  let* video_length := lift (video_length_of hidden_states) in
  let* temb_repeated := lift (repeat_temb temb video_length) in
  let* cross_attention_kwargs :=
    inject_lora_scale_rebind attrs cross_attention_kwargs in
  let* motion_cross_attention_kwargs :=
    inject_motion_scale attrs motion_cross_attention_kwargs in
  let* st :=
    for_each
      (CrossAttnUp_layer attrs video_length temb temb_repeated
         encoder_hidden_states cross_attention_kwargs
         motion_cross_attention_kwargs)
      (zip3 (cau_resnets self) (cau_attentions self) (cau_motion_modules self))
      (hidden_states, res_hidden_states_tuple) in
  ret (video_length, st).

Definition CrossAttnUpBlock3D_forward (self : CrossAttnUpBlock3D MM)
  (attrs : Attrs V) (hidden_states : Tensor A)
  (res_hidden_states_tuple : list (Tensor A)) (temb : option (Tensor A))
  (encoder_hidden_states : option (Tensor A))
  (upsample_size : option (list nat))
  (cross_attention_kwargs motion_cross_attention_kwargs : option kwref)
  : Py (Tensor A) :=
  let* (video_length, (hidden_states, _)) :=
    CrossAttnUpBlock3D_layers self attrs hidden_states res_hidden_states_tuple
      temb encoder_hidden_states cross_attention_kwargs
      motion_cross_attention_kwargs in
  up_tail video_length (cau_upsamplers self) upsample_size hidden_states.

(** *** [UpBlock3D.forward] *)

Definition Up_layer (attrs : Attrs V) (video_length : nat)
  (temb : option (Tensor A)) (temb_repeated : Tensor A)
  (encoder_hidden_states : option (Tensor A))
  (motion_cross_attention_kwargs : kwref)
  (st : Tensor A * list (Tensor A))
  (layer : ResnetBlock2D * option MM) : Py (Tensor A * list (Tensor A)) :=
  let '(resnet, motion_module) := layer in
  let* (hidden_states, res_hidden_states_tuple) := pop_and_cat st in
  let* hidden_states :=
    if training attrs && gradient_checkpointing attrs
    then raise NotImplementedError
    else
      let* hidden_states :=
        per_frame video_length (fun x => call_resnet resnet x temb_repeated)
          hidden_states in
      motion_slot_call motion_module hidden_states temb encoder_hidden_states
        motion_cross_attention_kwargs in
  ret (hidden_states, res_hidden_states_tuple).

Definition UpBlock3D_layers (self : UpBlock3D MM)
  (attrs : Attrs V) (hidden_states : Tensor A)
  (res_hidden_states_tuple : list (Tensor A)) (temb : option (Tensor A))
  (encoder_hidden_states : option (Tensor A))
  (motion_cross_attention_kwargs : option kwref)
  : Py (nat * (Tensor A * list (Tensor A))) :=
  let motion_cross_attention_kwargs :=
    default (KwDict Up_motion_default) motion_cross_attention_kwargs in
  let* video_length := lift (video_length_of hidden_states) in
  let* temb_repeated := lift (repeat_temb temb video_length) in
  let* motion_cross_attention_kwargs :=
    inject_motion_scale attrs motion_cross_attention_kwargs in
  let* st :=
    for_each
      (Up_layer attrs video_length temb temb_repeated encoder_hidden_states
         motion_cross_attention_kwargs)
      (zip2 (up_resnets self) (up_motion_modules self))
      (hidden_states, res_hidden_states_tuple) in
  ret (video_length, st).

Definition UpBlock3D_forward (self : UpBlock3D MM)
  (attrs : Attrs V) (hidden_states : Tensor A)
  (res_hidden_states_tuple : list (Tensor A)) (temb : option (Tensor A))
  (upsample_size : option (list nat))
  (encoder_hidden_states : option (Tensor A))
  (motion_cross_attention_kwargs : option kwref)
  : Py (Tensor A) :=
  let* (video_length, (hidden_states, _)) :=
    UpBlock3D_layers self attrs hidden_states res_hidden_states_tuple
      temb encoder_hidden_states motion_cross_attention_kwargs in
  up_tail video_length (up_upsamplers self) upsample_size hidden_states.

(** *** Calling a block of either variant

    The outer U-Net calls a block object with keyword arguments; the plain
    variants collect [cross_attention_kwargs] in their [**kwargs] and never
    read it. *)

Definition DownBlock_init (cross_attn : bool) (args : BlockArgs MK)
  : result (DownBlock MM) :=
  if cross_attn
  then rbind (CrossAttnDownBlock3D_init args) (fun b => Ok (IsCrossAttnDownBlock3D b))
  else rbind (DownBlock3D_init args) (fun b => Ok (IsDownBlock3D b)).

Definition UpBlock_init (cross_attn : bool) (args : BlockArgs MK)
  : result (UpBlock MM) :=
  if cross_attn
  then rbind (CrossAttnUpBlock3D_init args) (fun b => Ok (IsCrossAttnUpBlock3D b))
  else rbind (UpBlock3D_init args) (fun b => Ok (IsUpBlock3D b)).

Definition DownBlock_forward (self : DownBlock MM) (attrs : Attrs V)
  (hidden_states : Tensor A) (temb encoder_hidden_states : option (Tensor A))
  (cross_attention_kwargs motion_cross_attention_kwargs : option kwref)
  : Py (Tensor A * list (Tensor A)) :=
  match self with
  | IsDownBlock3D b =>
      DownBlock3D_forward b attrs hidden_states temb encoder_hidden_states
        motion_cross_attention_kwargs
  | IsCrossAttnDownBlock3D b =>
      CrossAttnDownBlock3D_forward b attrs hidden_states temb
        encoder_hidden_states cross_attention_kwargs
        motion_cross_attention_kwargs
  end.

Definition UpBlock_layers (self : UpBlock MM) (attrs : Attrs V)
  (hidden_states : Tensor A) (res_hidden_states_tuple : list (Tensor A))
  (temb encoder_hidden_states : option (Tensor A))
  (cross_attention_kwargs motion_cross_attention_kwargs : option kwref)
  : Py (nat * (Tensor A * list (Tensor A))) :=
  match self with
  | IsUpBlock3D b =>
      UpBlock3D_layers b attrs hidden_states res_hidden_states_tuple temb
        encoder_hidden_states motion_cross_attention_kwargs
  | IsCrossAttnUpBlock3D b =>
      CrossAttnUpBlock3D_layers b attrs hidden_states res_hidden_states_tuple
        temb encoder_hidden_states cross_attention_kwargs
        motion_cross_attention_kwargs
  end.

Definition UpBlock_forward (self : UpBlock MM) (attrs : Attrs V)
  (hidden_states : Tensor A) (res_hidden_states_tuple : list (Tensor A))
  (temb encoder_hidden_states : option (Tensor A))
  (upsample_size : option (list nat))
  (cross_attention_kwargs motion_cross_attention_kwargs : option kwref)
  : Py (Tensor A) :=
  match self with
  | IsUpBlock3D b =>
      UpBlock3D_forward b attrs hidden_states res_hidden_states_tuple temb
        upsample_size encoder_hidden_states motion_cross_attention_kwargs
  | IsCrossAttnUpBlock3D b =>
      CrossAttnUpBlock3D_forward b attrs hidden_states res_hidden_states_tuple
        temb encoder_hidden_states upsample_size cross_attention_kwargs
        motion_cross_attention_kwargs
  end.

(** *** Specification devices *)

(** A Down block cut after its first [k] layers, without its resampler:
    its [forward] returns the hidden states after layer [k - 1]. *)
Definition DownBlock_prefix (k : nat) (self : DownBlock MM) : DownBlock MM :=
  match self with
  | IsDownBlock3D b =>
      IsDownBlock3D
        (mkDown (firstn k (dn_resnets b)) (firstn k (dn_motion_modules b)) None)
  | IsCrossAttnDownBlock3D b =>
      IsCrossAttnDownBlock3D
        (mkCrossAttnDown (cad_has_cross_attention b)
           (cad_attn_num_head_channels b) (firstn k (cad_attentions b))
           (firstn k (cad_resnets b)) (firstn k (cad_motion_modules b)) None)
  end.

(** An Up block cut after its first [k] layers. *)
Definition UpBlock_prefix (k : nat) (self : UpBlock MM) : UpBlock MM :=
  match self with
  | IsUpBlock3D b =>
      IsUpBlock3D
        (mkUp (firstn k (up_resnets b)) (firstn k (up_motion_modules b))
           (up_upsamplers b))
  | IsCrossAttnUpBlock3D b =>
      IsCrossAttnUpBlock3D
        (mkCrossAttnUp (cau_has_cross_attention b)
           (cau_attn_num_head_channels b) (firstn k (cau_attentions b))
           (firstn k (cau_resnets b)) (firstn k (cau_motion_modules b))
           (cau_upsamplers b))
  end.

Definition down_resnets (self : DownBlock MM) : list ResnetBlock2D :=
  match self with
  | IsDownBlock3D b => dn_resnets b
  | IsCrossAttnDownBlock3D b => cad_resnets b
  end.

Definition down_downsamplers (self : DownBlock MM) : option (list Downsample2D) :=
  match self with
  | IsDownBlock3D b => dn_downsamplers b
  | IsCrossAttnDownBlock3D b => cad_downsamplers b
  end.

Definition up_block_resnets (self : UpBlock MM) : list ResnetBlock2D :=
  match self with
  | IsUpBlock3D b => up_resnets b
  | IsCrossAttnUpBlock3D b => cau_resnets b
  end.

Definition up_block_upsamplers (self : UpBlock MM) : option (list Upsample2D) :=
  match self with
  | IsUpBlock3D b => up_upsamplers b
  | IsCrossAttnUpBlock3D b => cau_upsamplers b
  end.

(** The skip entries handed to [torch.cat], in call order. *)
Fixpoint skips_of (tr : list event) : list (Tensor A) :=
  match tr with
  | [] => []
  | CallCat _ skip :: tr' => skip :: skips_of tr'
  | _ :: tr' => skips_of tr'
  end.

(** The keyword arguments the attention operators and the motion modules
    received, in call order: the reference and the dictionary contents. *)
Fixpoint attn_configs (tr : list event)
  : list (kwref * option (gmap string V)) :=
  match tr with
  | [] => []
  | CallAttn _ _ _ kw c :: tr' => (kw, c) :: attn_configs tr'
  | _ :: tr' => attn_configs tr'
  end.

Fixpoint motion_configs (tr : list event)
  : list (kwref * option (gmap string V)) :=
  match tr with
  | [] => []
  | CallMotion _ _ _ _ kw c :: tr' => (kw, c) :: motion_configs tr'
  | _ :: tr' => motion_configs tr'
  end.

(** The argument as the caller passed it: the reference, or the default
    object for an omitted argument, with the contents it has in [st]. *)
Definition as_passed (st : store) (dflt : kwref) (arg : option kwref)
  : kwref * option (gmap string V) :=
  (default dflt arg, contents_of (heap st) (default dflt arg)).

(** The references of a call denote dictionary objects of the store, the
    five default objects included. *)
Definition kwref_ok (st : store) (kw : kwref) : Prop :=
  match kw with
  | KwNone => True
  | KwDict l => l < length (heap st)
  end.

Definition store_ok (st : store) : Prop := 5 <= length (heap st).

(** The two configuration arguments are not one and the same dictionary. *)
Definition no_alias (a b : kwref) : Prop :=
  match a, b with
  | KwDict l1, KwDict l2 => l1 <> l2
  | _, _ => True
  end.

(** The start of a [forward] that has a loop over popped or appended
    states: frame count, repeated time embedding and the two scale
    injections, [lora] being the spatial one of the block at hand. The
    result is the frame count, the repeated time embedding and the two
    keyword-argument references the layers will receive. *)
Definition lora_inplace (attrs : Attrs V) (cross_attention_kwargs : kwref)
  : Py kwref :=
  let* _ := inject_lora_scale_inplace attrs cross_attention_kwargs in
  ret cross_attention_kwargs.

Definition lora_unread (attrs : Attrs V) (cross_attention_kwargs : kwref)
  : Py kwref :=
  ret cross_attention_kwargs.

Definition run_prelude (lora : Attrs V -> kwref -> Py kwref) (attrs : Attrs V)
  (hidden_states : Tensor A) (temb : option (Tensor A))
  (cross_attention_kwargs motion_cross_attention_kwargs : kwref)
  : Py (nat * Tensor A * kwref * kwref) :=
  let* video_length := lift (video_length_of hidden_states) in
  let* temb_repeated := lift (repeat_temb temb video_length) in
  let* cross_attention_kwargs := lora attrs cross_attention_kwargs in
  let* motion_cross_attention_kwargs :=
    inject_motion_scale attrs motion_cross_attention_kwargs in
  ret (video_length, temb_repeated, cross_attention_kwargs,
       motion_cross_attention_kwargs).

(** What both scale injections guarantee, [scale] being the attribute
    they read and [kw] the argument they receive: no collaborator is
    called; dictionary objects are created or updated, never removed; a
    dictionary other than [kw] keeps its contents; and without a scale
    nothing happens at all. *)
Definition injection_frame (m : Py kwref) (scale : option V) (kw : kwref)
  : Prop :=
  forall st,
    trace (snd (m st)) = trace st /\
    forall kw' st1, m st = (Ok kw', st1) ->
      length (heap st) <= length (heap st1) /\
      (forall r, kwref_ok st r -> no_alias r kw ->
                 contents_of (heap st1) r = contents_of (heap st) r) /\
      (scale = None -> kw' = kw /\ st1 = st).

(** The events a call added to the log. *)
Definition new_events (st st' : store) : list event :=
  skipn (length (trace st)) (trace st').

(** The number of layers a [forward] iterates over. *)
Definition down_layer_count (self : DownBlock MM) : nat :=
  match self with
  | IsDownBlock3D b => length (zip2 (dn_resnets b) (dn_motion_modules b))
  | IsCrossAttnDownBlock3D b =>
      length (zip3 (cad_resnets b) (cad_attentions b) (cad_motion_modules b))
  end.

Definition up_layer_count (self : UpBlock MM) : nat :=
  match self with
  | IsUpBlock3D b => length (zip2 (up_resnets b) (up_motion_modules b))
  | IsCrossAttnUpBlock3D b =>
      length (zip3 (cau_resnets b) (cau_attentions b) (cau_motion_modules b))
  end.

(** A [forward] call of any of the five blocks, with the arguments that
    only the Up blocks take. *)
Inductive AnyBlock : Type :=
| MidBlock (b : UNetMidBlock3DCrossAttn MM)
| ADownBlock (b : DownBlock MM)
| AnUpBlock (b : UpBlock MM) (res_hidden_states_tuple : list (Tensor A))
            (upsample_size : option (list nat)).

(** The store a [forward] call leaves, whether it returns or raises. *)
Definition store_after (self : AnyBlock) (attrs : Attrs V)
  (hidden_states : Tensor A) (temb encoder_hidden_states : option (Tensor A))
  (cross_attention_kwargs motion_cross_attention_kwargs : option kwref)
  (st : store) : store :=
  match self with
  | MidBlock b =>
      snd (UNetMidBlock3DCrossAttn_forward b attrs hidden_states temb
             encoder_hidden_states cross_attention_kwargs
             motion_cross_attention_kwargs st)
  | ADownBlock b =>
      snd (DownBlock_forward b attrs hidden_states temb encoder_hidden_states
             cross_attention_kwargs motion_cross_attention_kwargs st)
  | AnUpBlock b res_hidden_states_tuple upsample_size =>
      snd (UpBlock_forward b attrs hidden_states res_hidden_states_tuple temb
             encoder_hidden_states upsample_size cross_attention_kwargs
             motion_cross_attention_kwargs st)
  end.

(** The default values of the two keyword parameters. The plain blocks
    have no [cross_attention_kwargs] parameter. *)
Definition cross_default (self : AnyBlock) : kwref :=
  match self with
  | ADownBlock (IsCrossAttnDownBlock3D _) => KwDict CrossAttnDown_cross_default
  | _ => KwNone
  end.

Definition motion_default (self : AnyBlock) : kwref :=
  match self with
  | MidBlock _ => KwNone
  | ADownBlock (IsDownBlock3D _) => KwDict Down_motion_default
  | ADownBlock (IsCrossAttnDownBlock3D _) => KwDict CrossAttnDown_motion_default
  | AnUpBlock (IsUpBlock3D _) _ _ => KwDict Up_motion_default
  | AnUpBlock (IsCrossAttnUpBlock3D _) _ _ => KwDict CrossAttnUp_motion_default
  end.

(** Adapter-scale isolation for the events of one call: without a motion
    scale every motion module receives [motion], without a spatial scale
    every attention operator receives [cross]. *)
Definition scale_isolation (attrs : Attrs V)
  (cross motion : kwref * option (gmap string V)) (new : list event) : Prop :=
  (motion_lora_scale attrs = None -> Forall (eq motion) (motion_configs new)) /\
  (lora_scale attrs = None -> Forall (eq cross) (attn_configs new)).

(** Predicates on events, and the computations that keep the dictionary
    objects [h] as they are and log only events satisfying [P]. *)
Definition not_cat (e : event) : Prop :=
  match e with
  | CallCat _ _ => False
  | _ => True
  end.

Definition config_event (h : list (gmap string V)) (ck mk : kwref) (e : event)
  : Prop :=
  match e with
  | CallAttn _ _ _ kw c => (kw, c) = (ck, contents_of h ck)
  | CallMotion _ _ _ _ kw c => (kw, c) = (mk, contents_of h mk)
  | _ => True
  end.

Definition layer_event (h : list (gmap string V)) (ck mk : kwref) (e : event)
  : Prop :=
  not_cat e /\ config_event h ck mk e.

Definition emits_at (h : list (gmap string V)) (P : event -> Prop) {X}
  (m : Py X) : Prop :=
  forall st, heap st = h ->
    heap (snd (m st)) = h /\
    exists new, trace (snd (m st)) = trace st ++ new /\ Forall P new.

End Blocks.

(** ** A small instance of the collaborators

    Integer tensors; dictionaries hold integers; a motion module is the
    channel count it was built for. The residual operator adds one to
    every element, attention adds the ["scale"] entry of its keyword
    arguments (zero without one), a motion module doubles and adds its
    scale. *)

Module Toy.

Definition scale_of (kw : option (gmap string Z)) : Z :=
  match kw with
  | Some d => default 0%Z (d !! "scale")
  | None => 0%Z
  end.

Definition pointwise (f : Z -> Z) (x : Tensor Z) : Tensor Z :=
  mkTensor (shape x) (map f (data x)).

(** The resamplers of this instance keep the resolution, so that every
    skip entry can be concatenated to the hidden states of any layer:
    "down" halves the elements and "up" doubles them. *)
Definition toy_downsample (x : Tensor Z) : result (Tensor Z) :=
  match shape x with
  | [n; c; h; w] => Ok (pointwise (fun v => v / 2)%Z x)
  | _ => Raise RuntimeError
  end.

Definition toy_upsample (x : Tensor Z) : result (Tensor Z) :=
  match shape x with
  | [n; c; h; w] => Ok (pointwise (Z.mul 2) x)
  | _ => Raise RuntimeError
  end.

Definition toy_cat (a b : Tensor Z) : result (Tensor Z) :=
  match shape a, shape b with
  | [1; c1; f1; h1; w1], [1; c2; f2; h2; w2] =>
      if (f1 =? f2) && (h1 =? h2) && (w1 =? w2)
      then Ok (mkTensor [1; c1 + c2; f1; h1; w1] (data a ++ data b))
      else Raise RuntimeError
  | _, _ => Raise RuntimeError
  end.

(** The constructors of this instance fail as group normalisation does:
    with [TypeError] for a group count [None], and with [ValueError] for
    a group count that is not positive or does not divide the channels. *)
Definition toy_group_norm (groups : option Z) (channels : Z) : result unit :=
  match groups with
  | None => Raise TypeError
  | Some g =>
      if (0 <? g)%Z && (channels mod g =? 0)%Z
      then Ok tt
      else Raise (ValueError "num_channels must be divisible by num_groups")
  end.

Definition toy_resnet_init (r : ResnetBlock2D) : result unit :=
  rbind (toy_group_norm (rn_groups r) (rn_in_channels r)) (fun _ =>
  toy_group_norm (rn_groups r) (rn_out_channels r)).

Definition toy_transformer_init (t : Transformer2DModel) : result unit :=
  toy_group_norm (tr_norm_num_groups t) (tr_in_channels t).

#[global] Instance toy_collaborators : Collaborators Z Z Z unit := {
  ResnetBlock2D_init := toy_resnet_init;
  Transformer2DModel_init := toy_transformer_init;
  Downsample2D_init := fun _ => Ok tt;
  Upsample2D_init := fun _ => Ok tt;
  get_motion_module := fun c _ _ => Ok c;
  resnet_call := fun _ x _ => Ok (pointwise (Z.add 1) x);
  attn_call := fun _ x _ kw => Ok (pointwise (Z.add (scale_of kw)) x);
  motion_call := fun _ x _ _ kw =>
    Ok (pointwise (fun v => 2 * v + scale_of kw)%Z x);
  downsample_call := fun _ x => toy_downsample x;
  upsample_call := fun _ x _ => toy_upsample x;
  torch_cat := toy_cat
}.

(** The store after the module has been imported: the five default
    dictionaries, all empty, and no call yet. *)
Definition fresh_store : @store Z Z Z := mkStore [∅; ∅; ∅; ∅; ∅] [].

Definition args (L : nat) (cin cout cprev : Z) (dual motion : bool)
  : BlockArgs unit :=
  mkBlockArgs cin cout cprev 16 0 L (1 # 1000000) "default" "swish" (Some 1%Z)
    true 1 (Some 8%Z) 1 (Some 1%Z) true true dual false false false motion
    (Some "Vanilla") (Some tt).

Definition factory_args (L : nat) (cross : option Z) (dual : bool)
  : FactoryArgs unit :=
  mkFactoryArgs L 4 8 8 16 true (1 # 1000000) "swish" 1 (Some 1%Z) cross
    (Some 1%Z) dual false false false "default" false None None.

Definition eval_attrs : Attrs Z := mkAttrs false false None None.
Definition train_ckpt_attrs : Attrs Z := mkAttrs true true None None.

(** A video latent of shape (1, 1, 2, 2, 2) and a time embedding (1, 1). *)
Definition latent : Tensor Z := mkTensor [1; 1; 2; 2; 2] [1; 2; 3; 4; 5; 6; 7; 8]%Z.
Definition temb : Tensor Z := mkTensor [1; 1] [0%Z].

(** Attributes with only the spatial scale set, and with only the
    motion scale set. *)
Definition lora_attrs : Attrs Z := mkAttrs false false (Some 3%Z) None.
Definition motion_attrs : Attrs Z := mkAttrs false false None (Some 5%Z).

(** A store in which the caller has created one more dictionary, at
    address 5. *)
Definition caller_store : @store Z Z Z := mkStore [∅; ∅; ∅; ∅; ∅; ∅] [].

(** Constructed blocks. *)
Definition down_args : BlockArgs unit := args 2 1 1 1 false true.
Definition up_args : BlockArgs unit := args 3 1 1 1 false true.
Definition up_args_64 : BlockArgs unit := args 3 64 128 256 false false.

Definition cross_down : DownBlock Z :=
  Eval vm_compute in
    match DownBlock_init true down_args with
    | Ok b => b
    | Raise _ => IsDownBlock3D (mkDown [] [] None)
    end.

Definition plain_down : DownBlock Z :=
  Eval vm_compute in
    match DownBlock_init false down_args with
    | Ok b => b
    | Raise _ => IsDownBlock3D (mkDown [] [] None)
    end.

Definition cross_up : UpBlock Z :=
  Eval vm_compute in
    match UpBlock_init true up_args with
    | Ok b => b
    | Raise _ => IsUpBlock3D (mkUp [] [] None)
    end.

Definition up_64 : UpBlock Z :=
  Eval vm_compute in
    match UpBlock_init false up_args_64 with
    | Ok b => b
    | Raise _ => IsUpBlock3D (mkUp [] [] None)
    end.

(** Blocks the factories return. *)
Definition factory_down : DownBlock Z :=
  Eval vm_compute in
    match get_down_block "CrossAttnDownBlock3D"
            (factory_args 2 (Some 8%Z) false) with
    | Ok b => b
    | Raise _ => IsDownBlock3D (mkDown [] [] None)
    end.

Definition factory_up : UpBlock Z :=
  Eval vm_compute in
    match get_up_block "UNetResUpBlock3D" (factory_args 2 None false) with
    | Ok b => b
    | Raise _ => IsUpBlock3D (mkUp [] [] None)
    end.

Definition cross_down_block : CrossAttnDownBlock3D Z :=
  Eval vm_compute in
    match cross_down with
    | IsCrossAttnDownBlock3D b => b
    | IsDownBlock3D _ => mkCrossAttnDown true 0 [] [] [] None
    end.

Definition mid : UNetMidBlock3DCrossAttn Z :=
  Eval vm_compute in
    match UNetMidBlock3DCrossAttn_init down_args with
    | Ok b => b
    | Raise _ => mkMid true 0 [] [] []
    end.

(** Blocks built without motion modules and without resamplers. *)
Definition still_args : BlockArgs unit :=
  mkBlockArgs 1 1 1 16 0 2 (1 # 1000000) "default" "swish" (Some 1%Z)
    true 1 (Some 8%Z) 1 (Some 1%Z) false false false false false false false
    None None.

Definition still_down : DownBlock Z :=
  Eval vm_compute in
    match DownBlock_init true still_args with
    | Ok b => b
    | Raise _ => IsDownBlock3D (mkDown [] [] None)
    end.

(** Arguments with [attn_num_head_channels = 0], and arguments with
    [resnet_groups = None]. *)
Definition headless_args : BlockArgs unit :=
  mkBlockArgs 1 1 1 16 0 2 (1 # 1000000) "default" "swish" (Some 1%Z)
    true 0 (Some 8%Z) 1 (Some 1%Z) true true false false false false true
    (Some "Vanilla") (Some tt).

Definition wide_args : BlockArgs unit :=
  mkBlockArgs 320 320 320 16 0 1 (1 # 1000000) "default" "swish" None
    true 8 (Some 8%Z) 1 (Some 1%Z) true true false false false false true
    (Some "Vanilla") (Some tt).

Definition wide_mid : UNetMidBlock3DCrossAttn Z :=
  Eval vm_compute in
    match UNetMidBlock3DCrossAttn_init wide_args with
    | Ok b => b
    | Raise _ => mkMid true 0 [] [] []
    end.

(** One call of [cross_down] in evaluation mode, all keyword arguments
    omitted: the returned hidden states, the output sequence and the
    store the call leaves. *)
Definition down_run : result (Tensor Z * list (Tensor Z)) * @store Z Z Z :=
  Eval vm_compute in
    DownBlock_forward cross_down eval_attrs latent (Some temb) None None None
      fresh_store.

Definition down_hidden : Tensor Z :=
  Eval vm_compute in
    match fst down_run with Ok (h, _) => h | Raise _ => latent end.

Definition down_outs : list (Tensor Z) :=
  Eval vm_compute in
    match fst down_run with Ok (_, outs) => outs | Raise _ => [] end.

Definition down_store : @store Z Z Z := Eval vm_compute in snd down_run.

(** The call of [cross_up] on that output sequence. *)
Definition up_run : result (Tensor Z) * @store Z Z Z :=
  Eval vm_compute in
    UpBlock_forward cross_up eval_attrs down_hidden down_outs (Some temb) None
      None None None down_store.

Definition up_hidden : Tensor Z :=
  Eval vm_compute in match fst up_run with Ok h => h | Raise _ => latent end.

Definition up_store : @store Z Z Z := Eval vm_compute in snd up_run.

(** The first layer of [cross_up] alone, on a tuple of one entry. *)
Definition up_one_layer
  : result (nat * (Tensor Z * list (Tensor Z))) * @store Z Z Z :=
  Eval vm_compute in
    UpBlock_layers (UpBlock_prefix 1 cross_up) eval_attrs latent [latent]
      (Some temb) None None None fresh_store.

Definition up_one_layer_state : nat * (Tensor Z * list (Tensor Z)) :=
  Eval vm_compute in
    match fst up_one_layer with Ok s => s | Raise _ => (0, (latent, [])) end.

Definition up_one_layer_store : @store Z Z Z :=
  Eval vm_compute in snd up_one_layer.

(** The store after a call of [cross_down] with the spatial scale set
    and no keyword argument: the default dictionary holds the scale. *)
Definition scaled_store : @store Z Z Z :=
  Eval vm_compute in
    snd (DownBlock_forward cross_down lora_attrs latent (Some temb) None None
           None fresh_store).

(** The value under ["scale"] of each configuration an attention
    operator received. *)
Definition scales_seen (configs : list (kwref * option (gmap string Z)))
  : list (option Z) :=
  map (fun c => match snd c with Some d => d !! "scale" | None => None end)
    configs.

(** A latent of shape (2, 2, 3, 1, 2), numbered in row-major order. *)
Definition numbered : Tensor nat := mkTensor [2; 2; 3; 1; 2] (seq 0 24).

(** A latent with no frame: shape (1, 1, 0, 1, 1). *)
Definition no_frame : Tensor nat := mkTensor [1; 1; 0; 1; 1] [].

(** Another one, with two batch items: shape (2, 1, 0, 1, 1). *)
Definition no_frame_pair : Tensor nat := mkTensor [2; 1; 0; 1; 1] [].

End Toy.

(** ** Devices for the further properties *)

Section MoreDevices.
Context {A V MM MK : Type} `{Collaborators A V MM MK}.

(** The collaborator a logged call went to. *)
Inductive op_kind : Type :=
| KResnet
| KAttn
| KMotion
| KCat
| KDownsample
| KUpsample.

Definition event_kind (e : @event A V MM) : op_kind :=
  match e with
  | CallResnet _ _ _ => KResnet
  | CallAttn _ _ _ _ _ => KAttn
  | CallMotion _ _ _ _ _ _ => KMotion
  | CallCat _ _ => KCat
  | CallDownsample _ _ => KDownsample
  | CallUpsample _ _ _ => KUpsample
  end.

(** The store after [emit e]. *)
Definition log_event (e : @event A V MM) (st : @store A V MM) : @store A V MM :=
  mkStore (heap st) (trace st ++ [e]).

(** A computation all of whose runs relate the store they start from to
    the store they leave, whether they return or raise. *)
Definition maintains (R : @store A V MM -> @store A V MM -> Prop) {X}
  (m : @Py A V MM X) : Prop :=
  forall st, R st (snd (m st)).

(** The motion-module slots, the attention operators and the resamplers a
    block owns. *)
Definition block_slots (self : @AnyBlock A MM) : list (option MM) :=
  match self with
  | MidBlock b => mid_motion_modules b
  | ADownBlock (IsDownBlock3D b) => dn_motion_modules b
  | ADownBlock (IsCrossAttnDownBlock3D b) => cad_motion_modules b
  | AnUpBlock (IsUpBlock3D b) _ _ => up_motion_modules b
  | AnUpBlock (IsCrossAttnUpBlock3D b) _ _ => cau_motion_modules b
  end.

Definition is_none {X} (o : option X) : bool :=
  match o with
  | None => true
  | Some _ => false
  end.

(** The collaborators the [forward] of a block may call: what its code
    mentions, a motion module only if some slot holds one, a resampler
    only if the block has one. *)
Definition block_kinds (self : @AnyBlock A MM) : list op_kind :=
  (if forallb is_none (block_slots self) then [] else [KMotion]) ++
  match self with
  | MidBlock _ => [KResnet; KAttn]
  | ADownBlock (IsDownBlock3D b) =>
      KResnet :: (if is_none (dn_downsamplers b) then [] else [KDownsample])
  | ADownBlock (IsCrossAttnDownBlock3D b) =>
      KResnet :: KAttn ::
      (if is_none (cad_downsamplers b) then [] else [KDownsample])
  | AnUpBlock (IsUpBlock3D b) _ _ =>
      KCat :: KResnet ::
      (if is_none (up_upsamplers b) then [] else [KUpsample])
  | AnUpBlock (IsCrossAttnUpBlock3D b) _ _ =>
      KCat :: KResnet :: KAttn ::
      (if is_none (cau_upsamplers b) then [] else [KUpsample])
  end.

(** The dictionary a [forward] stores the spatial scale into:
    CrossAttnDownBlock3D assigns to an item of its argument, the Mid and
    CrossAttnUp blocks rebind the parameter to a new dictionary, and the
    plain blocks do not read the scale. *)
Definition lora_target (self : @AnyBlock A MM) (cross_attention_kwargs : option kwref)
  : kwref :=
  match self with
  | ADownBlock (IsCrossAttnDownBlock3D _) =>
      default (cross_default self) cross_attention_kwargs
  | _ => KwNone
  end.

(** The spatial-scale injection of a block, if it has one. *)
Definition lora_injection (self : @AnyBlock A MM) (attrs : Attrs V)
  (cross_attention_kwargs : option kwref) : @Py A V MM unit :=
  match self with
  | MidBlock _ | AnUpBlock (IsCrossAttnUpBlock3D _) _ _ =>
      bind (inject_lora_scale_rebind attrs
              (default (cross_default self) cross_attention_kwargs))
           (fun _ => ret tt)
  | ADownBlock (IsCrossAttnDownBlock3D _) =>
      inject_lora_scale_inplace attrs
        (default (cross_default self) cross_attention_kwargs)
  | _ => ret tt
  end.

(** From [st] to [st'] no dictionary object disappears, and every
    dictionary other than [ck] and [mk] keeps its contents. *)
Definition heap_frame (ck mk : kwref) (st st' : @store A V MM) : Prop :=
  length (heap st) <= length (heap st') /\
  forall r, kwref_ok st r -> no_alias r ck -> no_alias r mk ->
            contents_of (heap st') r = contents_of (heap st) r.

(** The operator a logged call went to. *)
Inductive operator : Type :=
| OpResnet (r : ResnetBlock2D)
| OpAttn (a : Transformer2DModel)
| OpMotion (m : MM)
| OpCat
| OpDownsample (d : Downsample2D)
| OpUpsample (u : Upsample2D).

Definition event_operator (e : @event A V MM) : operator :=
  match e with
  | CallResnet r _ _ => OpResnet r
  | CallAttn a _ _ _ _ => OpAttn a
  | CallMotion m _ _ _ _ _ => OpMotion m
  | CallCat _ _ => OpCat
  | CallDownsample d _ => OpDownsample d
  | CallUpsample u _ _ => OpUpsample u
  end.

(** The operators one layer of a Down or Up block calls, in order: an Up
    layer concatenates first; then the resnet, the attention operator of
    a block that has them, and the motion module if the slot holds one. *)
Definition layer_operators (cat : bool) (resnet : ResnetBlock2D)
  (attn : option Transformer2DModel) (slot : option MM) : list operator :=
  (if cat then [OpCat] else []) ++
  OpResnet resnet ::
  match attn with Some a => [OpAttn a] | None => [] end ++
  match slot with Some m => [OpMotion m] | None => [] end.

(** A layer of the Mid block: attention, motion module, resnet. *)
Definition mid_layer_operators
  (layer : Transformer2DModel * ResnetBlock2D * option MM) : list operator :=
  let '(attn, resnet, slot) := layer in
  OpAttn attn ::
  match slot with Some m => [OpMotion m] | None => [] end ++ [OpResnet resnet].

Definition cross_layer_operators (cat : bool)
  (layer : ResnetBlock2D * Transformer2DModel * option MM) : list operator :=
  let '(resnet, attn, slot) := layer in
  layer_operators cat resnet (Some attn) slot.

Definition plain_layer_operators (cat : bool)
  (layer : ResnetBlock2D * option MM) : list operator :=
  let '(resnet, slot) := layer in
  layer_operators cat resnet None slot.

(** The operators a [forward] call that returns has called, in order, as
    the block's code has them. *)
Definition call_sequence (self : @AnyBlock A MM) : list operator :=
  match self with
  | MidBlock b =>
      match mid_resnets b with
      | [] => []
      | resnet0 :: _ => [OpResnet resnet0]
      end ++
      flat_map mid_layer_operators
        (zip3 (mid_attentions b) (tl (mid_resnets b)) (mid_motion_modules b))
  | ADownBlock (IsDownBlock3D b) =>
      flat_map (plain_layer_operators false)
        (zip2 (dn_resnets b) (dn_motion_modules b)) ++
      map OpDownsample (default [] (dn_downsamplers b))
  | ADownBlock (IsCrossAttnDownBlock3D b) =>
      flat_map (cross_layer_operators false)
        (zip3 (cad_resnets b) (cad_attentions b) (cad_motion_modules b)) ++
      map OpDownsample (default [] (cad_downsamplers b))
  | AnUpBlock (IsUpBlock3D b) _ _ =>
      flat_map (plain_layer_operators true)
        (zip2 (up_resnets b) (up_motion_modules b)) ++
      map OpUpsample (default [] (up_upsamplers b))
  | AnUpBlock (IsCrossAttnUpBlock3D b) _ _ =>
      flat_map (cross_layer_operators true)
        (zip3 (cau_resnets b) (cau_attentions b) (cau_motion_modules b)) ++
      map OpUpsample (default [] (cau_upsamplers b))
  end.

(** The exception a [forward] call raises, if any. *)
Definition raised {X} (r : result X) : option exn :=
  match r with
  | Ok _ => None
  | Raise e => Some e
  end.

Definition forward_raises (self : @AnyBlock A MM) (attrs : Attrs V)
  (hidden_states : Tensor A) (temb encoder_hidden_states : option (Tensor A))
  (cross_attention_kwargs motion_cross_attention_kwargs : option kwref)
  (st : @store A V MM) : option exn :=
  match self with
  | MidBlock b =>
      raised (fst (UNetMidBlock3DCrossAttn_forward b attrs hidden_states temb
                     encoder_hidden_states cross_attention_kwargs
                     motion_cross_attention_kwargs st))
  | ADownBlock b =>
      raised (fst (DownBlock_forward b attrs hidden_states temb
                     encoder_hidden_states cross_attention_kwargs
                     motion_cross_attention_kwargs st))
  | AnUpBlock b res_hidden_states_tuple upsample_size =>
      raised (fst (UpBlock_forward b attrs hidden_states
                     res_hidden_states_tuple temb encoder_hidden_states
                     upsample_size cross_attention_kwargs
                     motion_cross_attention_kwargs st))
  end.

(** A computation that appends to the log calls of the operators
    [expected], in that order: all of them when it returns, some first
    ones when it raises. *)
Definition calls_in_order (expected : list operator) {X} (m : @Py A V MM X)
  : Prop :=
  forall st, exists new,
    trace (snd (m st)) = trace st ++ new /\
    match fst (m st) with
    | Ok _ => map event_operator new = expected
    | Raise _ => exists rest, expected = map event_operator new ++ rest
    end.

End MoreDevices.

(** * Properties *)

(** ** The reshape protocol *)

Lemma mixed_radix_lt a n i d : a < n -> i < d -> a * d + i < n * d.
Proof. intros Ha Hi. nia. Qed.

Lemma swap_src_lt d0 d1 d2 slab i :
  i < d0 * d2 * d1 * slab -> swap_src d1 d2 slab i < d0 * d1 * d2 * slab.
Proof.
  intros Hi. unfold swap_src.
  assert (Hs : slab <> 0) by (intros ->; lia).
  assert (H1 : d1 <> 0) by (intros ->; lia).
  assert (H2 : d2 <> 0) by (intros ->; lia).
  assert (i / slab < d0 * d2 * d1) by (apply Nat.Div0.div_lt_upper_bound; lia).
  assert (i / slab / d1 < d0 * d2) by (apply Nat.Div0.div_lt_upper_bound; lia).
  assert (i / slab / d1 / d2 < d0) by (apply Nat.Div0.div_lt_upper_bound; lia).
  repeat apply mixed_radix_lt; auto using Nat.mod_upper_bound.
Qed.

Lemma swap_src_involutive d0 d1 d2 slab i :
  i < d0 * d2 * d1 * slab ->
  swap_src d2 d1 slab (swap_src d1 d2 slab i) = i.
Proof.
  intros Hi. unfold swap_src.
  assert (Hs : slab <> 0) by (intros ->; lia).
  assert (H1 : d1 <> 0) by (intros ->; lia).
  assert (H2 : d2 <> 0) by (intros ->; lia).
  set (s := i mod slab). set (q := i / slab).
  set (i1 := q mod d1). set (r := q / d1).
  set (i2 := r mod d2). set (i0 := r / d2).
  assert (Es : s < slab) by (apply Nat.mod_upper_bound; lia).
  assert (E1 : i1 < d1) by (apply Nat.mod_upper_bound; lia).
  assert (E2 : i2 < d2) by (apply Nat.mod_upper_bound; lia).
  rewrite (Nat.add_comm _ s), Nat.Div0.mod_add, Nat.div_add by lia.
  rewrite (Nat.mod_small s), (Nat.div_small s), Nat.add_0_l by lia.
  rewrite (Nat.add_comm _ i2), Nat.Div0.mod_add, Nat.div_add by lia.
  rewrite (Nat.mod_small i2), (Nat.div_small i2), Nat.add_0_l by lia.
  rewrite (Nat.add_comm _ i1), Nat.Div0.mod_add, Nat.div_add by lia.
  rewrite (Nat.mod_small i1), (Nat.div_small i1), Nat.add_0_l by lia.
  pose proof (Nat.div_mod_eq i slab). pose proof (Nat.div_mod_eq q d1).
  pose proof (Nat.div_mod_eq r d2).
  fold s q in H. fold i1 r in H0. fold i2 i0 in H3. nia.
Qed.

Lemma gather_length {A} n src (xs : list A) :
  xs <> [] -> length (gather n src xs) = n.
Proof.
  destruct xs as [|a xs]; [congruence|]. intros _. unfold gather.
  now rewrite length_map, length_seq.
Qed.

Lemma gather_nil {A} n src : @gather A n src [] = [].
Proof. reflexivity. Qed.

Lemma nth_gather {A} n src (xs : list A) i d :
  i < n -> src i < length xs -> nth i (gather n src xs) d = nth (src i) xs d.
Proof.
  intros Hi Hs. destruct xs as [|a xs]; [simpl in Hs; lia|]. unfold gather.
  rewrite (nth_indep _ d (nth (src 0) (a :: xs) a))
    by now rewrite length_map, length_seq.
  rewrite (map_nth (fun i => nth (src i) (a :: xs) a)), seq_nth by lia.
  simpl Nat.add. now apply nth_indep.
Qed.

(** Gathering twice along inverse index maps gives the list back. *)
Lemma gather_inverse {A} n src1 src2 (xs : list A) :
  length xs = n ->
  (forall i, i < n -> src2 i < n) ->
  (forall i, i < n -> src1 (src2 i) = i) ->
  gather n src2 (gather n src1 xs) = xs.
Proof.
  intros Hlen Hlt Hinv.
  destruct xs as [|a xs]; [reflexivity|].
  assert (Hne : gather n src1 (a :: xs) <> []).
  { intros E. apply (f_equal (@length A)) in E.
    rewrite gather_length in E by congruence. simpl in *. lia. }
  apply (nth_ext _ _ a a).
  - rewrite gather_length by assumption. congruence.
  - intros i Hi. rewrite gather_length in Hi by assumption.
    rewrite nth_gather; [|assumption|rewrite gather_length by congruence; auto].
    rewrite nth_gather; [|auto|rewrite Hinv by assumption; lia].
    now rewrite Hinv.
Qed.

Lemma flatten_frames_shape {A} (x : Tensor A) b c f h w :
  shape x = [b; c; f; h; w] ->
  exists y, flatten_frames x = Ok y /\ shape y = [b * f; c; h; w].
Proof. intros E. unfold flatten_frames. rewrite E. eauto. Qed.

(** C1 (amended): for every 5-axis tensor [x] of shape (B, C, F, H, W)
    with at least one frame, flattening the frames into the batch axis
    and unflattening with the same frame count [F] returns [x] itself:
    the same shape and the same elements. *)
Theorem unflatten_flatten_frames {A} (x : Tensor A) (b c f h w : nat) :
  shape x = [b; c; f; h; w] ->
  wf_tensor x ->
  0 < f ->
  rbind (flatten_frames x) (fun y => unflatten_frames y f) = Ok x.
Proof.
  intros Hshape Hwf Hf. destruct x as [sh xs]. simpl in *. subst sh.
  unfold wf_tensor in Hwf. simpl in Hwf.
  unfold flatten_frames, unflatten_frames. simpl.
  destruct (Nat.eqb_spec f 0) as [->|_]; [lia|].
  rewrite Nat.Div0.mod_mul, Nat.div_mul by lia. simpl.
  do 2 f_equal.
  replace (b * f * c * (h * w)) with (b * c * f * (h * w)) by lia.
  apply gather_inverse.
  - lia.
  - intros i Hi. pose proof (swap_src_lt b f c (h * w) i). lia.
  - intros i Hi. apply (swap_src_involutive b). lia.
Qed.

Lemma unflatten_flatten_frames_witness :
  rbind (flatten_frames Toy.numbered) (fun y => unflatten_frames y 3)
  = Ok Toy.numbered.
Proof.
  apply (unflatten_flatten_frames Toy.numbered 2 2 3 1 2).
  - reflexivity.
  - reflexivity.
  - lia.
Defined.

(** C1 as stated fails for a tensor without frames: shape (1, 1, 0, 1, 1).
    Its flattening has shape (0, 1, 1, 1); splitting that batch axis in
    groups of 0 divides by zero. No other unflattening could do better:
    the flattening of a (2, 1, 0, 1, 1) tensor is the same. *)
Lemma unflatten_flatten_frames_no_frame :
  shape Toy.no_frame = [1; 1; 0; 1; 1] /\
  wf_tensor Toy.no_frame /\
  rbind (flatten_frames Toy.no_frame) (fun y => unflatten_frames y 0)
    <> Ok Toy.no_frame /\
  ~ (exists unflatten : Tensor nat -> nat -> result (Tensor nat),
       rbind (flatten_frames Toy.no_frame) (fun y => unflatten y 0)
         = Ok Toy.no_frame /\
       rbind (flatten_frames Toy.no_frame_pair) (fun y => unflatten y 0)
         = Ok Toy.no_frame_pair).
Proof.
  repeat split.
  - discriminate.
  - intros [u [H1 H2]]. cbn in H1, H2. rewrite H1 in H2. discriminate.
Qed.

(** ** Constructors and factory *)

Lemma rbind_Ok {X Y} (m : result X) (k : X -> result Y) y :
  rbind m k = Ok y -> exists x, m = Ok x /\ k x = Ok y.
Proof. destruct m; simpl; [eauto | discriminate]. Qed.

Lemma construct_Ok {X} (init : X -> result unit) (x y : X) :
  construct init x = Ok y -> y = x /\ init x = Ok tt.
Proof.
  unfold construct. destruct (init x) as [[]|e]; simpl; [|discriminate].
  intros E. injection E as <-. now split.
Qed.

Lemma construct_run {X} (init : X -> result unit) (x : X) :
  init x = Ok tt -> construct init x = Ok x.
Proof. intros E. unfold construct. now rewrite E. Qed.

(** A constructor call of [diffusers] that returned, in [E]. *)
Ltac constructed E :=
  let r := fresh "r" in
  let Ec := fresh "Ec" in
  apply rbind_Ok in E as [r [Ec E]];
  apply construct_Ok in Ec as [-> _].

Section ConstructorProofs.
Context {A V MM MK : Type} `{Collaborators A V MM MK}.

Lemma make_downsamplers_Ok (args : BlockArgs MK) ds :
  make_downsamplers args = Ok ds ->
  ds = if add_downsample args
       then Some [mkDownsample2D (out_channels args) true (out_channels args)
                    (downsample_padding args) "op"]
       else None.
Proof.
  unfold make_downsamplers. destruct (add_downsample args); intros E.
  - constructed E. now injection E as <-.
  - now injection E as <-.
Qed.

Lemma make_upsamplers_Ok (args : BlockArgs MK) us :
  make_upsamplers args = Ok us ->
  us = if add_upsample args
       then Some [mkUpsample2D (out_channels args) true (out_channels args)]
       else None.
Proof.
  unfold make_upsamplers. destruct (add_upsample args); intros E.
  - constructed E. now injection E as <-.
  - now injection E as <-.
Qed.

Lemma motion_module_slot_disabled (args : BlockArgs MK) c :
  use_motion_module args = false -> motion_module_slot args c = Ok None.
Proof. intros E. unfold motion_module_slot. now rewrite E. Qed.

Lemma Up_init_loop (args : BlockArgs MK) n : forall a rs ms rs' ms',
  for_result (Up_init_layer args) (seq a n) (rs, ms) = Ok (rs', ms') ->
  map rn_in_channels rs'
  = map rn_in_channels rs ++ map (up_layer_channels args) (seq a n).
Proof.
  induction n as [|n IH]; intros a rs ms rs' ms' E; simpl in E.
  - injection E as <- <-. simpl. now rewrite app_nil_r.
  - apply rbind_Ok in E as [[rs1 ms1] [E1 E2]].
    unfold Up_init_layer in E1. constructed E1.
    apply rbind_Ok in E1 as [mm [_ E1]].
    injection E1 as <- <-. apply IH in E2. rewrite E2.
    rewrite map_app. simpl. now rewrite <- app_assoc.
Qed.

Lemma CrossAttnUp_init_loop (args : BlockArgs MK) n : forall a rs ats ms rs' ats' ms',
  for_result (CrossAttnUp_init_layer args) (seq a n) (rs, ats, ms)
  = Ok (rs', ats', ms') ->
  map rn_in_channels rs'
  = map rn_in_channels rs ++ map (up_layer_channels args) (seq a n).
Proof.
  induction n as [|n IH]; intros a rs ats ms rs' ats' ms' E; simpl in E.
  - injection E as <- <- <-. simpl. now rewrite app_nil_r.
  - apply rbind_Ok in E as [[[rs1 ats1] ms1] [E1 E2]].
    unfold CrossAttnUp_init_layer in E1. constructed E1.
    destruct (dual_cross_attention args); [discriminate|].
    apply rbind_Ok in E1 as [hd [_ E1]]. constructed E1.
    apply rbind_Ok in E1 as [mm [_ E1]].
    injection E1 as <- <- <-. apply IH in E2. rewrite E2.
    rewrite map_app. simpl. now rewrite <- app_assoc.
Qed.

(** The input channel counts of the resnets of a constructed Up block,
    in layer order. *)
Lemma UpBlock_init_channels cross_attn (args : BlockArgs MK) blk :
  UpBlock_init cross_attn args = Ok blk ->
  map rn_in_channels (up_block_resnets blk)
  = map (up_layer_channels args) (range (num_layers args)).
Proof.
  unfold UpBlock_init. destruct cross_attn; intros E.
  - apply rbind_Ok in E as [b [E1 E2]]. injection E2 as <-.
    unfold CrossAttnUpBlock3D_init in E1.
    apply rbind_Ok in E1 as [[[rs ats] ms] [E1 E2]].
    apply rbind_Ok in E2 as [us [_ E2]]. injection E2 as <-.
    now apply CrossAttnUp_init_loop in E1.
  - apply rbind_Ok in E as [b [E1 E2]]. injection E2 as <-.
    unfold UpBlock3D_init in E1.
    apply rbind_Ok in E1 as [[rs ms] [E1 E2]].
    apply rbind_Ok in E2 as [us [_ E2]]. injection E2 as <-.
    now apply Up_init_loop in E1.
Qed.

(** C2: in an Up block built with [num_layers = L >= 1], plain or with
    cross-attention, the resnet of layer [i] is constructed with input
    channel count [resnet_in + skip], where [resnet_in] is
    [prev_output_channel] for [i = 0] and [out_channels] otherwise, and
    [skip] is [in_channels] for [i = L - 1] and [out_channels] otherwise. *)
Theorem up_block_channel_arithmetic (cross_attn : bool) (args : BlockArgs MK)
  (blk : UpBlock MM) (i : nat) :
  UpBlock_init cross_attn args = Ok blk ->
  i < num_layers args ->
  length (up_block_resnets blk) = num_layers args /\
  exists resnet,
    nth_error (up_block_resnets blk) i = Some resnet /\
    rn_in_channels resnet
    = Z.add (if i =? 0 then prev_output_channel args else out_channels args)
            (if i =? num_layers args - 1
             then in_channels args else out_channels args).
Proof.
  intros E Hi. apply UpBlock_init_channels in E.
  assert (Hlen : length (up_block_resnets blk) = num_layers args).
  { apply (f_equal (@length Z)) in E.
    unfold range in E. now rewrite !length_map, length_seq in E. }
  split; [exact Hlen|].
  apply (f_equal (fun l => nth_error l i)) in E.
  rewrite !nth_error_map in E. unfold range in E.
  rewrite (nth_error_nth' (seq 0 (num_layers args)) 0) in E
    by now rewrite length_seq.
  rewrite seq_nth in E by exact Hi. simpl in E.
  destruct (nth_error (up_block_resnets blk) i) as [r|]; [|discriminate].
  exists r. split; [reflexivity|]. injection E as ->.
  unfold up_layer_channels, resnet_in_channels, res_skip_channels.
  f_equal.
  destruct (Nat.eqb_spec i (num_layers args - 1)) as [Ei|Ei];
    destruct (Z.eqb_spec (Z.of_nat i) (Z.of_nat (num_layers args) - 1));
    try reflexivity; lia.
Qed.

(** C3 (amended): for an Up block constructed with [in_channels = 64],
    [out_channels = 128], [prev_output_channel = 256] and three layers,
    the three resnets accept 256+128, 128+128 and 128+64 input channels,
    in layer order: only the last layer's skip uses [in_channels]. *)
Theorem up_block_channels_64_128_256 (cross_attn : bool) (args : BlockArgs MK)
  (blk : UpBlock MM) :
  in_channels args = 64%Z -> out_channels args = 128%Z ->
  prev_output_channel args = 256%Z -> num_layers args = 3 ->
  UpBlock_init cross_attn args = Ok blk ->
  map rn_in_channels (up_block_resnets blk)
  = [256 + 128; 128 + 128; 128 + 64]%Z.
Proof.
  intros Hin Hout Hprev HL E. apply UpBlock_init_channels in E.
  rewrite E, HL. unfold range. simpl.
  unfold up_layer_channels, resnet_in_channels, res_skip_channels.
  rewrite HL, Hin, Hout, Hprev. reflexivity.
Qed.

(** A cross-attention constructor with [dual_cross_attention] set raises
    in its first iteration, once the resnet that is constructed before
    the guard has been constructed: the first resnet of the Mid block,
    the resnet of layer 0 of the other two. An exception of that
    constructor call comes first. *)
Lemma dual_cross_attention_unimplemented (args : BlockArgs MK) :
  dual_cross_attention args = true -> 1 <= num_layers args ->
  UNetMidBlock3DCrossAttn_init args
  = rbind (ResnetBlock2D_init
             (make_resnet args
                (Some (default (Z.min (in_channels args / 4) 32)
                         (resnet_groups args)))
                (in_channels args) (in_channels args)))
      (fun _ => Raise NotImplementedError) /\
  CrossAttnDownBlock3D_init args
  = rbind (ResnetBlock2D_init
             (make_resnet args (resnet_groups args) (in_channels args)
                (out_channels args)))
      (fun _ => Raise NotImplementedError) /\
  CrossAttnUpBlock3D_init args
  = rbind (ResnetBlock2D_init
             (make_resnet args (resnet_groups args) (up_layer_channels args 0)
                (out_channels args)))
      (fun _ => Raise NotImplementedError).
Proof.
  intros Hd HL.
  unfold UNetMidBlock3DCrossAttn_init, CrossAttnDownBlock3D_init,
    CrossAttnUpBlock3D_init, range.
  destruct (num_layers args) as [|n]; [lia|]. simpl.
  unfold Mid_init_layer at 1. unfold CrossAttnDown_init_layer at 1.
  unfold CrossAttnUp_init_layer at 1. rewrite Hd. unfold construct.
  replace (match resnet_groups args with
           | Some g => Some g
           | None => Some (Z.min (in_channels args / 4) 32)
           end)
    with (Some (default (Z.min (in_channels args / 4) 32) (resnet_groups args)))
    by (now destruct (resnet_groups args)).
  split; [|split].
  - now destruct (ResnetBlock2D_init _) as [[]|e].
  - now destruct (ResnetBlock2D_init _) as [[]|e].
  - now destruct (ResnetBlock2D_init _) as [[]|e].
Qed.

End ConstructorProofs.

(** ** The [forward] methods *)

Section ForwardProofs.
Context {A V MM MK : Type} `{Collaborators A V MM MK}.
Abbreviation Py := (@Py A V MM).
Abbreviation store := (@store A V MM).
Abbreviation event := (@event A V MM).
Abbreviation injection_frame := (@injection_frame A V MM).
Abbreviation ADownBlock := (@ADownBlock A MM).
Abbreviation MidBlock := (@MidBlock A MM).
Abbreviation AnyBlock := (@AnyBlock A MM).

(** *** Running a sequence of statements *)

Lemma bind_Ok_inv {X Y} (m : Py X) (k : X -> Py Y) st y st' :
  bind m k st = (Ok y, st') ->
  exists x st1, m st = (Ok x, st1) /\ k x st1 = (Ok y, st').
Proof.
  unfold bind. destruct (m st) as [[x|e] st1]; [eauto | discriminate].
Qed.

Lemma bind_Ok_run {X Y} (m : Py X) (k : X -> Py Y) st x st1 :
  m st = (Ok x, st1) -> bind m k st = k x st1.
Proof. intros E. unfold bind. now rewrite E. Qed.

Lemma bind_Raise_run {X Y} (m : Py X) (k : X -> Py Y) st e st1 :
  m st = (Raise e, st1) -> bind m k st = (Raise e, st1).
Proof. intros E. unfold bind. now rewrite E. Qed.

Lemma bind_assoc {X Y W} (m : Py X) (k1 : X -> Py Y) (k2 : Y -> Py W) st :
  bind (bind m k1) k2 st = bind m (fun x => bind (k1 x) k2) st.
Proof. unfold bind. now destruct (m st) as [[x|e] st1]. Qed.

Lemma bind_ext {X Y} (m : Py X) (k1 k2 : X -> Py Y) st :
  (forall x st1, k1 x st1 = k2 x st1) -> bind m k1 st = bind m k2 st.
Proof. intros E. unfold bind. destruct (m st) as [[x|e] st1]; auto. Qed.

Lemma for_each_app {X S} (body : S -> X -> Py S) xs ys s st :
  for_each body (xs ++ ys) s st
  = bind (for_each body xs s) (for_each body ys) st.
Proof.
  revert s st. induction xs as [|x xs IH]; intros s st; simpl.
  - reflexivity.
  - rewrite bind_assoc. apply bind_ext. intros s1 st1. apply IH.
Qed.

(** *** Computations that leave the dictionaries alone *)

Lemma emits_at_weaken (h : list (gmap string V)) (P Q : event -> Prop) {X} (m : Py X) :
  (forall e, P e -> Q e) -> emits_at h P m -> emits_at h Q m.
Proof.
  intros HPQ Hm st Hst. destruct (Hm st Hst) as [Hh [new [Ht HP]]].
  split; [exact Hh|]. exists new. split; [exact Ht|].
  eapply Forall_impl; eauto.
Qed.

Lemma emits_at_ret (h : list (gmap string V)) (P : event -> Prop) {X} (x : X) :
  emits_at h P (ret x).
Proof. intros st Hst. simpl. split; [exact Hst|]. exists []. now rewrite app_nil_r. Qed.

Lemma emits_at_raise (h : list (gmap string V)) (P : event -> Prop) {X} e :
  emits_at h P (@raise A V MM X e).
Proof. intros st Hst. simpl. split; [exact Hst|]. exists []. now rewrite app_nil_r. Qed.

Lemma emits_at_lift (h : list (gmap string V)) (P : event -> Prop) {X}
  (r : result X) : emits_at h P (lift r).
Proof. intros st Hst. simpl. split; [exact Hst|]. exists []. now rewrite app_nil_r. Qed.

Lemma emits_at_emit (h : list (gmap string V)) (P : event -> Prop) e : P e -> emits_at h P (emit e).
Proof. intros He st Hst. simpl. split; [exact Hst|]. exists [e]. auto. Qed.

Lemma emits_at_bind (h : list (gmap string V)) (P : event -> Prop) {X Y} (m : Py X) (k : X -> Py Y) :
  emits_at h P m -> (forall x, emits_at h P (k x)) -> emits_at h P (bind m k).
Proof.
  intros Hm Hk st Hst. destruct (Hm st Hst) as [Hh [new [Ht HP]]].
  unfold bind. destruct (m st) as [[x|e] st1]; simpl in *.
  - destruct (Hk x st1 Hh) as [Hh2 [new2 [Ht2 HP2]]].
    split; [exact Hh2|]. exists (new ++ new2).
    rewrite Ht2, Ht, app_assoc. split; [reflexivity|]. now apply Forall_app.
  - split; [exact Hh|]. eauto.
Qed.

Lemma emits_at_for_each (h : list (gmap string V)) (P : event -> Prop) {X S} (body : S -> X -> Py S) xs :
  (forall s x, emits_at h P (body s x)) ->
  forall s, emits_at h P (for_each body xs s).
Proof.
  intros Hb. induction xs as [|x xs IH]; intros s; simpl.
  - apply emits_at_ret.
  - apply emits_at_bind; auto.
Qed.

Lemma call_resnet_emits (h : list (gmap string V)) ck mk r x t :
  emits_at h (layer_event h ck mk) (call_resnet r x t).
Proof.
  apply emits_at_bind; [apply emits_at_emit; now split|].
  intros; apply emits_at_lift.
Qed.

Lemma call_downsample_emits (h : list (gmap string V)) ck mk d x :
  emits_at h (layer_event h ck mk) (call_downsample d x).
Proof.
  apply emits_at_bind; [apply emits_at_emit; now split|].
  intros; apply emits_at_lift.
Qed.

Lemma call_upsample_emits (h : list (gmap string V)) ck mk u x size :
  emits_at h (layer_event h ck mk) (call_upsample u x size).
Proof.
  apply emits_at_bind; [apply emits_at_emit; now split|].
  intros; apply emits_at_lift.
Qed.

Lemma call_cat_emits (h : list (gmap string V)) ck mk a b :
  emits_at h (config_event h ck mk) (call_cat a b).
Proof.
  apply emits_at_bind; [now apply emits_at_emit|].
  intros; apply emits_at_lift.
Qed.

Lemma call_attn_emits (h : list (gmap string V)) ck mk a x enc :
  emits_at h (layer_event h ck mk) (call_attn a x enc ck).
Proof.
  intros st Hst. unfold call_attn, bind, deref, emit, lift. simpl.
  split; [exact Hst|]. eexists. split; [reflexivity|].
  constructor; [|constructor]. rewrite Hst. now split.
Qed.

Lemma call_motion_emits (h : list (gmap string V)) ck mk m x temb enc :
  emits_at h (layer_event h ck mk) (call_motion m x temb enc mk).
Proof.
  intros st Hst. unfold call_motion, bind, deref, emit, lift. simpl.
  split; [exact Hst|]. eexists. split; [reflexivity|].
  constructor; [|constructor]. rewrite Hst. now split.
Qed.

Lemma per_frame_emits (h : list (gmap string V)) (P : event -> Prop) F
  (op : Tensor A -> Py (Tensor A)) x :
  (forall y, emits_at h P (op y)) -> emits_at h P (per_frame F op x).
Proof.
  intros Hop. unfold per_frame.
  apply emits_at_bind; [apply emits_at_lift|]. intros y.
  apply emits_at_bind; [apply Hop|]. intros z. apply emits_at_lift.
Qed.

Lemma motion_slot_call_emits (h : list (gmap string V)) ck mk mm x temb enc :
  emits_at h (layer_event h ck mk) (motion_slot_call mm x temb enc mk).
Proof.
  destruct mm; simpl; [apply call_motion_emits | apply emits_at_ret].
Qed.

Ltac emits_step :=
  first
    [ apply emits_at_ret | apply emits_at_raise | apply emits_at_lift
    | apply call_resnet_emits | apply call_attn_emits
    | apply motion_slot_call_emits | apply call_downsample_emits
    | apply call_upsample_emits
    | apply per_frame_emits; intros
    | apply emits_at_for_each; intros
    | apply emits_at_bind; [|intros] ].

Lemma CrossAttnDown_layer_emits (h : list (gmap string V)) attrs F temb tr enc
  ck mk s layer :
  emits_at h (layer_event h ck mk)
    (CrossAttnDown_layer attrs F temb tr enc ck mk s layer).
Proof.
  destruct s as [hs outs], layer as [[r a] m]. unfold CrossAttnDown_layer.
  destruct (training attrs && gradient_checkpointing attrs);
    repeat emits_step.
Qed.

Lemma Down_layer_emits (h : list (gmap string V)) attrs F temb tr enc ck mk s
  layer :
  emits_at h (layer_event h ck mk) (Down_layer attrs F temb tr enc mk s layer).
Proof.
  destruct s as [hs outs], layer as [r m]. unfold Down_layer.
  destruct (training attrs && gradient_checkpointing attrs);
    repeat emits_step.
Qed.

Lemma Mid_layer_emits (h : list (gmap string V)) F temb tr enc ck mk x layer :
  emits_at h (layer_event h ck mk) (Mid_layer F temb tr enc ck mk x layer).
Proof.
  destruct layer as [[a r] m]. unfold Mid_layer. repeat emits_step.
Qed.

Lemma down_tail_emits (h : list (gmap string V)) ck mk F ds s :
  emits_at h (layer_event h ck mk) (down_tail F ds s).
Proof.
  destruct s as [hs outs]. unfold down_tail, downsample_all.
  destruct ds; repeat emits_step.
Qed.

Lemma up_tail_emits (h : list (gmap string V)) ck mk F us size x :
  emits_at h (layer_event h ck mk) (up_tail F us size x).
Proof.
  unfold up_tail, upsample_all. destruct us; repeat emits_step.
Qed.

Lemma layer_event_config (h : list (gmap string V)) ck mk (e : event) :
  layer_event h ck mk e -> config_event h ck mk e.
Proof. now intros [_ ?]. Qed.

Lemma layer_event_not_cat (h : list (gmap string V)) ck mk (e : event) :
  layer_event h ck mk e -> not_cat e.
Proof. now intros [? _]. Qed.

Lemma pop_and_cat_emits (h : list (gmap string V)) ck mk s :
  emits_at h (config_event h ck mk) (pop_and_cat s).
Proof.
  destruct s as [hs tup]. unfold pop_and_cat.
  apply emits_at_bind; [apply emits_at_lift|]. intros x.
  apply emits_at_bind; [apply call_cat_emits|]. intros y. apply emits_at_ret.
Qed.

Lemma CrossAttnUp_layer_emits (h : list (gmap string V)) attrs F temb tr enc
  ck mk s layer :
  emits_at h (config_event h ck mk)
    (CrossAttnUp_layer attrs F temb tr enc ck mk s layer).
Proof.
  destruct layer as [[r a] m]. unfold CrossAttnUp_layer.
  apply emits_at_bind; [apply pop_and_cat_emits|]. intros [hs tup].
  apply (emits_at_weaken h _ _ _ (layer_event_config h ck mk)).
  destruct (training attrs && gradient_checkpointing attrs);
    repeat emits_step.
Qed.

Lemma Up_layer_emits (h : list (gmap string V)) attrs F temb tr enc ck mk s
  layer :
  emits_at h (config_event h ck mk) (Up_layer attrs F temb tr enc mk s layer).
Proof.
  destruct layer as [r m]. unfold Up_layer.
  apply emits_at_bind; [apply pop_and_cat_emits|]. intros [hs tup].
  apply (emits_at_weaken h _ _ _ (layer_event_config h ck mk)).
  destruct (training attrs && gradient_checkpointing attrs);
    repeat emits_step.
Qed.

(** *** The scale injections *)

Lemma contents_of_app (h : list (gmap string V)) d r :
  match r with KwDict l => l < length h | KwNone => True end ->
  contents_of (h ++ [d]) r = contents_of h r.
Proof.
  destruct r as [|l]; simpl; [reflexivity|]. intros Hl.
  now rewrite lookup_app_l.
Qed.

Lemma contents_of_alter_ne (h : list (gmap string V)) f l r :
  no_alias r (KwDict l) -> contents_of (alter f l h) r = contents_of h r.
Proof.
  destruct r as [|l']; simpl; [reflexivity|]. intros Hl.
  rewrite list_lookup_alter_ne; [reflexivity | congruence].
Qed.

Lemma inject_motion_scale_frame attrs mk :
  injection_frame (inject_motion_scale attrs mk) (motion_lora_scale attrs) mk.
Proof.
  intros st. unfold inject_motion_scale.
  destruct (motion_lora_scale attrs) as [s|].
  - destruct mk as [|l]; simpl.
    + split; [reflexivity|]. intros kw' st1 E. injection E as <- <-. simpl.
      rewrite length_app. split; [lia|]. split; [|discriminate].
      intros r Hr _. apply contents_of_app. exact Hr.
    + split; [reflexivity|]. intros kw' st1 E. injection E as <- <-. simpl.
      rewrite length_alter. split; [lia|]. split; [|discriminate].
      intros r _ Hr. now apply contents_of_alter_ne.
  - simpl. split; [reflexivity|]. intros kw' st1 E. injection E as <- <-.
    auto.
Qed.

Lemma inject_lora_scale_rebind_frame attrs ck :
  injection_frame (inject_lora_scale_rebind attrs ck) (lora_scale attrs) ck.
Proof.
  intros st. unfold inject_lora_scale_rebind.
  destruct (lora_scale attrs) as [s|]; simpl.
  - split; [reflexivity|]. intros kw' st1 E. injection E as <- <-. simpl.
    rewrite length_app. split; [lia|]. split; [|discriminate].
    intros r Hr _. apply contents_of_app. exact Hr.
  - split; [reflexivity|]. intros kw' st1 E. injection E as <- <-. auto.
Qed.

Lemma lora_inplace_frame attrs ck :
  injection_frame (lora_inplace attrs ck) (lora_scale attrs) ck.
Proof.
  intros st. unfold lora_inplace, inject_lora_scale_inplace.
  destruct (lora_scale attrs) as [s|]; simpl.
  - destruct ck as [|l]; simpl.
    + split; [reflexivity|]. discriminate.
    + split; [reflexivity|]. intros kw' st1 E. injection E as <- <-. simpl.
      rewrite length_alter. split; [lia|]. split; [|discriminate].
      intros r _ Hr. now apply contents_of_alter_ne.
  - split; [reflexivity|]. intros kw' st1 E. injection E as <- <-. auto.
Qed.

Lemma lora_unread_frame attrs scale ck :
  injection_frame (lora_unread attrs ck) scale ck.
Proof.
  intros st. simpl. split; [reflexivity|].
  intros kw' st1 E. injection E as <- <-. auto.
Qed.

Lemma kwref_ok_mono (st st1 : store) r :
  length (heap st) <= length (heap st1) -> kwref_ok st r -> kwref_ok st1 r.
Proof. destruct r; simpl; [auto | lia]. Qed.

Lemma no_alias_sym a b : no_alias a b -> no_alias b a.
Proof. destruct a, b; simpl; auto. Qed.

(** The prelude calls no collaborator; when it completes, the frame
    count and the repeated time embedding are those of the arguments,
    and an argument whose scale is absent reaches the layers as the
    caller passed it, provided the two arguments are not the same
    dictionary. *)
Lemma run_prelude_spec lora attrs hs temb ck mk (scale : option V) :
  injection_frame (lora attrs ck) scale ck ->
  forall st,
    trace (snd (run_prelude lora attrs hs temb ck mk st)) = trace st /\
    forall F tr ck' mk' st1,
      run_prelude lora attrs hs temb ck mk st = (Ok (F, tr, ck', mk'), st1) ->
      video_length_of hs = Ok F /\ repeat_temb temb F = Ok tr /\
      length (heap st) <= length (heap st1) /\
      (kwref_ok st mk ->
       motion_lora_scale attrs = None -> (scale = None \/ no_alias mk ck) ->
       (mk', contents_of (heap st1) mk') = (mk, contents_of (heap st) mk)) /\
      (kwref_ok st ck ->
       scale = None -> (motion_lora_scale attrs = None \/ no_alias ck mk) ->
       (ck', contents_of (heap st1) ck') = (ck, contents_of (heap st) ck)).
Proof.
  intros Hlora st. unfold run_prelude, bind, lift.
  destruct (video_length_of hs) as [F|e] eqn:EF;
    [|simpl; split; [reflexivity|discriminate]].
  destruct (repeat_temb temb F) as [tr|e] eqn:Etr;
    [|simpl; split; [reflexivity|discriminate]].
  destruct (Hlora st) as [Ht1 Hf1].
  destruct (lora attrs ck st) as [[ck1|e] st1] eqn:E1;
    [|simpl in *; split; [exact Ht1|discriminate]].
  specialize (Hf1 ck1 st1 eq_refl) as [Hlen1 [Hc1 Hn1]].
  destruct (inject_motion_scale_frame attrs mk st1) as [Ht2 Hf2].
  destruct (inject_motion_scale attrs mk st1) as [[mk2|e] st2] eqn:E2;
    [|simpl in *; split; [congruence|discriminate]].
  specialize (Hf2 mk2 st2 eq_refl) as [Hlen2 [Hc2 Hn2]].
  simpl in *. split; [congruence|].
  intros F' tr' ck' mk' st' E. injection E as <- <- <- <- <-.
  split; [reflexivity|]. split; [exact Etr|]. split; [lia|]. split.
  - intros Hok Hm Ha. destruct (Hn2 Hm) as [-> ->]. f_equal.
    destruct Ha as [Hs|Ha].
    + destruct (Hn1 Hs) as [_ ->]. reflexivity.
    + now apply Hc1.
  - intros Hok Hs Ha. destruct (Hn1 Hs) as [-> ->]. f_equal.
    destruct Ha as [Hm|Ha].
    + destruct (Hn2 Hm) as [_ ->]. reflexivity.
    + now apply Hc2.
Qed.

(** *** Each [forward] is its prelude followed by its layers *)

Lemma bind_ret {X Y} (x : X) (k : X -> Py Y) st : bind (ret x) k st = k x st.
Proof. reflexivity. Qed.

Ltac prelude_eq :=
  repeat first
    [ reflexivity
    | rewrite bind_assoc
    | rewrite bind_ret
    | apply bind_ext; intros ? ? ].

Lemma CrossAttnDownBlock3D_forward_eq (self : CrossAttnDownBlock3D MM) attrs hs
  temb enc ck mk st :
  CrossAttnDownBlock3D_forward self attrs hs temb enc ck mk st
  = bind (run_prelude lora_inplace attrs hs temb
            (default (KwDict CrossAttnDown_cross_default) ck)
            (default (KwDict CrossAttnDown_motion_default) mk))
      (fun '(F, tr, ck', mk') =>
         bind (for_each (CrossAttnDown_layer attrs F temb tr enc ck' mk')
                 (zip3 (cad_resnets self) (cad_attentions self)
                    (cad_motion_modules self)) (hs, []))
              (down_tail F (cad_downsamplers self))) st.
Proof.
  unfold CrossAttnDownBlock3D_forward, run_prelude, lora_inplace.
  prelude_eq.
Qed.

Lemma DownBlock3D_forward_eq (self : DownBlock3D MM) attrs hs temb enc ck mk st :
  DownBlock3D_forward self attrs hs temb enc mk st
  = bind (run_prelude lora_unread attrs hs temb ck
            (default (KwDict Down_motion_default) mk))
      (fun '(F, tr, ck', mk') =>
         bind (for_each (Down_layer attrs F temb tr enc mk')
                 (zip2 (dn_resnets self) (dn_motion_modules self)) (hs, []))
              (down_tail F (dn_downsamplers self))) st.
Proof.
  unfold DownBlock3D_forward, run_prelude, lora_unread. prelude_eq.
Qed.

Lemma CrossAttnUpBlock3D_layers_eq (self : CrossAttnUpBlock3D MM) attrs hs tup
  temb enc ck mk st :
  CrossAttnUpBlock3D_layers self attrs hs tup temb enc ck mk st
  = bind (run_prelude inject_lora_scale_rebind attrs hs temb
            (default KwNone ck)
            (default (KwDict CrossAttnUp_motion_default) mk))
      (fun '(F, tr, ck', mk') =>
         bind (for_each (CrossAttnUp_layer attrs F temb tr enc ck' mk')
                 (zip3 (cau_resnets self) (cau_attentions self)
                    (cau_motion_modules self)) (hs, tup))
              (fun s => ret (F, s))) st.
Proof.
  unfold CrossAttnUpBlock3D_layers, run_prelude. prelude_eq.
Qed.

Lemma UpBlock3D_layers_eq (self : UpBlock3D MM) attrs hs tup temb enc ck mk st :
  UpBlock3D_layers self attrs hs tup temb enc mk st
  = bind (run_prelude lora_unread attrs hs temb ck
            (default (KwDict Up_motion_default) mk))
      (fun '(F, tr, ck', mk') =>
         bind (for_each (Up_layer attrs F temb tr enc mk')
                 (zip2 (up_resnets self) (up_motion_modules self)) (hs, tup))
              (fun s => ret (F, s))) st.
Proof.
  unfold UpBlock3D_layers, run_prelude, lora_unread. prelude_eq.
Qed.

(** *** The output sequence of the Down blocks *)

Section DownRun.
Variable lora : Attrs V -> kwref -> Py kwref.
Variable X : Type.
Variable body :
  nat -> Tensor A -> kwref -> kwref ->
  Tensor A * list (Tensor A) -> X -> Py (Tensor A * list (Tensor A)).
Hypothesis body_appends : forall F tr ck mk h o x st h' o' st',
  body F tr ck mk (h, o) x st = (Ok (h', o'), st') -> o' = o ++ [h'].
Variables (attrs : Attrs V) (hs : Tensor A) (temb : option (Tensor A)).
Variables (ck mk : kwref).

(** A Down [forward] over the layers [layers] and the resamplers [ds]. *)
Local Abbreviation down_run layers ds :=
  (bind (run_prelude lora attrs hs temb ck mk)
     (fun '(F, tr, ck', mk') =>
        bind (for_each (body F tr ck' mk') layers (hs, []))
             (down_tail F ds))).

Lemma down_loop_outs F tr ck' mk' layers : forall h o st h' o' st',
  for_each (body F tr ck' mk') layers (h, o) st = (Ok (h', o'), st') ->
  exists new,
    o' = o ++ new /\ length new = length layers /\
    last (h :: new) = Some h'.
Proof.
  induction layers as [|x xs IH]; intros h o st h' o' st' E; simpl in E.
  - injection E as <- <- <-. exists []. rewrite app_nil_r. now split.
  - apply bind_Ok_inv in E as [[h1 o1] [st1 [E1 E2]]].
    apply body_appends in E1 as ->.
    apply IH in E2 as [new [-> [Hlen Hlast]]].
    exists (h1 :: new). rewrite <- app_assoc.
    split; [reflexivity|]. split; [simpl; now rewrite Hlen|].
    rewrite last_cons_cons. exact Hlast.
Qed.

Lemma run_prelude_Ok_frames st F tr ck' mk' st1 :
  run_prelude lora attrs hs temb ck mk st = (Ok (F, tr, ck', mk'), st1) ->
  video_length_of hs = Ok F.
Proof.
  unfold run_prelude. intros E.
  apply bind_Ok_inv in E as [F0 [st0 [E0 E]]]. unfold lift in E0.
  apply bind_Ok_inv in E as [tr0 [st2 [_ E]]].
  apply bind_Ok_inv in E as [ck0 [st3 [_ E]]].
  apply bind_Ok_inv in E as [mk0 [st4 [_ E]]].
  injection E as <- _ _ _ _. congruence.
Qed.

Lemma down_run_spec layers ds st h outs st' :
  down_run layers ds st = (Ok (h, outs), st') ->
  length outs = length layers + match ds with Some _ => 1 | None => 0 end /\
  (forall i, i < length layers ->
     exists hi sti,
       outs !! i = Some hi /\
       down_run (firstn (S i) layers) None st
       = (Ok (hi, firstn (S i) outs), sti)) /\
  (ds <> None -> last outs = Some h) /\
  (forall d, ds = Some [d] ->
     exists hL stL F,
       video_length_of hs = Ok F /\
       down_run layers None st = (Ok (hL, firstn (length layers) outs), stL) /\
       per_frame F (call_downsample d) hL stL = (Ok h, st')).
Proof.
  intros E.
  apply bind_Ok_inv in E as [[[[F tr] ck'] mk'] [st1 [Ep E]]].
  apply bind_Ok_inv in E as [[hL oL] [st2 [El Et]]].
  destruct (down_loop_outs _ _ _ _ _ _ _ _ _ _ _ El) as [new [Eo [Hlen Hlast]]].
  simpl in Eo. subst oL.
  assert (Hfull : down_run layers None st = (Ok (hL, new), st2)).
  { rewrite (bind_Ok_run _ _ _ _ _ Ep). now rewrite (bind_Ok_run _ _ _ _ _ El). }
  assert (Houts : exists tl, outs = new ++ tl /\
            length tl = match ds with Some _ => 1 | None => 0 end /\
            (ds <> None -> tl = [h])).
  { unfold down_tail in Et. destruct ds as [dsl|].
    - apply bind_Ok_inv in Et as [h1 [st3 [_ Et]]]. injection Et as <- <- _.
      exists [h1]. auto.
    - injection Et as <- <- _. exists []. rewrite app_nil_r.
      split; [reflexivity|]. split; [reflexivity|congruence]. }
  destruct Houts as [tl [-> [Htl Hne]]].
  split; [rewrite length_app; lia|]. split; [|split].
  - intros i Hi.
    rewrite <- (firstn_skipn (S i) layers), for_each_app in El.
    apply bind_Ok_inv in El as [[hi oi] [sti [Ei Er]]].
    destruct (down_loop_outs _ _ _ _ _ _ _ _ _ _ _ Ei) as [newi [Eoi [Hleni Hlasti]]].
    destruct (down_loop_outs _ _ _ _ _ _ _ _ _ _ _ Er) as [newr [Eor _]].
    simpl in Eoi. subst oi. subst new.
    rewrite length_firstn in Hleni.
    assert (Hli : length newi = S i) by lia.
    exists hi, sti. split.
    + rewrite <- !app_assoc, lookup_app_l by lia.
      destruct newi as [|a newi]; [discriminate|].
      rewrite last_cons_cons, last_lookup in Hlasti.
      rewrite Hli in Hlasti. exact Hlasti.
    + rewrite (bind_Ok_run _ _ _ _ _ Ep). rewrite (bind_Ok_run _ _ _ _ _ Ei).
      simpl. rewrite <- !app_assoc.
      now rewrite (take_app_length' newi) by (symmetry; exact Hli).
  - intros Hds. rewrite (Hne Hds). apply last_snoc.
  - intros d ->. exists hL, st2, F.
    split; [exact (run_prelude_Ok_frames _ _ _ _ _ _ Ep)|].
    rewrite <- Hlen, take_app_length. split; [exact Hfull|].
    unfold down_tail, downsample_all in Et. simpl in Et.
    apply bind_Ok_inv in Et as [h1 [st3 [Et1 Et2]]].
    apply bind_Ok_inv in Et1 as [h2 [st4 [Et1 Et3]]].
    injection Et3 as <- <-. injection Et2 as <- _ <-. exact Et1.
Qed.

End DownRun.

Lemma CrossAttnDown_layer_appends attrs temb enc F tr ck mk h o x st h' o' st' :
  CrossAttnDown_layer attrs F temb tr enc ck mk (h, o) x st
  = (Ok (h', o'), st') -> o' = o ++ [h'].
Proof.
  destruct x as [[r a] m]. unfold CrossAttnDown_layer. intros E.
  apply bind_Ok_inv in E as [h1 [st1 [_ E]]]. now injection E as <- <- _.
Qed.

Lemma Down_layer_appends attrs temb enc F tr (ck : kwref) mk h o x st h' o' st' :
  Down_layer attrs F temb tr enc mk (h, o) x st
  = (Ok (h', o'), st') -> o' = o ++ [h'].
Proof.
  destruct x as [r m]. unfold Down_layer. intros E.
  apply bind_Ok_inv in E as [h1 [st1 [_ E]]]. now injection E as <- <- _.
Qed.

(** The constructors build one resnet, one attention operator and one
    motion-module slot per layer. *)
Lemma CrossAttnDown_init_loop_lengths (args : BlockArgs MK) n :
  forall a c rs ats ms c' rs' ats' ms',
  for_result (CrossAttnDown_init_layer args) (seq a n) (c, rs, ats, ms)
  = Ok (c', rs', ats', ms') ->
  length rs' = length rs + n /\ length ats' = length ats + n /\
  length ms' = length ms + n.
Proof.
  induction n as [|n IH]; intros a c rs ats ms c' rs' ats' ms' E; simpl in E.
  - injection E as _ <- <- <-. lia.
  - apply rbind_Ok in E as [[[[c1 rs1] ats1] ms1] [E1 E2]].
    unfold CrossAttnDown_init_layer in E1. constructed E1.
    destruct (dual_cross_attention args); [discriminate|].
    apply rbind_Ok in E1 as [hd [_ E1]]. constructed E1.
    apply rbind_Ok in E1 as [mm [_ E1]].
    injection E1 as _ <- <- <-. apply IH in E2.
    rewrite !length_app in E2. simpl in E2. lia.
Qed.

Lemma Down_init_loop_lengths (args : BlockArgs MK) n :
  forall a c rs ms c' rs' ms',
  for_result (Down_init_layer args) (seq a n) (c, rs, ms) = Ok (c', rs', ms') ->
  length rs' = length rs + n /\ length ms' = length ms + n.
Proof.
  induction n as [|n IH]; intros a c rs ms c' rs' ms' E; simpl in E.
  - injection E as _ <- <-. lia.
  - apply rbind_Ok in E as [[[c1 rs1] ms1] [E1 E2]].
    unfold Down_init_layer in E1. constructed E1.
    apply rbind_Ok in E1 as [mm [_ E1]].
    injection E1 as _ <- <-. apply IH in E2.
    rewrite !length_app in E2. simpl in E2. lia.
Qed.

Lemma CrossAttnUp_init_loop_lengths (args : BlockArgs MK) n :
  forall a rs ats ms rs' ats' ms',
  for_result (CrossAttnUp_init_layer args) (seq a n) (rs, ats, ms)
  = Ok (rs', ats', ms') ->
  length rs' = length rs + n /\ length ats' = length ats + n /\
  length ms' = length ms + n.
Proof.
  induction n as [|n IH]; intros a rs ats ms rs' ats' ms' E; simpl in E.
  - injection E as <- <- <-. lia.
  - apply rbind_Ok in E as [[[rs1 ats1] ms1] [E1 E2]].
    unfold CrossAttnUp_init_layer in E1. constructed E1.
    destruct (dual_cross_attention args); [discriminate|].
    apply rbind_Ok in E1 as [hd [_ E1]]. constructed E1.
    apply rbind_Ok in E1 as [mm [_ E1]].
    injection E1 as <- <- <-. apply IH in E2.
    rewrite !length_app in E2. simpl in E2. lia.
Qed.

Lemma Up_init_loop_lengths (args : BlockArgs MK) n :
  forall a rs ms rs' ms',
  for_result (Up_init_layer args) (seq a n) (rs, ms) = Ok (rs', ms') ->
  length rs' = length rs + n /\ length ms' = length ms + n.
Proof.
  induction n as [|n IH]; intros a rs ms rs' ms' E; simpl in E.
  - injection E as <- <-. lia.
  - apply rbind_Ok in E as [[rs1 ms1] [E1 E2]].
    unfold Up_init_layer in E1. constructed E1.
    apply rbind_Ok in E1 as [mm [_ E1]].
    injection E1 as <- <-. apply IH in E2.
    rewrite !length_app in E2. simpl in E2. lia.
Qed.

Lemma DownBlock_init_layers cross_attn (args : BlockArgs MK) self :
  DownBlock_init cross_attn args = Ok self ->
  down_layer_count self = num_layers args /\
  down_downsamplers self
  = if add_downsample args
    then Some [mkDownsample2D (out_channels args) true (out_channels args)
                 (downsample_padding args) "op"]
    else None.
Proof.
  unfold DownBlock_init. destruct cross_attn; intros E.
  - apply rbind_Ok in E as [b [E1 E2]]. injection E2 as <-.
    unfold CrossAttnDownBlock3D_init in E1.
    apply rbind_Ok in E1 as [[[[c rs] ats] ms] [E1 E2]].
    apply rbind_Ok in E2 as [ds [Eds E2]]. injection E2 as <-.
    apply make_downsamplers_Ok in Eds.
    apply CrossAttnDown_init_loop_lengths in E1. simpl in *.
    unfold zip3. rewrite !length_combine. split; [lia|exact Eds].
  - apply rbind_Ok in E as [b [E1 E2]]. injection E2 as <-.
    unfold DownBlock3D_init in E1.
    apply rbind_Ok in E1 as [[[c rs] ms] [E1 E2]].
    apply rbind_Ok in E2 as [ds [Eds E2]]. injection E2 as <-.
    apply make_downsamplers_Ok in Eds.
    apply Down_init_loop_lengths in E1. simpl in *.
    unfold zip2. rewrite !length_combine. split; [lia|exact Eds].
Qed.

Lemma UpBlock_init_layers cross_attn (args : BlockArgs MK) self :
  UpBlock_init cross_attn args = Ok self ->
  up_layer_count self = num_layers args.
Proof.
  unfold UpBlock_init. destruct cross_attn; intros E.
  - apply rbind_Ok in E as [b [E1 E2]]. injection E2 as <-.
    unfold CrossAttnUpBlock3D_init in E1.
    apply rbind_Ok in E1 as [[[rs ats] ms] [E1 E2]].
    apply rbind_Ok in E2 as [us [_ E2]]. injection E2 as <-.
    apply CrossAttnUp_init_loop_lengths in E1. simpl in *.
    unfold zip3. rewrite !length_combine. lia.
  - apply rbind_Ok in E as [b [E1 E2]]. injection E2 as <-.
    unfold UpBlock3D_init in E1.
    apply rbind_Ok in E1 as [[rs ms] [E1 E2]].
    apply rbind_Ok in E2 as [us [_ E2]]. injection E2 as <-.
    apply Up_init_loop_lengths in E1. simpl in *.
    unfold zip2. rewrite !length_combine. lia.
Qed.

(** The output sequence of any Down block, in terms of its layer list. *)
Lemma DownBlock_forward_outs (self : DownBlock MM) attrs hs temb enc ck mk st
  h outs st' :
  DownBlock_forward self attrs hs temb enc ck mk st = (Ok (h, outs), st') ->
  length outs
  = down_layer_count self
    + match down_downsamplers self with Some _ => 1 | None => 0 end /\
  (forall i, i < down_layer_count self ->
     exists hi sti,
       outs !! i = Some hi /\
       DownBlock_forward (DownBlock_prefix (S i) self) attrs hs temb enc ck mk st
       = (Ok (hi, firstn (S i) outs), sti)) /\
  (down_downsamplers self <> None -> last outs = Some h) /\
  (forall d, down_downsamplers self = Some [d] ->
     exists hL stL F,
       video_length_of hs = Ok F /\
       DownBlock_forward (DownBlock_prefix (down_layer_count self) self)
         attrs hs temb enc ck mk st
       = (Ok (hL, firstn (down_layer_count self) outs), stL) /\
       per_frame F (call_downsample d) hL stL = (Ok h, st')).
Proof.
  destruct self as [b|b]; simpl; intros E.
  - rewrite (DownBlock3D_forward_eq b attrs hs temb enc KwNone) in E.
    apply (down_run_spec lora_unread _
             (fun F tr ck' mk' => Down_layer attrs F temb tr enc mk')) in E;
      [|intros; eapply (Down_layer_appends _ _ _ _ _ KwNone); eassumption].
    destruct E as [E1 [E2 [E3 E4]]]. split; [exact E1|].
    split; [|split; [exact E3|]].
    + intros i Hi. destruct (E2 i Hi) as [hi [sti [Ea Eb]]].
      exists hi, sti. split; [exact Ea|].
      rewrite (DownBlock3D_forward_eq _ attrs hs temb enc KwNone). simpl.
      unfold zip2. rewrite <- combine_firstn. exact Eb.
    + intros d Hd. destruct (E4 d Hd) as [hL [stL [F [Ea [Eb Ec]]]]].
      exists hL, stL, F. split; [exact Ea|]. split; [|exact Ec].
      rewrite (DownBlock3D_forward_eq _ attrs hs temb enc KwNone). simpl.
      unfold zip2. rewrite <- combine_firstn, firstn_all. exact Eb.
  - rewrite CrossAttnDownBlock3D_forward_eq in E.
    apply (down_run_spec lora_inplace _
             (fun F tr ck' mk' => CrossAttnDown_layer attrs F temb tr enc ck' mk'))
      in E; [|intros; eapply CrossAttnDown_layer_appends; eassumption].
    destruct E as [E1 [E2 [E3 E4]]]. split; [exact E1|].
    split; [|split; [exact E3|]].
    + intros i Hi. destruct (E2 i Hi) as [hi [sti [Ea Eb]]].
      exists hi, sti. split; [exact Ea|].
      rewrite CrossAttnDownBlock3D_forward_eq. simpl.
      unfold zip3. rewrite <- !combine_firstn. exact Eb.
    + intros d Hd. destruct (E4 d Hd) as [hL [stL [F [Ea [Eb Ec]]]]].
      exists hL, stL, F. split; [exact Ea|]. split; [|exact Ec].
      rewrite CrossAttnDownBlock3D_forward_eq. simpl.
      unfold zip3. rewrite <- !combine_firstn, firstn_all. exact Eb.
Qed.

(** C5: a Down block built with [num_layers = L], plain or with
    cross-attention, returns an output sequence of [L + 1] entries when
    it has a downsampler and of [L] entries when it has none. Entry [i]
    is the hidden state after layer [i], that is the hidden state the
    block returns when it is cut after layer [i]; with a downsampler the
    last entry is the returned hidden state, which the downsampler
    computes from the hidden state after the last layer. *)
Theorem down_block_output_states (cross_attn : bool) (args : BlockArgs MK)
  (self : DownBlock MM) attrs hs temb enc ck mk (st : store) h outs st' :
  DownBlock_init cross_attn args = Ok self ->
  DownBlock_forward self attrs hs temb enc ck mk st = (Ok (h, outs), st') ->
  length outs = num_layers args + (if add_downsample args then 1 else 0) /\
  (forall i, i < num_layers args ->
     exists hi sti,
       outs !! i = Some hi /\
       DownBlock_forward (DownBlock_prefix (S i) self) attrs hs temb enc ck mk st
       = (Ok (hi, firstn (S i) outs), sti)) /\
  (add_downsample args = true ->
     last outs = Some h /\
     exists d hL stL F,
       down_downsamplers self = Some [d] /\
       video_length_of hs = Ok F /\
       DownBlock_forward (DownBlock_prefix (num_layers args) self)
         attrs hs temb enc ck mk st
       = (Ok (hL, firstn (num_layers args) outs), stL) /\
       per_frame F (call_downsample d) hL stL = (Ok h, st')).
Proof.
  intros Hinit E. apply DownBlock_init_layers in Hinit as [HL Hds].
  apply DownBlock_forward_outs in E as [E1 [E2 [E3 E4]]].
  rewrite HL, Hds in *.
  destruct (add_downsample args).
  - split; [exact E1|]. split; [exact E2|]. intros _.
    split; [now apply E3|].
    destruct (E4 _ eq_refl) as [hL [stL [F [Ea [Eb Ec]]]]]. eauto 10.
  - split; [exact E1|]. split; [exact E2|]. discriminate.
Qed.

(** *** The skip entries the Up blocks consume *)

Lemma tuple_last_snoc {X} (t : list X) e : tuple_last (t ++ [e]) = Ok e.
Proof. unfold tuple_last. now rewrite rev_unit. Qed.

Lemma tuple_init_snoc {X} (t : list X) e : tuple_init (t ++ [e]) = t.
Proof. apply removelast_last. Qed.

Lemma tuple_cases {X} (t : list X) : t = [] \/ exists t0 e, t = t0 ++ [e].
Proof.
  destruct t as [|a t] using rev_ind; [now left | right; eauto].
Qed.

Lemma skips_of_app (tr1 tr2 : list event) :
  skips_of (tr1 ++ tr2) = skips_of tr1 ++ skips_of tr2.
Proof.
  induction tr1 as [|e tr1 IH]; [reflexivity|].
  destruct e; simpl; now rewrite IH.
Qed.

Lemma skips_of_not_cat (tr : list event) : Forall not_cat tr -> skips_of tr = [].
Proof.
  induction 1 as [|e tr He _ IH]; [reflexivity|].
  destruct e; simpl in *; auto. contradiction.
Qed.

Section UpRun.
Variable X : Type.
Variable body :
  Tensor A * list (Tensor A) -> X -> Py (Tensor A * list (Tensor A)).
Variable step : Tensor A -> Tensor A -> X -> Py (Tensor A).
Hypothesis body_eq : forall h t x st,
  body (h, t) x st
  = bind (lift (tuple_last t))
      (fun e => bind (step h e x) (fun h2 => ret (h2, tuple_init t))) st.
Hypothesis step_skips : forall h e x st,
  skips_of (trace (snd (step h e x st))) = skips_of (trace st) ++ [e].

Lemma up_loop_consumes layers : forall h t st h' t' st',
  for_each body layers (h, t) st = (Ok (h', t'), st') ->
  length layers <= length t /\
  t' = firstn (length t - length layers) t /\
  skips_of (trace st')
  = skips_of (trace st) ++ rev (skipn (length t - length layers) t).
Proof.
  induction layers as [|x xs IH]; intros h t st h' t' st' E; simpl in E.
  - injection E as <- <- <-. simpl. rewrite Nat.sub_0_r, firstn_all, skipn_all.
    simpl. rewrite app_nil_r. split; [lia|]. now split.
  - apply bind_Ok_inv in E as [[h1 t1] [st1 [E1 E2]]]. rewrite body_eq in E1.
    destruct (tuple_cases t) as [->|[t0 [e ->]]]; [discriminate|].
    rewrite tuple_init_snoc in E1. unfold bind at 1 in E1. unfold lift in E1.
    rewrite tuple_last_snoc in E1.
    apply bind_Ok_inv in E1 as [h2 [st2 [E1 E3]]]. injection E3 as <- <- <-.
    pose proof (step_skips h e x st) as Hs. rewrite E1 in Hs. simpl in Hs.
    apply IH in E2 as [Hlen [-> Hsk]]. rewrite length_app. simpl.
    replace (length t0 + 1 - S (length xs)) with (length t0 - length xs) by lia.
    split; [lia|]. split.
    + now rewrite take_app_le by lia.
    + rewrite Hsk, Hs, skipn_app, rev_app_distr.
      replace (length t0 - length xs - length t0) with 0 by lia.
      simpl. now rewrite <- app_assoc.
Qed.

Lemma up_loop_reads_suffix layers : forall h suf st,
  length suf = length layers ->
  exists r0 st0, forall pre,
    for_each body layers (h, pre ++ suf) st
    = (match r0 with Ok h' => Ok (h', pre) | Raise e => Raise e end, st0).
Proof.
  induction layers as [|x xs IH]; intros h suf st Hlen.
  - destruct suf; [|discriminate]. exists (Ok h), st. intros pre.
    now rewrite app_nil_r.
  - destruct (tuple_cases suf) as [->|[suf0 [e ->]]]; [discriminate|].
    rewrite length_app in Hlen. simpl in Hlen.
    destruct (step h e x st) as [[h2|err] st1] eqn:E1.
    + destruct (IH h2 suf0 st1) as [r0 [st0 Hr]]; [lia|].
      exists r0, st0. intros pre. simpl.
      unfold bind at 1. rewrite body_eq, app_assoc, tuple_init_snoc.
      unfold bind at 1. unfold lift. rewrite tuple_last_snoc.
      unfold bind at 1. rewrite E1. simpl. apply Hr.
    + exists (Raise err), st1. intros pre. simpl.
      unfold bind at 1. rewrite body_eq, app_assoc, tuple_init_snoc.
      unfold bind at 1. unfold lift. rewrite tuple_last_snoc.
      unfold bind at 1. now rewrite E1.
Qed.

Lemma up_loop_underflow layers h t st s st' :
  length t < length layers ->
  for_each body (firstn (length t) layers) (h, t) st = (Ok s, st') ->
  for_each body layers (h, t) st = (Raise IndexError, st').
Proof.
  intros Hlt E. rewrite <- (firstn_skipn (length t) layers), for_each_app.
  rewrite (bind_Ok_run _ _ _ _ _ E). destruct s as [h' t'].
  apply up_loop_consumes in E as [_ [-> _]].
  rewrite length_firstn.
  replace (length t - length t `min` length layers) with 0 by lia.
  destruct (skipn (length t) layers) as [|x xs] eqn:Es.
  - apply (f_equal (@length X)) in Es. rewrite length_skipn in Es.
    simpl in Es. lia.
  - simpl. unfold bind at 1. now rewrite body_eq.
Qed.

End UpRun.

(** What a layer of an Up block does with the popped entry [e]. *)
Local Abbreviation CrossAttnUp_step attrs F temb tr enc ck mk :=
  (fun (h e : Tensor A) (layer : ResnetBlock2D * Transformer2DModel * option MM) =>
     let '(resnet, attn, motion_module) := layer in
     bind (call_cat h e) (fun hidden_states =>
       if training attrs && gradient_checkpointing attrs
       then raise NotImplementedError
       else
         bind (per_frame F (fun x => call_resnet resnet x tr) hidden_states)
           (fun hidden_states =>
         bind (per_frame F (fun x => call_attn attn x enc ck) hidden_states)
           (fun hidden_states =>
         motion_slot_call motion_module hidden_states temb enc mk)))).

Local Abbreviation Up_step attrs F temb tr enc mk :=
  (fun (h e : Tensor A) (layer : ResnetBlock2D * option MM) =>
     let '(resnet, motion_module) := layer in
     bind (call_cat h e) (fun hidden_states =>
       if training attrs && gradient_checkpointing attrs
       then raise NotImplementedError
       else
         bind (per_frame F (fun x => call_resnet resnet x tr) hidden_states)
           (fun hidden_states =>
         motion_slot_call motion_module hidden_states temb enc mk))).

Lemma CrossAttnUp_layer_eq attrs F temb tr enc ck mk h t x st :
  CrossAttnUp_layer attrs F temb tr enc ck mk (h, t) x st
  = bind (lift (tuple_last t))
      (fun e => bind (CrossAttnUp_step attrs F temb tr enc ck mk h e x)
                  (fun h2 => ret (h2, tuple_init t))) st.
Proof.
  destruct x as [[r a] m]. unfold CrossAttnUp_layer, pop_and_cat. prelude_eq.
Qed.

Lemma Up_layer_eq attrs F temb tr enc mk h t x st :
  Up_layer attrs F temb tr enc mk (h, t) x st
  = bind (lift (tuple_last t))
      (fun e => bind (Up_step attrs F temb tr enc mk h e x)
                  (fun h2 => ret (h2, tuple_init t))) st.
Proof.
  destruct x as [r m]. unfold Up_layer, pop_and_cat. prelude_eq.
Qed.

Lemma cat_then_layer_skips (h e : Tensor A) (k : Tensor A -> Py (Tensor A)) st :
  (forall x, emits_at (heap st) not_cat (k x)) ->
  skips_of (trace (snd (bind (call_cat h e) k st))) = skips_of (trace st) ++ [e].
Proof.
  intros Hk. unfold call_cat. rewrite bind_assoc. unfold bind at 1. simpl.
  unfold bind at 1. unfold lift.
  destruct (torch_cat h e) as [y|err]; simpl.
  - destruct (Hk y (mkStore (heap st) (trace st ++ [CallCat h e])) eq_refl)
      as [_ [new [-> Hnew]]].
    simpl. rewrite skips_of_app, (skips_of_not_cat new Hnew), app_nil_r.
    now rewrite skips_of_app.
  - now rewrite skips_of_app.
Qed.

Lemma CrossAttnUp_step_skips (attrs : Attrs V) F temb tr enc ck mk h e x
  (st : store) :
  skips_of (trace (snd (CrossAttnUp_step attrs F temb tr enc ck mk h e x st)))
  = skips_of (trace st) ++ [e].
Proof.
  destruct x as [[r a] m]. apply cat_then_layer_skips. intros y.
  apply (emits_at_weaken _ _ _ _ (layer_event_not_cat (heap st) ck mk)).
  destruct (training attrs && gradient_checkpointing attrs); repeat emits_step.
Qed.

Lemma Up_step_skips (attrs : Attrs V) F temb tr enc mk h e x (st : store) :
  skips_of (trace (snd (Up_step attrs F temb tr enc mk h e x st)))
  = skips_of (trace st) ++ [e].
Proof.
  destruct x as [r m]. apply cat_then_layer_skips. intros y.
  apply (emits_at_weaken _ _ _ _ (layer_event_not_cat (heap st) KwNone mk)).
  destruct (training attrs && gradient_checkpointing attrs); repeat emits_step.
Qed.

Lemma bind_ext_l {X Y} (m1 m2 : Py X) (k : X -> Py Y) st :
  (forall st1, m1 st1 = m2 st1) -> bind m1 k st = bind m2 k st.
Proof. intros E. unfold bind. now rewrite E. Qed.

Lemma bind_run {X Y} (m : Py X) (k : X -> Py Y) st r st1 :
  m st = (r, st1) ->
  bind m k st = match r with Ok x => k x st1 | Raise e => (Raise e, st1) end.
Proof. intros E. unfold bind. now rewrite E. Qed.

Lemma UpBlock_forward_unfold (self : UpBlock MM) attrs hs tup temb enc size ck
  mk st :
  UpBlock_forward self attrs hs tup temb enc size ck mk st
  = bind (UpBlock_layers self attrs hs tup temb enc ck mk)
      (fun '(F, (h, _)) => up_tail F (up_block_upsamplers self) size h) st.
Proof. destruct self; reflexivity. Qed.

Lemma up_tail_skips F us size (h : Tensor A) (st : store) :
  skips_of (trace (snd (up_tail F us size h st))) = skips_of (trace st).
Proof.
  destruct (up_tail_emits (heap st) KwNone KwNone F us size h st eq_refl)
    as [_ [new [-> Hnew]]].
  rewrite skips_of_app, (skips_of_not_cat new), app_nil_r; [reflexivity|].
  eapply Forall_impl; [exact Hnew|]. apply layer_event_not_cat.
Qed.

(** The layers of an Up block in terms of its layer list: the prelude,
    then one pop per layer. *)
Lemma UpBlock_layers_cases (self : UpBlock MM) attrs hs temb enc ck mk :
  exists (X : Type) (layers : list X) body step lora ck0 mk0,
    length layers = up_layer_count self /\
    (forall k, exists layers_k,
       length layers_k = up_layer_count (UpBlock_prefix k self) /\
       layers_k = firstn k layers /\
       forall tup' st',
         UpBlock_layers (UpBlock_prefix k self) attrs hs tup' temb enc ck mk st'
         = bind (run_prelude lora attrs hs temb ck0 mk0)
             (fun '(F, tr, ck', mk') =>
                bind (for_each (body F tr ck' mk') layers_k (hs, tup'))
                     (fun s => ret (F, s))) st') /\
    (forall tup' st',
       UpBlock_layers self attrs hs tup' temb enc ck mk st'
       = bind (run_prelude lora attrs hs temb ck0 mk0)
           (fun '(F, tr, ck', mk') =>
              bind (for_each (body F tr ck' mk') layers (hs, tup'))
                   (fun s => ret (F, s))) st') /\
    (forall st', trace (snd (run_prelude lora attrs hs temb ck0 mk0 st'))
                 = trace st') /\
    (forall F tr ck' mk' h t x st',
       body F tr ck' mk' (h, t) x st'
       = bind (lift (tuple_last t))
           (fun e => bind (step F tr ck' mk' h e x)
                       (fun h2 => ret (h2, tuple_init t))) st') /\
    (forall F tr ck' mk' h e x st',
       skips_of (trace (snd (step F tr ck' mk' h e x st')))
       = skips_of (trace st') ++ [e]).
Proof.
  destruct self as [b|b].
  - exists _, (zip2 (up_resnets b) (up_motion_modules b)),
      (fun F tr ck' mk' => Up_layer attrs F temb tr enc mk'),
      (fun F tr ck' mk' => Up_step attrs F temb tr enc mk'),
      lora_unread, KwNone, (default (KwDict Up_motion_default) mk).
    split; [reflexivity|]. split; [|split; [|split; [|split]]].
    + intros k. eexists. split; [reflexivity|]. split.
      * simpl. unfold zip2. now rewrite combine_firstn.
      * intros tup' st'. apply UpBlock3D_layers_eq.
    + intros tup' st'. apply UpBlock3D_layers_eq.
    + intros st'. apply (run_prelude_spec _ _ _ _ _ _ None).
      apply lora_unread_frame.
    + intros. apply Up_layer_eq.
    + intros. apply Up_step_skips.
  - exists _, (zip3 (cau_resnets b) (cau_attentions b) (cau_motion_modules b)),
      (fun F tr ck' mk' => CrossAttnUp_layer attrs F temb tr enc ck' mk'),
      (fun F tr ck' mk' => CrossAttnUp_step attrs F temb tr enc ck' mk'),
      inject_lora_scale_rebind, (default KwNone ck),
      (default (KwDict CrossAttnUp_motion_default) mk).
    split; [reflexivity|]. split; [|split; [|split; [|split]]].
    + intros k. eexists. split; [reflexivity|]. split.
      * simpl. unfold zip3. now rewrite !combine_firstn.
      * intros tup' st'. apply CrossAttnUpBlock3D_layers_eq.
    + intros tup' st'. apply CrossAttnUpBlock3D_layers_eq.
    + intros st'. apply (run_prelude_spec _ _ _ _ _ _ (lora_scale attrs)).
      apply inject_lora_scale_rebind_frame.
    + intros. apply CrossAttnUp_layer_eq.
    + intros. apply CrossAttnUp_step_skips.
Qed.

Lemma UpBlock_layers_consumes (self : UpBlock MM) attrs hs tup temb enc ck mk
  (st : store) F h' t' st' :
  UpBlock_layers self attrs hs tup temb enc ck mk st = (Ok (F, (h', t')), st') ->
  up_layer_count self <= length tup /\
  t' = firstn (length tup - up_layer_count self) tup /\
  skips_of (trace st')
  = skips_of (trace st) ++ rev (skipn (length tup - up_layer_count self) tup).
Proof.
  destruct (UpBlock_layers_cases self attrs hs temb enc ck mk)
    as (X & layers & body & step & lora & ck0 & mk0 & HL & _ & Heq & Htr & Hb & Hs).
  rewrite Heq. intros E.
  apply bind_Ok_inv in E as [[[[F0 tr] ck'] mk'] [st1 [Ep E]]].
  apply bind_Ok_inv in E as [[h1 t1] [st2 [El E]]]. injection E as <- <- <- <-.
  pose proof (Htr st) as Ht. rewrite Ep in Ht. simpl in Ht.
  apply (up_loop_consumes _ _ _ (Hb F0 tr ck' mk') (Hs F0 tr ck' mk')) in El.
  rewrite HL, Ht in El. exact El.
Qed.

Lemma UpBlock_forward_consumes (self : UpBlock MM) attrs hs tup temb enc size
  ck mk (st : store) h st' :
  UpBlock_forward self attrs hs tup temb enc size ck mk st = (Ok h, st') ->
  up_layer_count self <= length tup /\
  skips_of (trace st')
  = skips_of (trace st) ++ rev (skipn (length tup - up_layer_count self) tup) /\
  exists F h1 st1,
    UpBlock_layers self attrs hs tup temb enc ck mk st
    = (Ok (F, (h1, firstn (length tup - up_layer_count self) tup)), st1).
Proof.
  rewrite UpBlock_forward_unfold. intros E.
  apply bind_Ok_inv in E as [[F [h1 t1]] [st1 [El E]]].
  pose proof (up_tail_skips F (up_block_upsamplers self) size h1 st1) as Hs.
  rewrite E in Hs. simpl in Hs.
  pose proof (UpBlock_layers_consumes _ _ _ _ _ _ _ _ _ _ _ _ _ El)
    as [Hlen [Ht Hsk]].
  split; [exact Hlen|]. split; [congruence|]. subst t1. eauto.
Qed.

Lemma UpBlock_forward_reads_suffix (self : UpBlock MM) attrs hs temb enc size
  ck mk (st : store) pre pre' suf :
  length suf = up_layer_count self ->
  UpBlock_forward self attrs hs (pre ++ suf) temb enc size ck mk st
  = UpBlock_forward self attrs hs (pre' ++ suf) temb enc size ck mk st.
Proof.
  intros Hlen. rewrite !UpBlock_forward_unfold.
  destruct (UpBlock_layers_cases self attrs hs temb enc ck mk)
    as (X & layers & body & step & lora & ck0 & mk0 & HL & _ & Heq & Htr & Hb & Hs).
  assert (Hrun : forall tup,
    bind (UpBlock_layers self attrs hs tup temb enc ck mk)
      (fun '(F, (h, _)) => up_tail F (up_block_upsamplers self) size h) st
    = bind (run_prelude lora attrs hs temb ck0 mk0)
        (fun '(F, tr, ck', mk') =>
           bind (for_each (body F tr ck' mk') layers (hs, tup))
             (fun s => up_tail F (up_block_upsamplers self) size (fst s))) st).
  { intros tup. rewrite (bind_ext_l _ _ _ _ (Heq tup)), bind_assoc.
    apply bind_ext. intros [[[F tr] ck'] mk'] st1. rewrite bind_assoc.
    apply bind_ext. now intros [h1 t1] st2. }
  rewrite !Hrun. apply bind_ext. intros [[[F tr] ck'] mk'] st1.
  destruct (up_loop_reads_suffix _ _ _ (Hb F tr ck' mk') layers hs suf st1)
    as [r0 [st0 Hr]]; [congruence|].
  rewrite (bind_run _ _ _ _ _ (Hr pre)), (bind_run _ _ _ _ _ (Hr pre')).
  now destruct r0.
Qed.

Lemma UpBlock_forward_underflow (self : UpBlock MM) attrs hs tup temb enc size
  ck mk (st : store) s st_k :
  length tup < up_layer_count self ->
  UpBlock_layers (UpBlock_prefix (length tup) self) attrs hs tup temb enc ck mk st
  = (Ok s, st_k) ->
  UpBlock_forward self attrs hs tup temb enc size ck mk st
  = (Raise IndexError, st_k) /\
  skips_of (trace st_k) = skips_of (trace st) ++ rev tup.
Proof.
  intros Hlt E. split.
  - rewrite UpBlock_forward_unfold.
    destruct (UpBlock_layers_cases self attrs hs temb enc ck mk)
      as (X & layers & body & step & lora & ck0 & mk0 & HL & Hpre & Heq & Htr & Hb & Hs).
    destruct (Hpre (length tup)) as [layers_k [_ [-> Hk]]].
    rewrite Hk in E.
    apply bind_Ok_inv in E as [[[[F tr] ck'] mk'] [st1 [Ep E]]].
    apply bind_Ok_inv in E as [s1 [st2 [El E]]]. injection E as _ <-.
    apply (up_loop_underflow _ _ _ (Hb F tr ck' mk') (Hs F tr ck' mk')) in El;
      [|lia].
    apply bind_Raise_run. rewrite Heq. rewrite (bind_Ok_run _ _ _ _ _ Ep).
    now apply bind_Raise_run.
  - destruct s as [F [h1 t1]].
    apply UpBlock_layers_consumes in E as [_ [_ E]].
    destruct (UpBlock_layers_cases self attrs hs temb enc ck mk)
      as (X & layers & body & step & lora & ck0 & mk0 & HL & Hpre & _).
    destruct (Hpre (length tup)) as [layers_k [Hlk [-> _]]].
    rewrite <- Hlk, length_firstn in E.
    replace (length tup - length tup `min` length layers) with 0 in E by lia.
    exact E.
Qed.



(** *** What the attention operators and motion modules receive *)

Lemma new_events_app (st st' : store) new :
  trace st' = trace st ++ new -> new_events st st' = new.
Proof. intros E. unfold new_events. rewrite E. apply drop_app_length. Qed.

Lemma motion_configs_app (tr1 tr2 : list event) :
  motion_configs (tr1 ++ tr2) = motion_configs tr1 ++ motion_configs tr2.
Proof.
  induction tr1 as [|e tr1 IH]; [reflexivity|].
  destruct e; simpl; now rewrite IH.
Qed.

Lemma attn_configs_app (tr1 tr2 : list event) :
  attn_configs (tr1 ++ tr2) = attn_configs tr1 ++ attn_configs tr2.
Proof.
  induction tr1 as [|e tr1 IH]; [reflexivity|].
  destruct e; simpl; now rewrite IH.
Qed.

Lemma config_event_configs (h : list (gmap string V)) ck mk (new : list event) :
  Forall (config_event h ck mk) new ->
  Forall (eq (mk, contents_of h mk)) (motion_configs new) /\
  Forall (eq (ck, contents_of h ck)) (attn_configs new).
Proof.
  induction 1 as [|e new He _ [IH1 IH2]]; [split; constructor|].
  destruct e; simpl in *; split; auto.
Qed.

Lemma run_prelude_known lora attrs hs temb ck mk F tr {X}
  (rest : nat * Tensor A * kwref * kwref -> Py X) st :
  video_length_of hs = Ok F -> repeat_temb temb F = Ok tr ->
  bind (run_prelude lora attrs hs temb ck mk) rest st
  = bind (lora attrs ck)
      (fun ck' => bind (inject_motion_scale attrs mk)
                    (fun mk' => rest (F, tr, ck', mk'))) st.
Proof.
  intros EF Etr. unfold run_prelude. rewrite bind_assoc.
  unfold bind at 1. unfold lift at 1. rewrite EF.
  rewrite bind_assoc. unfold bind at 1. unfold lift at 1. rewrite Etr.
  prelude_eq.
Qed.

(** After the prelude, a configuration argument whose scale attribute is
    absent is what every operator of its kind receives. *)
Lemma isolation_after_prelude {X} lora attrs hs temb ck mk (scale : option V)
  (rest : nat * Tensor A * kwref * kwref -> Py X) (st : store) :
  injection_frame (lora attrs ck) scale ck ->
  (forall F tr ck' mk' h,
     emits_at h (config_event h ck' mk') (rest (F, tr, ck', mk'))) ->
  kwref_ok st ck -> kwref_ok st mk -> no_alias ck mk ->
  exists new,
    trace (snd (bind (run_prelude lora attrs hs temb ck mk) rest st))
    = trace st ++ new /\
    (motion_lora_scale attrs = None ->
     Forall (eq (mk, contents_of (heap st) mk)) (motion_configs new)) /\
    (scale = None ->
     Forall (eq (ck, contents_of (heap st) ck)) (attn_configs new)).
Proof.
  intros Hlora Hrest Hck Hmk Hna.
  destruct (run_prelude_spec lora attrs hs temb ck mk scale Hlora st)
    as [Ht Hok].
  unfold bind.
  destruct (run_prelude lora attrs hs temb ck mk st)
    as [[[[[F tr] ck'] mk']|e] st1] eqn:Ep; simpl in Ht.
  - destruct (Hok _ _ _ _ _ eq_refl) as [_ [_ [_ [Hm Hc]]]].
    destruct (Hrest F tr ck' mk' (heap st1) st1 eq_refl) as [_ [new [Hn HP]]].
    exists new. rewrite Hn, Ht. split; [reflexivity|].
    apply config_event_configs in HP as [HP1 HP2]. split.
    + intros Hnone. rewrite <- (Hm Hmk Hnone); [exact HP1|].
      right. now apply no_alias_sym.
    + intros Hnone. rewrite <- (Hc Hck Hnone); [exact HP2|]. now right.
  - exists []. simpl. rewrite Ht, app_nil_r. split; [reflexivity|].
    split; constructor.
Qed.

Lemma for_each_then_emits (h : list (gmap string V)) (P : event -> Prop)
  {X S Y} (body : S -> X -> Py S) xs s (k : S -> Py Y) :
  (forall s x, emits_at h P (body s x)) -> (forall s, emits_at h P (k s)) ->
  emits_at h P (bind (for_each body xs s) k).
Proof.
  intros Hb Hk. apply emits_at_bind; [now apply emits_at_for_each | exact Hk].
Qed.

Lemma Down_isolation (self : DownBlock MM) attrs hs temb enc ck mk (st : store) :
  let cross := default (cross_default (ADownBlock self)) ck in
  let motion := default (motion_default (ADownBlock self)) mk in
  kwref_ok st cross -> kwref_ok st motion -> no_alias cross motion ->
  exists new,
    trace (snd (DownBlock_forward self attrs hs temb enc ck mk st))
    = trace st ++ new /\
    (motion_lora_scale attrs = None ->
     Forall (eq (motion, contents_of (heap st) motion)) (motion_configs new)) /\
    (lora_scale attrs = None ->
     Forall (eq (cross, contents_of (heap st) cross)) (attn_configs new)).
Proof.
  destruct self as [b|b]; simpl; intros Hck Hmk Hna.
  - rewrite (DownBlock3D_forward_eq b attrs hs temb enc (default KwNone ck)).
    apply (isolation_after_prelude lora_unread); auto.
    + apply lora_unread_frame.
    + intros F tr ck' mk' h.
      apply (emits_at_weaken _ _ _ _ (layer_event_config h ck' mk')).
      apply for_each_then_emits.
      * intros. apply Down_layer_emits.
      * intros. apply down_tail_emits.
  - rewrite CrossAttnDownBlock3D_forward_eq.
    apply (isolation_after_prelude lora_inplace); auto.
    + apply lora_inplace_frame.
    + intros F tr ck' mk' h.
      apply (emits_at_weaken _ _ _ _ (layer_event_config h ck' mk')).
      apply for_each_then_emits.
      * intros. apply CrossAttnDown_layer_emits.
      * intros. apply down_tail_emits.
Qed.

Lemma Up_isolation (self : UpBlock MM) tup size attrs hs temb enc ck mk
  (st : store) :
  let cross := default KwNone ck in
  let motion := default (motion_default (AnUpBlock self tup size)) mk in
  kwref_ok st cross -> kwref_ok st motion -> no_alias cross motion ->
  exists new,
    trace (snd (UpBlock_forward self attrs hs tup temb enc size ck mk st))
    = trace st ++ new /\
    (motion_lora_scale attrs = None ->
     Forall (eq (motion, contents_of (heap st) motion)) (motion_configs new)) /\
    (lora_scale attrs = None ->
     Forall (eq (cross, contents_of (heap st) cross)) (attn_configs new)).
Proof.
  simpl. intros Hck Hmk Hna. rewrite UpBlock_forward_unfold.
  destruct self as [b|b]; simpl in *.
  - rewrite (bind_ext_l _ _ _ _
               (UpBlock3D_layers_eq b attrs hs tup temb enc (default KwNone ck) mk)).
    rewrite bind_assoc.
    apply (isolation_after_prelude lora_unread); auto.
    + apply lora_unread_frame.
    + intros F tr ck' mk' h.
      apply emits_at_bind; [apply emits_at_bind|].
      * apply emits_at_for_each. intros. apply Up_layer_emits.
      * intros. apply emits_at_ret.
      * intros [F' [h' t']].
        apply (emits_at_weaken _ _ _ _ (layer_event_config h ck' mk')).
        apply up_tail_emits.
  - rewrite (bind_ext_l _ _ _ _
               (CrossAttnUpBlock3D_layers_eq b attrs hs tup temb enc ck mk)).
    rewrite bind_assoc.
    apply (isolation_after_prelude inject_lora_scale_rebind); auto.
    + apply inject_lora_scale_rebind_frame.
    + intros F tr ck' mk' h.
      apply emits_at_bind; [apply emits_at_bind|].
      * apply emits_at_for_each. intros. apply CrossAttnUp_layer_emits.
      * intros. apply emits_at_ret.
      * intros [F' [h' t']].
        apply (emits_at_weaken _ _ _ _ (layer_event_config h ck' mk')).
        apply up_tail_emits.
Qed.

Lemma Mid_isolation (self : UNetMidBlock3DCrossAttn MM) attrs hs temb enc ck mk
  (st : store) :
  let cross := default KwNone ck in
  let motion := default KwNone mk in
  kwref_ok st cross -> kwref_ok st motion -> no_alias cross motion ->
  exists new,
    trace (snd (UNetMidBlock3DCrossAttn_forward self attrs hs temb enc ck mk st))
    = trace st ++ new /\
    (motion_lora_scale attrs = None ->
     Forall (eq (motion, contents_of (heap st) motion)) (motion_configs new)) /\
    (lora_scale attrs = None ->
     Forall (eq (cross, contents_of (heap st) cross)) (attn_configs new)).
Proof.
  simpl. intros Hck Hmk Hna. unfold UNetMidBlock3DCrossAttn_forward.
  assert (Hnil : forall (st0 : store),
            exists new : list event, trace st0 = trace st0 ++ new /\
              (motion_lora_scale attrs = None ->
               Forall (eq (default KwNone mk,
                           contents_of (heap st) (default KwNone mk)))
                 (motion_configs new)) /\
              (lora_scale attrs = None ->
               Forall (eq (default KwNone ck,
                           contents_of (heap st) (default KwNone ck)))
                 (attn_configs new))).
  { intros st0. exists []. rewrite app_nil_r. repeat split; constructor. }
  unfold bind at 1. unfold lift at 1.
  destruct (video_length_of hs) as [F|e] eqn:EF; [|apply Hnil].
  unfold bind at 1. unfold lift at 1.
  destruct (repeat_temb temb F) as [tr|e] eqn:Etr; [|apply Hnil].
  set (first_resnet := fun x =>
         bind (lift (list_first (mid_resnets self)))
           (fun resnet0 => call_resnet resnet0 x tr)).
  assert (Hfirst : forall y,
            emits_at (heap st)
              (layer_event (heap st) (default KwNone ck) (default KwNone mk))
              (first_resnet y)).
  { intros y. apply emits_at_bind; [apply emits_at_lift|].
    intros r0. apply call_resnet_emits. }
  destruct (per_frame_emits (heap st)
              (layer_event (heap st) (default KwNone ck) (default KwNone mk)) F
              first_resnet hs Hfirst st eq_refl)
    as [Hh [new_a [Ha HPa]]].
  unfold bind at 1.
  destruct (per_frame F first_resnet hs st) as [[hs1|e] st_a]; simpl in Hh, Ha.
  - rewrite <- (run_prelude_known inject_lora_scale_rebind attrs hs temb
                  (default KwNone ck) (default KwNone mk) F tr
                  (fun '(F', tr', ck', mk') =>
                     for_each (Mid_layer F' temb tr' enc ck' mk')
                       (zip3 (mid_attentions self) (tl (mid_resnets self))
                          (mid_motion_modules self)) hs1) st_a EF Etr).
    destruct (isolation_after_prelude inject_lora_scale_rebind attrs hs temb
                (default KwNone ck) (default KwNone mk) (lora_scale attrs)
                (fun '(F', tr', ck', mk') =>
                     for_each (Mid_layer F' temb tr' enc ck' mk')
                       (zip3 (mid_attentions self) (tl (mid_resnets self))
                          (mid_motion_modules self)) hs1) st_a)
      as [new_b [Hb [Hm Hc]]].
    + apply inject_lora_scale_rebind_frame.
    + intros F' tr' ck' mk' h.
      apply (emits_at_weaken _ _ _ _ (layer_event_config h ck' mk')).
      apply emits_at_for_each. intros. apply Mid_layer_emits.
    + unfold kwref_ok in *. now rewrite Hh.
    + unfold kwref_ok in *. now rewrite Hh.
    + exact Hna.
    + exists (new_a ++ new_b). rewrite Hb, Ha, app_assoc.
      split; [reflexivity|].
      pose proof (Forall_impl _ _ _ HPa (layer_event_config _ _ _)) as HPc.
      apply config_event_configs in HPc as [HPa1 HPa2]. rewrite Hh in Hm, Hc.
      rewrite motion_configs_app, attn_configs_app. split; intros Hn.
      * apply Forall_app. split; [exact HPa1 | now apply Hm].
      * apply Forall_app. split; [exact HPa2 | now apply Hc].
  - simpl. exists new_a. split; [exact Ha|].
    pose proof (Forall_impl _ _ _ HPa (layer_event_config _ _ _)) as HPc.
    apply config_event_configs in HPc as [HPa1 HPa2]. auto.
Qed.

(** C8 (amended): on a [forward] call of any block whose two
    configuration arguments are not one and the same dictionary object,
    a motion module receives the motion configuration argument exactly
    as the caller passed it whenever [motion_lora_scale] is absent,
    whether or not [lora_scale] is set, and an attention operator
    receives the cross-attention configuration argument exactly as the
    caller passed it whenever [lora_scale] is absent, whether or not
    [motion_lora_scale] is set. *)
Theorem adapter_scale_isolation (self : AnyBlock) attrs hs temb enc ck mk
  (st : store) :
  kwref_ok st (default (cross_default self) ck) ->
  kwref_ok st (default (motion_default self) mk) ->
  no_alias (default (cross_default self) ck) (default (motion_default self) mk) ->
  scale_isolation attrs
    (as_passed st (cross_default self) ck)
    (as_passed st (motion_default self) mk)
    (new_events st (store_after self attrs hs temb enc ck mk st)).
Proof.
  intros Hck Hmk Hna. unfold scale_isolation, as_passed.
  assert (exists new,
            trace (store_after self attrs hs temb enc ck mk st)
            = trace st ++ new /\
            (motion_lora_scale attrs = None ->
             Forall (eq (default (motion_default self) mk,
                         contents_of (heap st) (default (motion_default self) mk)))
               (motion_configs new)) /\
            (lora_scale attrs = None ->
             Forall (eq (default (cross_default self) ck,
                         contents_of (heap st) (default (cross_default self) ck)))
               (attn_configs new))) as [new [Ht [Hm Hc]]].
  { destruct self as [b|b|b tup size].
    - now apply Mid_isolation.
    - now apply Down_isolation.
    - now apply Up_isolation. }
  rewrite (new_events_app _ _ _ Ht). auto.
Qed.

(** *** The unimplemented recomputation path *)

Lemma for_each_cons {X S} (body : S -> X -> Py S) x xs s st :
  for_each body (x :: xs) s st = bind (body s x) (for_each body xs) st.
Proof. reflexivity. Qed.

Lemma inject_motion_scale_Ok attrs mk (st : store) :
  exists mk' st', inject_motion_scale attrs mk st = (Ok mk', st').
Proof.
  unfold inject_motion_scale. destruct (motion_lora_scale attrs); [|simpl; eauto].
  destruct mk; simpl; eauto.
Qed.

Lemma prelude_then_raise {X} lora attrs hs temb ck mk (scale : option V)
  (rest : nat * Tensor A * kwref * kwref -> Py X) (st : store) F tr extra :
  injection_frame (lora attrs ck) scale ck ->
  (exists ck' st1, lora attrs ck st = (Ok ck', st1)) ->
  video_length_of hs = Ok F -> repeat_temb temb F = Ok tr ->
  (forall ck' mk' st2, exists st3,
     rest (F, tr, ck', mk') st2 = (Raise NotImplementedError, st3) /\
     trace st3 = trace st2 ++ extra) ->
  exists st',
    bind (run_prelude lora attrs hs temb ck mk) rest st
    = (Raise NotImplementedError, st') /\
    trace st' = trace st ++ extra.
Proof.
  intros Hlora [ck' [st1 E1]] EF Etr Hrest.
  rewrite (run_prelude_known _ _ _ _ _ _ F tr) by assumption.
  rewrite (bind_Ok_run _ _ _ _ _ E1).
  destruct (inject_motion_scale_Ok attrs mk st1) as [mk' [st2 E2]].
  rewrite (bind_Ok_run _ _ _ _ _ E2).
  destruct (Hrest ck' mk' st2) as [st3 [E3 Ht3]]. exists st3.
  split; [exact E3|]. rewrite Ht3. f_equal.
  destruct (Hlora st) as [Ht1 _]. rewrite E1 in Ht1. simpl in Ht1.
  destruct (inject_motion_scale_frame attrs mk st1) as [Ht2 _].
  rewrite E2 in Ht2. simpl in Ht2. congruence.
Qed.

Lemma lora_inplace_Ok attrs ck (st : store) :
  (lora_scale attrs <> None -> ck <> KwNone) ->
  exists ck' st1, lora_inplace attrs ck st = (Ok ck', st1).
Proof.
  intros Hck. unfold lora_inplace, inject_lora_scale_inplace.
  destruct (lora_scale attrs) as [s|]; [|simpl; eauto].
  destruct ck as [|l]; [exfalso; now apply Hck|]. simpl. eauto.
Qed.

Lemma inject_lora_scale_rebind_Ok attrs ck (st : store) :
  exists ck' st1, inject_lora_scale_rebind attrs ck st = (Ok ck', st1).
Proof.
  unfold inject_lora_scale_rebind. destruct (lora_scale attrs); simpl; eauto.
Qed.

Lemma DownBlock_forward_checkpointing (self : DownBlock MM) attrs hs temb enc
  ck mk (st : store) F tr :
  1 <= down_layer_count self ->
  training attrs = true -> gradient_checkpointing attrs = true ->
  video_length_of hs = Ok F -> repeat_temb temb F = Ok tr ->
  (forall b, self = IsCrossAttnDownBlock3D b ->
             lora_scale attrs <> None -> ck <> Some KwNone) ->
  exists st',
    DownBlock_forward self attrs hs temb enc ck mk st
    = (Raise NotImplementedError, st') /\
    trace st' = trace st.
Proof.
  intros HL Htrain Hgc EF Etr Hck.
  rewrite <- (app_nil_r (trace st)).
  destruct self as [b|b]; simpl in *.
  - rewrite (DownBlock3D_forward_eq b attrs hs temb enc KwNone).
    apply (prelude_then_raise lora_unread _ _ _ _ _ None _ _ F tr);
      [apply lora_unread_frame | unfold lora_unread, ret; eauto | auto..].
    intros ck' mk' st2. exists st2. rewrite app_nil_r. split; [|reflexivity].
    destruct (zip2 (dn_resnets b) (dn_motion_modules b)) as [|[r m] xs];
      [simpl in HL; lia|].
    simpl. unfold bind at 1. unfold Down_layer. rewrite Htrain, Hgc.
    reflexivity.
  - rewrite CrossAttnDownBlock3D_forward_eq.
    apply (prelude_then_raise lora_inplace _ _ _ _ _ (lora_scale attrs) _ _ F tr);
      [apply lora_inplace_frame | | auto..].
    { apply lora_inplace_Ok. intros Hl.
      specialize (Hck b eq_refl Hl). destruct ck as [[|l]|]; simpl; congruence. }
    intros ck' mk' st2. exists st2. rewrite app_nil_r. split; [|reflexivity].
    destruct (zip3 (cad_resnets b) (cad_attentions b) (cad_motion_modules b))
      as [|[[r a] m] xs]; [simpl in HL; lia|].
    simpl. unfold bind at 1. unfold CrossAttnDown_layer. rewrite Htrain, Hgc.
    reflexivity.
Qed.

Lemma UpBlock_forward_checkpointing (self : UpBlock MM) attrs hs tup e temb enc
  size ck mk (st : store) F tr y :
  1 <= up_layer_count self ->
  training attrs = true -> gradient_checkpointing attrs = true ->
  video_length_of hs = Ok F -> repeat_temb temb F = Ok tr ->
  torch_cat hs e = Ok y ->
  exists st',
    UpBlock_forward self attrs hs (tup ++ [e]) temb enc size ck mk st
    = (Raise NotImplementedError, st') /\
    trace st' = trace st ++ [CallCat hs e].
Proof.
  intros HL Htrain Hgc EF Etr Hcat. rewrite UpBlock_forward_unfold.
  destruct self as [b|b]; simpl in *.
  - rewrite (bind_ext_l _ _ _ _
               (UpBlock3D_layers_eq b attrs hs (tup ++ [e]) temb enc KwNone mk)).
    rewrite bind_assoc.
    apply (prelude_then_raise lora_unread _ _ _ _ _ None _ _ F tr);
      [apply lora_unread_frame | unfold lora_unread, ret; eauto | auto..].
    intros ck' mk' st2.
    exists (mkStore (heap st2) (trace st2 ++ [CallCat hs e])).
    split; [|reflexivity].
    destruct (zip2 (up_resnets b) (up_motion_modules b)) as [|[r m] xs];
      [simpl in HL; lia|].
    apply bind_Raise_run. apply bind_Raise_run. rewrite for_each_cons.
    apply bind_Raise_run.
    rewrite Up_layer_eq. unfold bind at 1. unfold lift at 1.
    rewrite tuple_last_snoc. apply bind_Raise_run.
    unfold call_cat. rewrite bind_assoc. unfold bind at 1. simpl.
    unfold bind at 1. unfold lift at 1. rewrite Hcat, Htrain, Hgc. reflexivity.
  - rewrite (bind_ext_l _ _ _ _
               (CrossAttnUpBlock3D_layers_eq b attrs hs (tup ++ [e]) temb enc ck mk)).
    rewrite bind_assoc.
    apply (prelude_then_raise inject_lora_scale_rebind _ _ _ _ _
             (lora_scale attrs) _ _ F tr);
      [apply inject_lora_scale_rebind_frame
      | apply inject_lora_scale_rebind_Ok | auto..].
    intros ck' mk' st2.
    exists (mkStore (heap st2) (trace st2 ++ [CallCat hs e])).
    split; [|reflexivity].
    destruct (zip3 (cau_resnets b) (cau_attentions b) (cau_motion_modules b))
      as [|[[r a] m] xs]; [simpl in HL; lia|].
    apply bind_Raise_run. apply bind_Raise_run. rewrite for_each_cons.
    apply bind_Raise_run.
    rewrite CrossAttnUp_layer_eq. unfold bind at 1. unfold lift at 1.
    rewrite tuple_last_snoc. apply bind_Raise_run.
    unfold call_cat. rewrite bind_assoc. unfold bind at 1. simpl.
    unfold bind at 1. unfold lift at 1. rewrite Hcat, Htrain, Hgc. reflexivity.
Qed.


(** *** Default dictionaries keep what a call stored in them *)

Lemma rest_keeps_heap {X} (m : Py X) (st : store) :
  emits_at (heap st) (fun _ => True) m -> heap (snd (m st)) = heap st.
Proof. intros Hm. now destruct (Hm st eq_refl). Qed.

Lemma emits_at_any (h : list (gmap string V)) (P : event -> Prop) {X}
  (m : Py X) : emits_at h P m -> emits_at h (fun _ => True) m.
Proof. apply emits_at_weaken. auto. Qed.

Lemma CrossAttnDown_rest_emits (b : CrossAttnDownBlock3D MM) attrs hs temb enc
  F tr ck' mk' h :
  emits_at h (layer_event h ck' mk')
    (bind (for_each (CrossAttnDown_layer attrs F temb tr enc ck' mk')
             (zip3 (cad_resnets b) (cad_attentions b) (cad_motion_modules b))
             (hs, []))
          (down_tail F (cad_downsamplers b))).
Proof.
  apply for_each_then_emits; intros.
  - apply CrossAttnDown_layer_emits.
  - apply down_tail_emits.
Qed.

Lemma Down_rest_emits (b : DownBlock3D MM) attrs hs temb enc F tr ck' mk' h :
  emits_at h (layer_event h ck' mk')
    (bind (for_each (Down_layer attrs F temb tr enc mk')
             (zip2 (dn_resnets b) (dn_motion_modules b)) (hs, []))
          (down_tail F (dn_downsamplers b))).
Proof.
  apply for_each_then_emits; intros.
  - apply Down_layer_emits.
  - apply down_tail_emits.
Qed.

(** A call of CrossAttnDownBlock3D with [lora_scale] set and both
    keyword arguments omitted leaves the scale in the default
    dictionary of [cross_attention_kwargs]. *)
Lemma lora_scale_stays_in_default (b : CrossAttnDownBlock3D MM) attrs hs temb
  enc (st : store) F tr s :
  store_ok st -> lora_scale attrs = Some s ->
  video_length_of hs = Ok F -> repeat_temb temb F = Ok tr ->
  let st' := snd (CrossAttnDownBlock3D_forward b attrs hs temb enc None None st) in
  store_ok st' /\
  exists d,
    contents_of (heap st') (KwDict CrossAttnDown_cross_default) = Some d /\
    d !! "scale" = Some s.
Proof.
  intros Hok Hs EF Etr. cbv zeta.
  rewrite CrossAttnDownBlock3D_forward_eq, (run_prelude_known _ _ _ _ _ _ F tr)
    by assumption.
  simpl default.
  assert (E1 : lora_inplace attrs (KwDict CrossAttnDown_cross_default) st
               = (Ok (KwDict CrossAttnDown_cross_default),
                  mkStore (alter (insert "scale" s) CrossAttnDown_cross_default
                             (heap st)) (trace st))).
  { unfold lora_inplace, inject_lora_scale_inplace. now rewrite Hs. }
  rewrite (bind_Ok_run _ _ _ _ _ E1).
  set (st1 := mkStore _ _).
  destruct (inject_motion_scale_Ok attrs (KwDict CrossAttnDown_motion_default) st1)
    as [mk' [st2 E2]].
  rewrite (bind_Ok_run _ _ _ _ _ E2).
  destruct (inject_motion_scale_frame attrs (KwDict CrossAttnDown_motion_default)
              st1) as [_ Hf].
  destruct (Hf _ _ E2) as [Hlen [Hc _]].
  pose proof (rest_keeps_heap _ st2
                (emits_at_any _ _ _
                   (CrossAttnDown_rest_emits b attrs hs temb enc F tr
                      (KwDict CrossAttnDown_cross_default) mk' (heap st2))))
    as Hh.
  unfold store_ok in *. rewrite !Hh. subst st1. simpl in Hlen. rewrite length_alter in Hlen.
  split; [lia|].
  rewrite (Hc (KwDict CrossAttnDown_cross_default)).
  - simpl. rewrite list_lookup_alter_eq.
    destruct (lookup_lt_is_Some_2 (heap st) CrossAttnDown_cross_default)
      as [d0 Hd0]; [unfold CrossAttnDown_cross_default; lia|].
    rewrite Hd0. simpl. eexists. split; [reflexivity|]. apply lookup_insert_eq.
  - simpl. rewrite length_alter. unfold CrossAttnDown_cross_default. lia.
  - simpl. discriminate.
Qed.

(** A call of a Down block with [motion_lora_scale] set and both keyword
    arguments omitted leaves the scale in the default dictionary of
    [motion_cross_attention_kwargs]. *)
Lemma motion_scale_stays_in_default (self : DownBlock MM) attrs hs temb enc
  (st : store) F tr s :
  store_ok st -> motion_lora_scale attrs = Some s ->
  video_length_of hs = Ok F -> repeat_temb temb F = Ok tr ->
  let st' := snd (DownBlock_forward self attrs hs temb enc None None st) in
  store_ok st' /\
  exists d,
    contents_of (heap st') (motion_default (ADownBlock self)) = Some d /\
    d !! "scale" = Some s.
Proof.
  intros Hok Hs EF Etr. cbv zeta.
  assert (Hm : forall l (st1 : store),
    l < length (heap st1) ->
    exists st2,
      inject_motion_scale attrs (KwDict l) st1 = (Ok (KwDict l), st2) /\
      length (heap st2) = length (heap st1) /\
      exists d, contents_of (heap st2) (KwDict l) = Some d /\
                d !! "scale" = Some s).
  { intros l st1 Hl. unfold inject_motion_scale. rewrite Hs. simpl.
    unfold bind, dict_update, ret. simpl. eexists. split; [reflexivity|].
    simpl. rewrite length_alter. split; [reflexivity|].
    rewrite list_lookup_alter_eq.
    destruct (lookup_lt_is_Some_2 (heap st1) l Hl) as [d0 Hd0].
    rewrite Hd0. simpl. eexists. split; [reflexivity|].
    apply lookup_union_Some_l, lookup_singleton_eq. }
  unfold store_ok in *. destruct self as [b|b]; cbn [DownBlock_forward motion_default].
  - rewrite (DownBlock3D_forward_eq b attrs hs temb enc KwNone),
      (run_prelude_known _ _ _ _ _ _ F tr) by assumption.
    unfold lora_unread. rewrite bind_ret. simpl default.
    destruct (Hm Down_motion_default st) as [st2 [E2 [Hlen Hd]]];
      [unfold Down_motion_default; lia|].
    rewrite (bind_Ok_run _ _ _ _ _ E2).
    pose proof (rest_keeps_heap _ st2
                  (emits_at_any _ _ _
                     (Down_rest_emits b attrs hs temb enc F tr KwNone
                        (KwDict Down_motion_default) (heap st2)))) as Hh.
    rewrite !Hh. split; [lia | exact Hd].
  - rewrite CrossAttnDownBlock3D_forward_eq,
      (run_prelude_known _ _ _ _ _ _ F tr) by assumption.
    simpl default.
    destruct (lora_inplace_Ok attrs (KwDict CrossAttnDown_cross_default) st)
      as [ck' [st1 E1]]; [discriminate|].
    rewrite (bind_Ok_run _ _ _ _ _ E1).
    destruct (lora_inplace_frame attrs (KwDict CrossAttnDown_cross_default) st)
      as [_ Hf].
    destruct (Hf _ _ E1) as [Hlen1 _].
    destruct (Hm CrossAttnDown_motion_default st1) as [st2 [E2 [Hlen Hd]]];
      [unfold CrossAttnDown_motion_default; lia|].
    rewrite (bind_Ok_run _ _ _ _ _ E2).
    pose proof (rest_keeps_heap _ st2
                  (emits_at_any _ _ _
                     (CrossAttnDown_rest_emits b attrs hs temb enc F tr ck'
                        (KwDict CrossAttnDown_motion_default) (heap st2))))
      as Hh.
    rewrite !Hh. split; [lia | exact Hd].
Qed.

End ForwardProofs.

(** ** The factory's outcomes *)

Section FactoryProofs.
Context {A V MM MK : Type} `{Collaborators A V MM MK}.


End FactoryProofs.

(** ** Shared default dictionaries *)



(** ** The properties at concrete blocks *)

Lemma up_block_channel_arithmetic_witness :
  length (up_block_resnets Toy.up_64) = 3 /\
  exists resnet,
    nth_error (up_block_resnets Toy.up_64) 2 = Some resnet /\
    rn_in_channels resnet = (128 + 64)%Z.
Proof.
  apply (up_block_channel_arithmetic false Toy.up_args_64 Toy.up_64 2).
  - reflexivity.
  - simpl. lia.
Defined.

Lemma up_block_channels_64_128_256_witness :
  map rn_in_channels (up_block_resnets Toy.up_64) = [384; 256; 192]%Z.
Proof.
  apply (up_block_channels_64_128_256 false Toy.up_args_64 Toy.up_64);
    reflexivity.
Defined.

(** C3 as stated fails: the first resnet of that block accepts
    256+128 = 384 channels, not 256+64 = 320, because only the last
    layer's skip uses [in_channels]. *)
Lemma up_block_channels_not_320 :
  in_channels Toy.up_args_64 = 64%Z /\
  out_channels Toy.up_args_64 = 128%Z /\
  prev_output_channel Toy.up_args_64 = 256%Z /\
  num_layers Toy.up_args_64 = 3 /\
  UpBlock_init false Toy.up_args_64 = Ok Toy.up_64 /\
  map rn_in_channels (up_block_resnets Toy.up_64)
  <> [256 + 64; 128 + 128; 128 + 64]%Z /\
  (forall blk, UpBlock_init true Toy.up_args_64 = Ok blk ->
     map rn_in_channels (up_block_resnets blk)
     <> [256 + 64; 128 + 128; 128 + 64]%Z).
Proof.
  repeat split.
  - vm_compute. discriminate.
  - intros blk E. vm_compute in E. injection E as <-. vm_compute. discriminate.
Qed.


Lemma down_block_output_states_witness :
  length Toy.down_outs = 3 /\ last Toy.down_outs = Some Toy.down_hidden.
Proof.
  destruct (down_block_output_states true Toy.down_args Toy.cross_down
              Toy.eval_attrs Toy.latent (Some Toy.temb) None None None
              Toy.fresh_store Toy.down_hidden Toy.down_outs Toy.down_store)
    as [Hlen [_ Hlast]].
  - reflexivity.
  - vm_compute. reflexivity.
  - split; [exact Hlen|]. now apply Hlast.
Defined.






Lemma adapter_scale_isolation_witness :
  scale_isolation Toy.lora_attrs
    (as_passed Toy.fresh_store (KwDict CrossAttnDown_cross_default) None)
    (as_passed Toy.fresh_store (KwDict CrossAttnDown_motion_default) None)
    (new_events Toy.fresh_store
       (store_after (ADownBlock Toy.cross_down) Toy.lora_attrs Toy.latent
          (Some Toy.temb) None None None Toy.fresh_store)).
Proof.
  apply (adapter_scale_isolation (ADownBlock Toy.cross_down) Toy.lora_attrs
           Toy.latent (Some Toy.temb) None None None Toy.fresh_store).
  - simpl. unfold CrossAttnDown_cross_default. lia.
  - simpl. unfold CrossAttnDown_motion_default. lia.
  - simpl. discriminate.
Defined.

(** C8 as stated fails when the caller passes one dictionary as both
    configuration arguments. With only the motion scale set, the
    attention operators of CrossAttnDownBlock3D receive that dictionary
    with the motion scale in it; with only the spatial scale set, its
    motion modules receive it with the spatial scale in it. *)
Lemma adapter_scale_isolation_fails_for_one_dictionary :
  let d := Some (KwDict 5) in
  ~ scale_isolation Toy.motion_attrs
      (as_passed Toy.caller_store (KwDict CrossAttnDown_cross_default) d)
      (as_passed Toy.caller_store (KwDict CrossAttnDown_motion_default) d)
      (new_events Toy.caller_store
         (store_after (ADownBlock Toy.cross_down) Toy.motion_attrs Toy.latent
            (Some Toy.temb) None d d Toy.caller_store)) /\
  ~ scale_isolation Toy.lora_attrs
      (as_passed Toy.caller_store (KwDict CrossAttnDown_cross_default) d)
      (as_passed Toy.caller_store (KwDict CrossAttnDown_motion_default) d)
      (new_events Toy.caller_store
         (store_after (ADownBlock Toy.cross_down) Toy.lora_attrs Toy.latent
            (Some Toy.temb) None d d Toy.caller_store)).
Proof.
  split.
  - intros [_ Hc]. specialize (Hc eq_refl). vm_compute in Hc.
    inversion Hc as [|? ? Heq _]. discriminate Heq.
  - intros [Hm _]. specialize (Hm eq_refl). vm_compute in Hm.
    inversion Hm as [|? ? Heq _]. discriminate Heq.
Qed.

(** * Further properties of the blocks *)

(** ** The reshapes, element by element *)

Lemma swap_src_at d1 d2 slab i0 i1 i2 s :
  i1 < d1 -> i2 < d2 -> s < slab ->
  swap_src d1 d2 slab (((i0 * d2 + i2) * d1 + i1) * slab + s)
  = ((i0 * d1 + i1) * d2 + i2) * slab + s.
Proof.
  intros H1 H2 Hs. unfold swap_src.
  rewrite (Nat.add_comm _ s), Nat.Div0.mod_add, Nat.div_add by lia.
  rewrite (Nat.mod_small s), (Nat.div_small s), Nat.add_0_l by lia.
  rewrite (Nat.add_comm _ i1), Nat.Div0.mod_add, Nat.div_add by lia.
  rewrite (Nat.mod_small i1), (Nat.div_small i1), Nat.add_0_l by lia.
  rewrite (Nat.add_comm _ i2), Nat.Div0.mod_add, Nat.div_add by lia.
  rewrite (Nat.mod_small i2), (Nat.div_small i2), Nat.add_0_l by lia.
  lia.
Qed.

Lemma gather_wf {A} n src (xs : list A) m :
  length xs = m -> (m = 0 -> n = 0) -> length (gather n src xs) = n.
Proof.
  intros Hlen Hz. destruct xs as [|a xs].
  - simpl in *. symmetry. apply Hz. now symmetry.
  - now apply gather_length.
Qed.

(** Flattening a well-formed (B, C, F, H, W) tensor gives a well-formed
    (B*F, C, H, W) tensor in which image [b*F + f] is frame [f] of batch
    item [b]: element [(b*F + f, c, h, w)] of the result is element
    [(b, c, f, h, w)] of the argument. *)
Theorem flatten_frames_elements {A} (x : Tensor A) (b c f h w : nat) :
  shape x = [b; c; f; h; w] ->
  wf_tensor x ->
  exists y,
    flatten_frames x = Ok y /\
    shape y = [b * f; c; h; w] /\
    wf_tensor y /\
    forall bi ci fi s d,
      bi < b -> ci < c -> fi < f -> s < h * w ->
      nth (((bi * f + fi) * c + ci) * (h * w) + s) (data y) d
      = nth (((bi * c + ci) * f + fi) * (h * w) + s) (data x) d.
Proof.
  intros Hshape Hwf. destruct x as [sh xs]. simpl in *. subst sh.
  unfold wf_tensor in *. simpl in Hwf.
  unfold flatten_frames. simpl. eexists. split; [reflexivity|]. simpl.
  split; [reflexivity|]. split.
  - rewrite (gather_wf _ _ _ _ Hwf); [lia | nia].
  - intros bi ci fi s d Hb Hc Hf Hs.
    assert (Hsrc : swap_src c f (h * w) (((bi * f + fi) * c + ci) * (h * w) + s)
                   = ((bi * c + ci) * f + fi) * (h * w) + s)
      by now apply swap_src_at.
    rewrite nth_gather.
    + now rewrite Hsrc.
    + repeat apply mixed_radix_lt; assumption.
    + rewrite Hsrc, Hwf.
      replace (b * (c * (f * (h * (w * 1))))) with (b * c * f * (h * w)) by lia.
      repeat apply mixed_radix_lt; assumption.
Qed.

Lemma flatten_frames_elements_witness :
  exists y,
    flatten_frames Toy.numbered = Ok y /\
    shape y = [6; 2; 1; 2] /\
    nth 5 (data y) 0 = 3.
Proof.
  destruct (flatten_frames_elements Toy.numbered 2 2 3 1 2 eq_refl eq_refl)
    as [y [Hy [Hs [_ He]]]].
  exists y. split; [exact Hy|]. split; [exact Hs|].
  etransitivity; [apply (He 0 0 1 1 0); lia | reflexivity].
Defined.

Lemma unflatten_then_flatten {A} (y : Tensor A) (n c h w f : nat) :
  shape y = [n; c; h; w] ->
  wf_tensor y ->
  0 < f -> n mod f = 0 ->
  rbind (unflatten_frames y f) flatten_frames = Ok y.
Proof.
  intros Hshape Hwf Hf Hdiv. destruct y as [sh ys]. simpl in *. subst sh.
  unfold wf_tensor in Hwf. simpl in Hwf.
  unfold unflatten_frames, flatten_frames. simpl.
  destruct (Nat.eqb_spec f 0) as [->|_]; [lia|].
  rewrite Hdiv. simpl.
  assert (Hn : n / f * f = n).
  { pose proof (Nat.div_mod_eq n f). lia. }
  rewrite Hn. do 2 f_equal.
  replace (n / f * c * f * (h * w)) with (n * c * (h * w)) by nia.
  apply gather_inverse.
  - lia.
  - intros i Hi. pose proof (swap_src_lt (n / f) c f (h * w) i). nia.
  - intros i Hi. apply (swap_src_involutive (n / f)). nia.
Qed.

(** The other round trip: unflattening a well-formed (N, C, H, W) tensor
    whose batch length the frame count divides succeeds with a well-formed
    (N/F, C, F, H, W) tensor, and flattening that gives the tensor back.
    This is the pair of reshapes between a resnet and the attention
    operator that follows it. *)
Theorem flatten_unflatten_frames {A} (y : Tensor A) (n c h w f : nat) :
  shape y = [n; c; h; w] ->
  wf_tensor y ->
  0 < f -> n mod f = 0 ->
  exists u,
    unflatten_frames y f = Ok u /\
    shape u = [n / f; c; f; h; w] /\
    wf_tensor u /\
    flatten_frames u = Ok y.
Proof.
  intros Hshape Hwf Hf Hdiv.
  pose proof (unflatten_then_flatten y n c h w f Hshape Hwf Hf Hdiv) as Hrt.
  destruct y as [sh ys]. simpl in *. subst sh.
  unfold wf_tensor in Hwf. simpl in Hwf.
  unfold unflatten_frames in *. simpl in *.
  destruct (Nat.eqb_spec f 0) as [->|_]; [lia|].
  rewrite Hdiv in *. simpl in *.
  eexists. split; [reflexivity|]. split; [reflexivity|]. split; [|exact Hrt].
  unfold wf_tensor. simpl.
  assert (Hn : n / f * f = n).
  { pose proof (Nat.div_mod_eq n f). lia. }
  rewrite (gather_wf _ _ _ _ Hwf); [lia | nia].
Qed.

Lemma flatten_unflatten_frames_witness :
  exists u,
    unflatten_frames (mkTensor [6; 2; 1; 2] (seq 0 24)) 3 = Ok u /\
    flatten_frames u = Ok (mkTensor [6; 2; 1; 2] (seq 0 24)).
Proof.
  destruct (flatten_unflatten_frames (mkTensor [6; 2; 1; 2] (seq 0 24))
              6 2 1 2 3) as (u & Eu & _ & _ & Ef);
    [reflexivity | reflexivity | lia | reflexivity |].
  exists u. split; [exact Eu | exact Ef].
Defined.

(** The repeated time embedding has one row per image of the flattened
    latent, and the rows of the [F] frames of batch item [b] are all row
    [b] of the time embedding. *)
Theorem repeat_frames_rows {A} (t : Tensor A) (b c f : nat) :
  shape t = [b; c] ->
  wf_tensor t ->
  exists r,
    repeat_frames t f = Ok r /\
    shape r = [b * f; c] /\
    wf_tensor r /\
    forall bi fi k d,
      bi < b -> fi < f -> k < c ->
      nth ((bi * f + fi) * c + k) (data r) d = nth (bi * c + k) (data t) d.
Proof.
  intros Hshape Hwf. destruct t as [sh ts]. simpl in *. subst sh.
  unfold wf_tensor in *. simpl in Hwf.
  unfold repeat_frames. simpl. eexists. split; [reflexivity|]. simpl.
  split; [reflexivity|]. split.
  - rewrite (gather_wf _ _ _ _ Hwf); [lia | nia].
  - intros bi fi k d Hb Hf Hk.
    assert (Hsrc : ((bi * f + fi) * c + k) / c / f * c + ((bi * f + fi) * c + k) mod c
                   = bi * c + k).
    { rewrite (Nat.add_comm _ k), Nat.Div0.mod_add, Nat.div_add by lia.
      rewrite (Nat.mod_small k), (Nat.div_small k), Nat.add_0_l by lia.
      rewrite (Nat.add_comm _ fi), Nat.div_add by lia.
      rewrite (Nat.div_small fi) by lia. lia. }
    rewrite nth_gather.
    + now rewrite Hsrc.
    + apply mixed_radix_lt; [apply mixed_radix_lt|]; assumption.
    + rewrite Hsrc, Hwf. nia.
Qed.

Lemma repeat_frames_rows_witness :
  exists r,
    repeat_frames (mkTensor [2; 2] [10; 11; 20; 21]) 3 = Ok r /\
    shape r = [6; 2] /\
    nth 11 (data r) 0 = 21.
Proof.
  destruct (repeat_frames_rows (mkTensor [2; 2] [10; 11; 20; 21]) 2 2 3
              eq_refl eq_refl) as [r [Hr [Hs [_ He]]]].
  exists r. split; [exact Hr|]. split; [exact Hs|].
  etransitivity; [apply (He 1 2 1 0); lia | reflexivity].
Defined.

(** ** What the constructors build *)

Section ConstructorStructure.
Context {A V MM MK : Type} `{Collaborators A V MM MK}.

(** A slot is what [get_motion_module(...) if use_motion_module else None]
    gives for [channels]. *)
Lemma motion_module_slot_cases (args : BlockArgs MK) channels slot :
  motion_module_slot args channels = Ok slot ->
  if use_motion_module args
  then exists m, slot = Some m /\
         get_motion_module channels (motion_module_type args)
           (motion_module_kwargs args) = Ok m
  else slot = None.
Proof.
  unfold motion_module_slot. destruct (use_motion_module args); intros E.
  - apply rbind_Ok in E as [m [E1 E2]]. injection E2 as <-. eauto.
  - now injection E as <-.
Qed.

Lemma Forall_snoc {X} (P : X -> Prop) l x : Forall P l -> P x -> Forall P (l ++ [x]).
Proof. intros Hl Hx. apply Forall_app. split; [exact Hl | now constructor]. Qed.

Lemma floordiv_Ok_inv a b q : floordiv a b = Ok q -> b <> 0%Z /\ q = (a / b)%Z.
Proof.
  unfold floordiv. destruct (Z.eqb_spec b 0); [discriminate|].
  intros E. injection E as <-. now split.
Qed.

Lemma Mid_init_loop (args : BlockArgs MK) groups n : forall a ats ms rs ats' ms' rs',
  for_result (Mid_init_layer args groups) (seq a n) (ats, ms, rs)
  = Ok (ats', ms', rs') ->
  rs' = rs ++ repeat (make_resnet args groups (in_channels args) (in_channels args)) n /\
  ats' = ats ++
    repeat (mkTransformer2DModel (attn_num_head_channels args)
              (in_channels args / attn_num_head_channels args) (in_channels args)
              1 (cross_attention_dim args) groups (use_linear_projection args)
              None (upcast_attention args)) n /\
  exists new, ms' = ms ++ new /\ length new = n /\
    Forall (fun slot => motion_module_slot args (in_channels args) = Ok slot) new.
Proof.
  induction n as [|n IH]; intros a ats ms rs ats' ms' rs' E; simpl in E.
  - injection E as <- <- <-. simpl. rewrite !app_nil_r.
    repeat split. exists []. rewrite app_nil_r. repeat split. constructor.
  - apply rbind_Ok in E as [[[ats1 ms1] rs1] [E1 E2]].
    unfold Mid_init_layer in E1.
    destruct (dual_cross_attention args); [discriminate|].
    apply rbind_Ok in E1 as [hd [Ehd E1]]. constructed E1.
    apply rbind_Ok in E1 as [mm [Emm E1]]. constructed E1.
    injection E1 as <- <- <-. apply floordiv_Ok_inv in Ehd as [_ ->].
    apply IH in E2 as (-> & -> & new & -> & Hlen & Hall).
    simpl. rewrite <- !app_assoc. repeat split.
    exists (mm :: new). simpl. repeat split; [now rewrite Hlen|].
    now constructor.
Qed.

Lemma CrossAttnDown_init_loop (args : BlockArgs MK) n :
  forall a c rs ats ms c' rs' ats' ms',
  for_result (CrossAttnDown_init_layer args) (seq a n) (c, rs, ats, ms)
  = Ok (c', rs', ats', ms') ->
  rs' = rs ++
    map (fun i => make_resnet args (resnet_groups args)
                    (if i =? 0 then c else out_channels args) (out_channels args))
        (seq a n) /\
  ats' = ats ++
    repeat (mkTransformer2DModel (attn_num_head_channels args)
              (out_channels args / attn_num_head_channels args) (out_channels args)
              1 (cross_attention_dim args) (resnet_groups args)
              (use_linear_projection args) (Some (only_cross_attention args))
              (upcast_attention args)) n /\
  exists new, ms' = ms ++ new /\ length new = n /\
    Forall (fun slot => motion_module_slot args (out_channels args) = Ok slot) new.
Proof.
  induction n as [|n IH]; intros a c rs ats ms c' rs' ats' ms' E; simpl in E.
  - injection E as _ <- <- <-. simpl. rewrite !app_nil_r.
    repeat split. exists []. rewrite app_nil_r. repeat split. constructor.
  - apply rbind_Ok in E as [[[[c1 rs1] ats1] ms1] [E1 E2]].
    unfold CrossAttnDown_init_layer in E1. constructed E1.
    destruct (dual_cross_attention args); [discriminate|].
    apply rbind_Ok in E1 as [hd [Ehd E1]]. constructed E1.
    apply rbind_Ok in E1 as [mm [Emm E1]].
    injection E1 as <- <- <- <-. apply floordiv_Ok_inv in Ehd as [_ ->].
    apply IH in E2 as (-> & -> & new & -> & Hlen & Hall).
    simpl. rewrite <- !app_assoc. simpl. repeat split.
    + do 2 f_equal. apply map_ext_in. intros i Hi. apply in_seq in Hi.
      destruct i; [lia | reflexivity].
    + exists (mm :: new). simpl. repeat split; [now rewrite Hlen|].
      now constructor.
Qed.

Lemma Down_init_loop (args : BlockArgs MK) n :
  forall a c rs ms c' rs' ms',
  for_result (Down_init_layer args) (seq a n) (c, rs, ms) = Ok (c', rs', ms') ->
  rs' = rs ++
    map (fun i => make_resnet args (resnet_groups args)
                    (if i =? 0 then c else out_channels args) (out_channels args))
        (seq a n) /\
  exists new, ms' = ms ++ new /\ length new = n /\
    Forall (fun slot => motion_module_slot args (out_channels args) = Ok slot) new.
Proof.
  induction n as [|n IH]; intros a c rs ms c' rs' ms' E; simpl in E.
  - injection E as _ <- <-. simpl. rewrite !app_nil_r.
    repeat split. exists []. rewrite app_nil_r. repeat split. constructor.
  - apply rbind_Ok in E as [[[c1 rs1] ms1] [E1 E2]].
    unfold Down_init_layer in E1. constructed E1.
    apply rbind_Ok in E1 as [mm [Emm E1]].
    injection E1 as <- <- <-.
    apply IH in E2 as (-> & new & -> & Hlen & Hall).
    simpl. rewrite <- !app_assoc. simpl. repeat split.
    + do 2 f_equal. apply map_ext_in. intros i Hi. apply in_seq in Hi.
      destruct i; [lia | reflexivity].
    + exists (mm :: new). simpl. repeat split; [now rewrite Hlen|].
      now constructor.
Qed.

Lemma CrossAttnUp_init_loop_full (args : BlockArgs MK) n :
  forall a rs ats ms rs' ats' ms',
  for_result (CrossAttnUp_init_layer args) (seq a n) (rs, ats, ms)
  = Ok (rs', ats', ms') ->
  rs' = rs ++
    map (fun i => make_resnet args (resnet_groups args)
                    (up_layer_channels args i) (out_channels args)) (seq a n) /\
  ats' = ats ++
    repeat (mkTransformer2DModel (attn_num_head_channels args)
              (out_channels args / attn_num_head_channels args) (out_channels args)
              1 (cross_attention_dim args) (resnet_groups args)
              (use_linear_projection args) (Some (only_cross_attention args))
              (upcast_attention args)) n /\
  exists new, ms' = ms ++ new /\ length new = n /\
    Forall (fun slot => motion_module_slot args (out_channels args) = Ok slot) new.
Proof.
  induction n as [|n IH]; intros a rs ats ms rs' ats' ms' E; simpl in E.
  - injection E as <- <- <-. simpl. rewrite !app_nil_r.
    repeat split. exists []. rewrite app_nil_r. repeat split. constructor.
  - apply rbind_Ok in E as [[[rs1 ats1] ms1] [E1 E2]].
    unfold CrossAttnUp_init_layer in E1. constructed E1.
    destruct (dual_cross_attention args); [discriminate|].
    apply rbind_Ok in E1 as [hd [Ehd E1]]. constructed E1.
    apply rbind_Ok in E1 as [mm [Emm E1]].
    injection E1 as <- <- <-. apply floordiv_Ok_inv in Ehd as [_ ->].
    apply IH in E2 as (-> & -> & new & -> & Hlen & Hall).
    simpl. rewrite <- !app_assoc. simpl. repeat split.
    exists (mm :: new). simpl. repeat split; [now rewrite Hlen|].
    now constructor.
Qed.

Lemma Up_init_loop_full (args : BlockArgs MK) n :
  forall a rs ms rs' ms',
  for_result (Up_init_layer args) (seq a n) (rs, ms) = Ok (rs', ms') ->
  rs' = rs ++
    map (fun i => make_resnet args (resnet_groups args)
                    (up_layer_channels args i) (out_channels args)) (seq a n) /\
  exists new, ms' = ms ++ new /\ length new = n /\
    Forall (fun slot => motion_module_slot args (out_channels args) = Ok slot) new.
Proof.
  induction n as [|n IH]; intros a rs ms rs' ms' E; simpl in E.
  - injection E as <- <-. simpl. rewrite !app_nil_r.
    repeat split. exists []. rewrite app_nil_r. repeat split. constructor.
  - apply rbind_Ok in E as [[rs1 ms1] [E1 E2]].
    unfold Up_init_layer in E1. constructed E1.
    apply rbind_Ok in E1 as [mm [Emm E1]].
    injection E1 as <- <-.
    apply IH in E2 as (-> & new & -> & Hlen & Hall).
    simpl. rewrite <- !app_assoc. simpl. repeat split.
    exists (mm :: new). simpl. repeat split; [now rewrite Hlen|].
    now constructor.
Qed.

(** A Mid block is built with [num_layers + 1] resnets and [num_layers]
    attention operators, all at [in_channels]; the head dimension of each
    attention operator is [in_channels // attn_num_head_channels]; and the
    group count, when [resnet_groups] is [None], is
    [min(in_channels // 4, 32)]. *)
Theorem mid_block_constructed (args : BlockArgs MK)
  (self : UNetMidBlock3DCrossAttn MM) :
  UNetMidBlock3DCrossAttn_init args = Ok self ->
  let groups := Some (default (Z.min (in_channels args / 4) 32) (resnet_groups args)) in
  mid_resnets self
  = repeat (make_resnet args groups (in_channels args) (in_channels args))
      (num_layers args + 1) /\
  mid_attentions self
  = repeat (mkTransformer2DModel (attn_num_head_channels args)
              (in_channels args / attn_num_head_channels args) (in_channels args)
              1 (cross_attention_dim args) groups (use_linear_projection args)
              None (upcast_attention args)) (num_layers args) /\
  length (mid_motion_modules self) = num_layers args.
Proof.
  intros E groups. unfold UNetMidBlock3DCrossAttn_init in E.
  replace (match resnet_groups args with
           | Some g => Some g
           | None => Some (Z.min (in_channels args / 4) 32)
           end) with groups in E by (subst groups; now destruct (resnet_groups args)).
  constructed E.
  apply rbind_Ok in E as [[[ats ms] rs] [E1 E2]]. injection E2 as <-.
  apply Mid_init_loop in E1 as (-> & -> & new & -> & Hlen & _).
  simpl. repeat split; [|exact Hlen].
  rewrite Nat.add_1_r. reflexivity.
Qed.

(** A Down block is built with one resnet per layer, the first from
    [in_channels] and the others from [out_channels], all to
    [out_channels]; with cross-attention, one attention operator per layer
    at [out_channels], of head dimension
    [out_channels // attn_num_head_channels]; and with one downsampler at
    [out_channels] exactly when [add_downsample] is set. *)
Theorem down_block_constructed (cross_attn : bool) (args : BlockArgs MK)
  (self : DownBlock MM) :
  DownBlock_init cross_attn args = Ok self ->
  down_resnets self
  = map (fun i => make_resnet args (resnet_groups args)
                    (if i =? 0 then in_channels args else out_channels args)
                    (out_channels args))
        (range (num_layers args)) /\
  down_downsamplers self
  = (if add_downsample args
     then Some [mkDownsample2D (out_channels args) true (out_channels args)
                  (downsample_padding args) "op"]
     else None) /\
  match self with
  | IsCrossAttnDownBlock3D b =>
      cross_attn = true /\
      cad_attentions b
      = repeat (mkTransformer2DModel (attn_num_head_channels args)
                  (out_channels args / attn_num_head_channels args)
                  (out_channels args) 1 (cross_attention_dim args)
                  (resnet_groups args) (use_linear_projection args)
                  (Some (only_cross_attention args)) (upcast_attention args))
          (num_layers args)
  | IsDownBlock3D _ => cross_attn = false
  end.
Proof.
  unfold DownBlock_init. destruct cross_attn; intros E.
  - apply rbind_Ok in E as [b [E1 E2]]. injection E2 as <-.
    unfold CrossAttnDownBlock3D_init in E1.
    apply rbind_Ok in E1 as [[[[c rs] ats] ms] [E1 E2]].
    apply rbind_Ok in E2 as [ds [Eds E2]]. injection E2 as <-.
    apply make_downsamplers_Ok in Eds. subst ds.
    apply CrossAttnDown_init_loop in E1 as (-> & -> & _). simpl.
    repeat split.
  - apply rbind_Ok in E as [b [E1 E2]]. injection E2 as <-.
    unfold DownBlock3D_init in E1.
    apply rbind_Ok in E1 as [[[c rs] ms] [E1 E2]].
    apply rbind_Ok in E2 as [ds [Eds E2]]. injection E2 as <-.
    apply make_downsamplers_Ok in Eds. subst ds.
    apply Down_init_loop in E1 as (-> & _). simpl.
    repeat split.
Qed.

(** An Up block is built with one resnet per layer, all to [out_channels];
    with cross-attention, one attention operator per layer at
    [out_channels], of head dimension
    [out_channels // attn_num_head_channels]; and with one upsampler at
    [out_channels] exactly when [add_upsample] is set. *)
Theorem up_block_constructed (cross_attn : bool) (args : BlockArgs MK)
  (self : UpBlock MM) :
  UpBlock_init cross_attn args = Ok self ->
  up_block_resnets self
  = map (fun i => make_resnet args (resnet_groups args)
                    (up_layer_channels args i) (out_channels args))
        (range (num_layers args)) /\
  up_block_upsamplers self
  = (if add_upsample args
     then Some [mkUpsample2D (out_channels args) true (out_channels args)]
     else None) /\
  match self with
  | IsCrossAttnUpBlock3D b =>
      cross_attn = true /\
      cau_attentions b
      = repeat (mkTransformer2DModel (attn_num_head_channels args)
                  (out_channels args / attn_num_head_channels args)
                  (out_channels args) 1 (cross_attention_dim args)
                  (resnet_groups args) (use_linear_projection args)
                  (Some (only_cross_attention args)) (upcast_attention args))
          (num_layers args)
  | IsUpBlock3D _ => cross_attn = false
  end.
Proof.
  unfold UpBlock_init. destruct cross_attn; intros E.
  - apply rbind_Ok in E as [b [E1 E2]]. injection E2 as <-.
    unfold CrossAttnUpBlock3D_init in E1.
    apply rbind_Ok in E1 as [[[rs ats] ms] [E1 E2]].
    apply rbind_Ok in E2 as [us [Eus E2]]. injection E2 as <-.
    apply make_upsamplers_Ok in Eus. subst us.
    apply CrossAttnUp_init_loop_full in E1 as (-> & -> & _). simpl.
    repeat split.
  - apply rbind_Ok in E as [b [E1 E2]]. injection E2 as <-.
    unfold UpBlock3D_init in E1.
    apply rbind_Ok in E1 as [[rs ms] [E1 E2]].
    apply rbind_Ok in E2 as [us [Eus E2]]. injection E2 as <-.
    apply make_upsamplers_Ok in Eus. subst us.
    apply Up_init_loop_full in E1 as (-> & _). simpl.
    repeat split.
Qed.

(** The slots of a constructed block, each the outcome of
    [motion_module_slot] at the block's channel count. *)
Lemma Mid_init_slots (args : BlockArgs MK) (b : UNetMidBlock3DCrossAttn MM) :
  UNetMidBlock3DCrossAttn_init args = Ok b ->
  length (mid_motion_modules b) = num_layers args /\
  Forall (fun slot => motion_module_slot args (in_channels args) = Ok slot)
    (mid_motion_modules b).
Proof.
  intros E. unfold UNetMidBlock3DCrossAttn_init in E. constructed E.
  apply rbind_Ok in E as [[[ats ms] rs] [E1 E2]]. injection E2 as <-.
  apply Mid_init_loop in E1 as (_ & _ & new & -> & Hlen & Hall). now split.
Qed.

Lemma DownBlock_init_slots cross_attn (args : BlockArgs MK) (b : DownBlock MM) :
  DownBlock_init cross_attn args = Ok b ->
  length (block_slots (ADownBlock b : @AnyBlock A MM)) = num_layers args /\
  Forall (fun slot => motion_module_slot args (out_channels args) = Ok slot)
    (block_slots (ADownBlock b : @AnyBlock A MM)).
Proof.
  intros E. unfold DownBlock_init in E. destruct cross_attn.
  - apply rbind_Ok in E as [b0 [E1 E2]]. injection E2 as <-.
    unfold CrossAttnDownBlock3D_init in E1.
    apply rbind_Ok in E1 as [[[[c rs] ats] ms] [E1 E2]].
    apply rbind_Ok in E2 as [ds [Eds E2]]. injection E2 as <-.
    apply make_downsamplers_Ok in Eds. subst ds.
    apply CrossAttnDown_init_loop in E1 as (_ & _ & new & -> & Hlen & Hall).
    now split.
  - apply rbind_Ok in E as [b0 [E1 E2]]. injection E2 as <-.
    unfold DownBlock3D_init in E1.
    apply rbind_Ok in E1 as [[[c rs] ms] [E1 E2]].
    apply rbind_Ok in E2 as [ds [Eds E2]]. injection E2 as <-.
    apply make_downsamplers_Ok in Eds. subst ds.
    apply Down_init_loop in E1 as (_ & new & -> & Hlen & Hall).
    now split.
Qed.

Lemma UpBlock_init_slots cross_attn (args : BlockArgs MK) (b : UpBlock MM)
  (tup : list (Tensor A)) size :
  UpBlock_init cross_attn args = Ok b ->
  length (block_slots (AnUpBlock b tup size)) = num_layers args /\
  Forall (fun slot => motion_module_slot args (out_channels args) = Ok slot)
    (block_slots (AnUpBlock b tup size)).
Proof.
  intros E. unfold UpBlock_init in E. destruct cross_attn.
  - apply rbind_Ok in E as [b0 [E1 E2]]. injection E2 as <-.
    unfold CrossAttnUpBlock3D_init in E1.
    apply rbind_Ok in E1 as [[[rs ats] ms] [E1 E2]].
    apply rbind_Ok in E2 as [us [Eus E2]]. injection E2 as <-.
    apply make_upsamplers_Ok in Eus. subst us.
    apply CrossAttnUp_init_loop_full in E1 as (_ & _ & new & -> & Hlen & Hall).
    now split.
  - apply rbind_Ok in E as [b0 [E1 E2]]. injection E2 as <-.
    unfold UpBlock3D_init in E1.
    apply rbind_Ok in E1 as [[rs ms] [E1 E2]].
    apply rbind_Ok in E2 as [us [Eus E2]]. injection E2 as <-.
    apply make_upsamplers_Ok in Eus. subst us.
    apply Up_init_loop_full in E1 as (_ & new & -> & Hlen & Hall).
    now split.
Qed.

(** Every block is built with one motion-module slot per layer: the
    module [get_motion_module] returns for the block's channel count
    ([in_channels] in the Mid block, [out_channels] elsewhere) when
    [use_motion_module] is set, and [None] otherwise. *)
Theorem motion_slots_constructed (args : BlockArgs MK) :
  let built channels slots :=
    length slots = num_layers args /\
    Forall (fun slot : option MM =>
              if use_motion_module args
              then exists m, slot = Some m /\
                     get_motion_module channels (motion_module_type args)
                       (motion_module_kwargs args) = Ok m
              else slot = None) slots in
  (forall b, UNetMidBlock3DCrossAttn_init args = Ok b ->
     built (in_channels args) (block_slots (MidBlock b : @AnyBlock A MM))) /\
  (forall cross_attn b, DownBlock_init cross_attn args = Ok b ->
     built (out_channels args) (block_slots (ADownBlock b : @AnyBlock A MM))) /\
  (forall cross_attn b (tup : list (Tensor A)) size,
     UpBlock_init cross_attn args = Ok b ->
     built (out_channels args) (block_slots (AnUpBlock b tup size))).
Proof.
  intros built.
  assert (Hb : forall channels new,
    length new = num_layers args /\
    Forall (fun slot => motion_module_slot args channels = Ok slot) new ->
    built channels new).
  { intros channels new [Hlen Hall]. split; [exact Hlen|].
    eapply Forall_impl; [exact Hall|]. intros slot. cbv beta.
    apply motion_module_slot_cases. }
  split; [|split].
  - intros b E. apply Hb. now apply Mid_init_slots.
  - intros cross_attn b E. apply Hb. now apply (DownBlock_init_slots cross_attn).
  - intros cross_attn b tup size E. apply Hb.
    now apply (UpBlock_init_slots cross_attn).
Qed.

End ConstructorStructure.

Lemma mid_block_constructed_witness :
  mid_resnets Toy.wide_mid
  = repeat (make_resnet Toy.wide_args (Some 32%Z) 320 320) 2 /\
  map tr_attention_head_dim (mid_attentions Toy.wide_mid) = [40%Z].
Proof.
  destruct (mid_block_constructed Toy.wide_args Toy.wide_mid) as (Hr & Ha & _);
    [reflexivity|].
  split; [exact Hr|]. rewrite Ha. reflexivity.
Defined.

Lemma down_block_constructed_witness :
  map rn_in_channels (down_resnets Toy.cross_down) = [1; 1]%Z /\
  down_downsamplers Toy.cross_down
  = Some [mkDownsample2D 1 true 1 (Some 1%Z) "op"].
Proof.
  destruct (down_block_constructed true Toy.down_args Toy.cross_down)
    as (Hr & Hd & _); [reflexivity|].
  split; [rewrite Hr; reflexivity | exact Hd].
Defined.

Lemma up_block_constructed_witness :
  map rn_out_channels (up_block_resnets Toy.up_64) = [128; 128; 128]%Z /\
  up_block_upsamplers Toy.up_64 = Some [mkUpsample2D 128 true 128].
Proof.
  destruct (up_block_constructed false Toy.up_args_64 Toy.up_64)
    as (Hr & Hu & _); [reflexivity|].
  split; [rewrite Hr; reflexivity | exact Hu].
Defined.

Lemma motion_slots_constructed_witness :
  length (block_slots (ADownBlock Toy.still_down : @AnyBlock Z Z)) = 2 /\
  Forall (fun slot => slot = None)
    (block_slots (ADownBlock Toy.still_down : @AnyBlock Z Z)).
Proof.
  destruct (motion_slots_constructed Toy.still_args) as (_ & Hd & _).
  apply (Hd true Toy.still_down). reflexivity.
Defined.

Section ConstructorErrors.
Context {A V MM MK : Type} `{Collaborators A V MM MK}.


End ConstructorErrors.


(** ** What a [forward] call may do to the store *)

Section Maintains.
Context {A V MM MK : Type} `{Collaborators A V MM MK}.

Local Abbreviation Py := (@Py A V MM).
Local Abbreviation store := (@store A V MM).
Local Abbreviation event := (@event A V MM).
Local Abbreviation AnyBlock := (@AnyBlock A MM).

(** [R] is a preorder on stores that logging a call of one of the
    collaborators [ks] respects. *)
Variable R : store -> store -> Prop.
Hypothesis R_refl : forall st, R st st.
Hypothesis R_trans : forall st1 st2 st3, R st1 st2 -> R st2 st3 -> R st1 st3.
Variable ks : list op_kind.
Hypothesis R_log : forall (e : event) st, In (event_kind e) ks -> R st (log_event e st).

Lemma maintains_ret {X} (x : X) : maintains R (ret x : Py X).
Proof. intros st. apply R_refl. Qed.

Lemma maintains_raise {X} e : maintains R (raise e : Py X).
Proof. intros st. apply R_refl. Qed.

Lemma maintains_lift {X} (r : result X) : maintains R (lift r : Py X).
Proof. intros st. apply R_refl. Qed.

Lemma maintains_deref kw : maintains R (deref kw : Py _).
Proof. intros st. apply R_refl. Qed.

Lemma maintains_emit (e : event) : In (event_kind e) ks -> maintains R (emit e).
Proof. intros He st. now apply R_log. Qed.

Lemma maintains_bind {X Y} (m : Py X) (k : X -> Py Y) :
  maintains R m -> (forall x, maintains R (k x)) -> maintains R (bind m k).
Proof.
  intros Hm Hk st. unfold bind. specialize (Hm st).
  destruct (m st) as [[x|e] st1]; simpl in *.
  - eapply R_trans; [exact Hm | apply Hk].
  - exact Hm.
Qed.

Lemma maintains_for_each {X S} (Q : X -> Prop) (body : S -> X -> Py S) xs :
  (forall s x, Q x -> maintains R (body s x)) ->
  Forall Q xs -> forall s, maintains R (for_each body xs s).
Proof.
  intros Hb Hxs. induction Hxs as [|x xs Hx _ IH]; intros s; simpl.
  - apply maintains_ret.
  - apply maintains_bind; [now apply Hb | exact IH].
Qed.

Lemma call_resnet_maintains r x t :
  In KResnet ks -> maintains R (call_resnet r x t).
Proof.
  intros Hk. unfold call_resnet.
  apply maintains_bind; [now apply maintains_emit | intros; apply maintains_lift].
Qed.

Lemma call_attn_maintains a x enc kw :
  In KAttn ks -> maintains R (call_attn a x enc kw).
Proof.
  intros Hk. unfold call_attn.
  apply maintains_bind; [apply maintains_deref | intros c].
  apply maintains_bind; [now apply maintains_emit | intros; apply maintains_lift].
Qed.

Lemma call_motion_maintains m x temb enc kw :
  In KMotion ks -> maintains R (call_motion m x temb enc kw).
Proof.
  intros Hk. unfold call_motion.
  apply maintains_bind; [apply maintains_deref | intros c].
  apply maintains_bind; [now apply maintains_emit | intros; apply maintains_lift].
Qed.

Lemma call_cat_maintains a b : In KCat ks -> maintains R (call_cat a b).
Proof.
  intros Hk. unfold call_cat.
  apply maintains_bind; [now apply maintains_emit | intros; apply maintains_lift].
Qed.

Lemma call_downsample_maintains d x :
  In KDownsample ks -> maintains R (call_downsample d x).
Proof.
  intros Hk. unfold call_downsample.
  apply maintains_bind; [now apply maintains_emit | intros; apply maintains_lift].
Qed.

Lemma call_upsample_maintains u x size :
  In KUpsample ks -> maintains R (call_upsample u x size).
Proof.
  intros Hk. unfold call_upsample.
  apply maintains_bind; [now apply maintains_emit | intros; apply maintains_lift].
Qed.

Lemma per_frame_maintains F (op : Tensor A -> Py (Tensor A)) hs :
  (forall x, maintains R (op x)) -> maintains R (per_frame F op hs).
Proof.
  intros Hop. unfold per_frame.
  apply maintains_bind; [apply maintains_lift | intros x].
  apply maintains_bind; [apply Hop | intros; apply maintains_lift].
Qed.

Lemma motion_slot_call_maintains (slot : option MM) x temb enc kw :
  (slot <> None -> In KMotion ks) ->
  maintains R (motion_slot_call slot x temb enc kw).
Proof.
  intros Hk. destruct slot as [m|]; simpl.
  - apply call_motion_maintains. now apply Hk.
  - apply maintains_ret.
Qed.

Lemma Mid_layer_maintains F temb tr enc ck mk x
  (layer : Transformer2DModel * ResnetBlock2D * option MM) :
  In KResnet ks -> In KAttn ks -> (snd layer <> None -> In KMotion ks) ->
  maintains R (Mid_layer F temb tr enc ck mk x layer).
Proof.
  intros Hr Ha Hm. destruct layer as [[attn resnet] slot]. unfold Mid_layer.
  apply maintains_bind.
  { apply per_frame_maintains. intros y. now apply call_attn_maintains. }
  intros y. apply maintains_bind.
  { now apply motion_slot_call_maintains. }
  intros z. apply per_frame_maintains. intros w. now apply call_resnet_maintains.
Qed.

Lemma CrossAttnDown_layer_maintains attrs F temb tr enc ck mk s
  (layer : ResnetBlock2D * Transformer2DModel * option MM) :
  In KResnet ks -> In KAttn ks -> (snd layer <> None -> In KMotion ks) ->
  maintains R (CrossAttnDown_layer attrs F temb tr enc ck mk s layer).
Proof.
  intros Hr Ha Hm. destruct s as [h o], layer as [[resnet attn] slot].
  unfold CrossAttnDown_layer.
  apply maintains_bind; [|intros; apply maintains_ret].
  destruct (training attrs && gradient_checkpointing attrs);
    [apply maintains_raise|].
  apply maintains_bind.
  { apply per_frame_maintains. intros y. now apply call_resnet_maintains. }
  intros y. apply maintains_bind.
  { apply per_frame_maintains. intros z. now apply call_attn_maintains. }
  intros z. now apply motion_slot_call_maintains.
Qed.

Lemma Down_layer_maintains attrs F temb tr enc mk s
  (layer : ResnetBlock2D * option MM) :
  In KResnet ks -> (snd layer <> None -> In KMotion ks) ->
  maintains R (Down_layer attrs F temb tr enc mk s layer).
Proof.
  intros Hr Hm. destruct s as [h o], layer as [resnet slot].
  unfold Down_layer.
  apply maintains_bind; [|intros; apply maintains_ret].
  destruct (training attrs && gradient_checkpointing attrs);
    [apply maintains_raise|].
  apply maintains_bind.
  { apply per_frame_maintains. intros y. now apply call_resnet_maintains. }
  intros y. now apply motion_slot_call_maintains.
Qed.

Lemma pop_and_cat_maintains (s : Tensor A * list (Tensor A)) :
  In KCat ks -> maintains R (pop_and_cat s).
Proof.
  intros Hc. destruct s as [h t]. unfold pop_and_cat.
  apply maintains_bind; [apply maintains_lift | intros e].
  apply maintains_bind; [now apply call_cat_maintains | intros; apply maintains_ret].
Qed.

Lemma CrossAttnUp_layer_maintains attrs F temb tr enc ck mk s
  (layer : ResnetBlock2D * Transformer2DModel * option MM) :
  In KCat ks -> In KResnet ks -> In KAttn ks ->
  (snd layer <> None -> In KMotion ks) ->
  maintains R (CrossAttnUp_layer attrs F temb tr enc ck mk s layer).
Proof.
  intros Hc Hr Ha Hm. destruct layer as [[resnet attn] slot].
  unfold CrossAttnUp_layer.
  apply maintains_bind; [now apply pop_and_cat_maintains | intros [h t]].
  apply maintains_bind; [|intros; apply maintains_ret].
  destruct (training attrs && gradient_checkpointing attrs);
    [apply maintains_raise|].
  apply maintains_bind.
  { apply per_frame_maintains. intros y. now apply call_resnet_maintains. }
  intros y. apply maintains_bind.
  { apply per_frame_maintains. intros z. now apply call_attn_maintains. }
  intros z. now apply motion_slot_call_maintains.
Qed.

Lemma Up_layer_maintains attrs F temb tr enc mk s
  (layer : ResnetBlock2D * option MM) :
  In KCat ks -> In KResnet ks -> (snd layer <> None -> In KMotion ks) ->
  maintains R (Up_layer attrs F temb tr enc mk s layer).
Proof.
  intros Hc Hr Hm. destruct layer as [resnet slot].
  unfold Up_layer.
  apply maintains_bind; [now apply pop_and_cat_maintains | intros [h t]].
  apply maintains_bind; [|intros; apply maintains_ret].
  destruct (training attrs && gradient_checkpointing attrs);
    [apply maintains_raise|].
  apply maintains_bind.
  { apply per_frame_maintains. intros y. now apply call_resnet_maintains. }
  intros y. now apply motion_slot_call_maintains.
Qed.

Lemma Forall_True {X} (l : list X) : Forall (fun _ => True) l.
Proof. induction l; constructor; auto. Qed.

Lemma down_tail_maintains F (ds : option (list Downsample2D))
  (s : Tensor A * list (Tensor A)) :
  (is_none ds = false -> In KDownsample ks) -> maintains R (down_tail F ds s).
Proof.
  intros Hk. destruct s as [h o]. unfold down_tail.
  destruct ds as [ds|]; [|apply maintains_ret].
  apply maintains_bind; [|intros; apply maintains_ret].
  unfold downsample_all.
  apply (maintains_for_each (fun _ => True)); [|apply Forall_True].
  intros x d _. apply per_frame_maintains. intros y.
  apply call_downsample_maintains. now apply Hk.
Qed.

Lemma up_tail_maintains F (us : option (list Upsample2D)) size (h : Tensor A) :
  (is_none us = false -> In KUpsample ks) -> maintains R (up_tail F us size h).
Proof.
  intros Hk. unfold up_tail.
  destruct us as [us|]; [|apply maintains_ret].
  unfold upsample_all.
  apply (maintains_for_each (fun _ => True)); [|apply Forall_True].
  intros x u _. apply per_frame_maintains. intros y.
  apply call_upsample_maintains. now apply Hk.
Qed.

(** The layers a loop zips together, seen from the slots. *)
Lemma Forall_combine_snd {X Y} (Q : Y -> Prop) (xs : list X) (ys : list Y) :
  Forall Q ys -> Forall (fun p => Q (snd p)) (combine xs ys).
Proof.
  intros Hys. revert xs. induction Hys as [|y ys Hy _ IH]; intros [|x xs]; simpl;
    constructor; auto.
Qed.

Lemma slots_allowed (slots : list (option MM)) :
  (forallb is_none slots = false -> In KMotion ks) ->
  Forall (fun slot => slot <> None -> In KMotion ks) slots.
Proof.
  induction slots as [|slot slots IH]; intros Hk; constructor.
  - intros Hs. apply Hk. simpl. destruct slot; [reflexivity | congruence].
  - apply IH. intros E. apply Hk. simpl. rewrite E. apply andb_false_r.
Qed.

Lemma store_after_maintains (self : AnyBlock) attrs hs temb enc ck mk :
  (forall k, In k (block_kinds self) -> In k ks) ->
  maintains R (lora_injection self attrs ck) ->
  maintains R (inject_motion_scale attrs (default (motion_default self) mk)) ->
  forall st, R st (store_after self attrs hs temb enc ck mk st).
Proof.
  intros Hin Hlora Hmotion.
  assert (Hrebind : forall c,
            maintains R (bind (inject_lora_scale_rebind attrs c)
                           (fun _ => ret tt : Py unit)) ->
            maintains R (inject_lora_scale_rebind attrs c)).
  { intros c Hc st. specialize (Hc st). unfold bind in Hc.
    now destruct (inject_lora_scale_rebind attrs c st) as [[x|e] st1]. }
  assert (Hslots : Forall (fun slot => slot <> None -> In KMotion ks)
                     (block_slots self)).
  { apply slots_allowed. intros E. apply Hin. unfold block_kinds. rewrite E.
    now left. }
  assert (Hbase : forall k base,
            block_kinds self
            = (if forallb is_none (block_slots self) then [] else [KMotion]) ++ base ->
            In k base -> In k ks).
  { intros k base E Hk. apply Hin. rewrite E. apply in_or_app. now right. }
  destruct self as [b | [b|b] | [b|b] tup size]; simpl in *.
  - (* Mid *)
    assert (Hr : In KResnet ks) by (eapply Hbase; [reflexivity | simpl; auto]).
    assert (Ha : In KAttn ks) by (eapply Hbase; [reflexivity | simpl; auto]).
    apply maintains_bind; [apply maintains_lift | intros F].
    apply maintains_bind; [apply maintains_lift | intros tr].
    apply maintains_bind.
    { apply per_frame_maintains. intros x.
      apply maintains_bind; [apply maintains_lift | intros r0].
      now apply call_resnet_maintains. }
    intros h1. apply maintains_bind; [now apply Hrebind | intros ck'].
    apply maintains_bind; [exact Hmotion | intros mk'].
    apply (maintains_for_each (fun p => snd p <> None -> In KMotion ks)).
    + intros s x Hx. now apply Mid_layer_maintains.
    + unfold zip3. now apply (Forall_combine_snd (fun slot => slot <> None -> In KMotion ks)).
  - (* Down *)
    assert (Hr : In KResnet ks) by (eapply Hbase; [reflexivity | simpl; auto]).
    apply maintains_bind; [apply maintains_lift | intros F].
    apply maintains_bind; [apply maintains_lift | intros tr].
    apply maintains_bind; [exact Hmotion | intros mk'].
    apply maintains_bind.
    + apply (maintains_for_each (fun p => snd p <> None -> In KMotion ks)).
      * intros s x Hx. now apply Down_layer_maintains.
      * unfold zip2. now apply (Forall_combine_snd (fun slot => slot <> None -> In KMotion ks)).
    + intros s. apply down_tail_maintains. intros E.
      eapply Hbase; [reflexivity|]. rewrite E. simpl. auto.
  - (* CrossAttnDown *)
    assert (Hr : In KResnet ks) by (eapply Hbase; [reflexivity | simpl; auto]).
    assert (Ha : In KAttn ks) by (eapply Hbase; [reflexivity | simpl; auto]).
    apply maintains_bind; [apply maintains_lift | intros F].
    apply maintains_bind; [apply maintains_lift | intros tr].
    apply maintains_bind; [exact Hlora | intros _].
    apply maintains_bind; [exact Hmotion | intros mk'].
    apply maintains_bind.
    + apply (maintains_for_each (fun p => snd p <> None -> In KMotion ks)).
      * intros s x Hx. now apply CrossAttnDown_layer_maintains.
      * unfold zip3. now apply (Forall_combine_snd (fun slot => slot <> None -> In KMotion ks)).
    + intros s. apply down_tail_maintains. intros E.
      eapply Hbase; [reflexivity|]. rewrite E. simpl. auto.
  - (* Up *)
    assert (Hc : In KCat ks) by (eapply Hbase; [reflexivity | simpl; auto]).
    assert (Hr : In KResnet ks) by (eapply Hbase; [reflexivity | simpl; auto]).
    unfold UpBlock3D_forward.
    apply maintains_bind.
    + unfold UpBlock3D_layers.
      apply maintains_bind; [apply maintains_lift | intros F].
      apply maintains_bind; [apply maintains_lift | intros tr].
      apply maintains_bind; [exact Hmotion | intros mk'].
      apply maintains_bind; [|intros; apply maintains_ret].
      apply (maintains_for_each (fun p => snd p <> None -> In KMotion ks)).
      * intros s x Hx. now apply Up_layer_maintains.
      * unfold zip2. now apply (Forall_combine_snd (fun slot => slot <> None -> In KMotion ks)).
    + intros [F [h t]]. apply up_tail_maintains. intros E.
      eapply Hbase; [reflexivity|]. rewrite E. simpl. auto.
  - (* CrossAttnUp *)
    assert (Hc : In KCat ks) by (eapply Hbase; [reflexivity | simpl; auto]).
    assert (Hr : In KResnet ks) by (eapply Hbase; [reflexivity | simpl; auto]).
    assert (Ha : In KAttn ks) by (eapply Hbase; [reflexivity | simpl; auto]).
    unfold CrossAttnUpBlock3D_forward.
    apply maintains_bind.
    + unfold CrossAttnUpBlock3D_layers.
      apply maintains_bind; [apply maintains_lift | intros F].
      apply maintains_bind; [apply maintains_lift | intros tr].
      apply maintains_bind; [now apply Hrebind | intros ck'].
      apply maintains_bind; [exact Hmotion | intros mk'].
      apply maintains_bind; [|intros; apply maintains_ret].
      apply (maintains_for_each (fun p => snd p <> None -> In KMotion ks)).
      * intros s x Hx. now apply CrossAttnUp_layer_maintains.
      * unfold zip3. now apply (Forall_combine_snd (fun slot => slot <> None -> In KMotion ks)).
    + intros [F [h t]]. apply up_tail_maintains. intros E.
      eapply Hbase; [reflexivity|]. rewrite E. simpl. auto.
Qed.

End Maintains.

Section StoreEffects.
Context {A V MM MK : Type} `{Collaborators A V MM MK}.

Local Abbreviation Py := (@Py A V MM).
Local Abbreviation store := (@store A V MM).
Local Abbreviation event := (@event A V MM).
Local Abbreviation AnyBlock := (@AnyBlock A MM).

Lemma inject_motion_scale_steps attrs mk (st : store) :
  trace (snd (inject_motion_scale attrs mk st)) = trace st /\
  heap_frame KwNone mk st (snd (inject_motion_scale attrs mk st)) /\
  (motion_lora_scale attrs = None ->
   heap (snd (inject_motion_scale attrs mk st)) = heap st).
Proof.
  unfold inject_motion_scale, heap_frame.
  destruct (motion_lora_scale attrs) as [s|]; [destruct mk as [|l]|]; simpl.
  - split; [reflexivity|]. split; [|discriminate].
    rewrite length_app. split; [lia|]. intros r Hr _ _.
    now apply contents_of_app.
  - split; [reflexivity|]. split; [|discriminate].
    rewrite length_alter. split; [lia|]. intros r _ _ Hr.
    now apply contents_of_alter_ne.
  - auto.
Qed.

Lemma lora_injection_steps (self : AnyBlock) attrs ck (st : store) :
  trace (snd (lora_injection self attrs ck st)) = trace st /\
  heap_frame (lora_target self ck) KwNone st
    (snd (lora_injection self attrs ck st)) /\
  (lora_scale attrs = None \/ ~ In KAttn (block_kinds self) ->
   heap (snd (lora_injection self attrs ck st)) = heap st).
Proof.
  assert (Hrebind : forall c,
    let st' := snd (bind (inject_lora_scale_rebind attrs c)
                      (fun _ => ret tt : Py unit) st) in
    trace st' = trace st /\ heap_frame KwNone KwNone st st' /\
    (lora_scale attrs = None -> heap st' = heap st)).
  { intros c. unfold inject_lora_scale_rebind, heap_frame, bind.
    destruct (lora_scale attrs) as [s|]; simpl.
    - split; [reflexivity|]. split; [|discriminate].
      rewrite length_app. split; [lia|]. intros r Hr _ _.
      now apply contents_of_app.
    - auto. }
  assert (Hinplace : forall c,
    let st' := snd (inject_lora_scale_inplace attrs c st) in
    trace st' = trace st /\ heap_frame c KwNone st st' /\
    (lora_scale attrs = None -> heap st' = heap st)).
  { intros c. unfold inject_lora_scale_inplace, heap_frame.
    destruct (lora_scale attrs) as [s|]; [destruct c as [|l]|]; simpl.
    - split; [reflexivity|]. split; [|discriminate]. auto.
    - split; [reflexivity|]. split; [|discriminate].
      rewrite length_alter. split; [lia|]. intros r _ Hr _.
      now apply contents_of_alter_ne.
    - auto. }
  assert (Hattn : forall base : list op_kind,
    ~ In KAttn ((if forallb is_none (block_slots self) then [] else [KMotion])
                ++ base) -> ~ In KAttn base).
  { intros base Hn Hb. apply Hn. apply in_or_app. now right. }
  destruct self as [b | [b|b] | [b|b] tup size]; unfold lora_injection, lora_target.
  - destruct (Hrebind (default KwNone ck)) as (Ht & Hf & Hh).
    split; [exact Ht|]. split; [exact Hf|]. intros [E|E]; [now apply Hh|].
    apply Hattn in E. exfalso. apply E. simpl. auto.
  - simpl. unfold heap_frame. auto.
  - destruct (Hinplace (default (KwDict CrossAttnDown_cross_default) ck))
      as (Ht & Hf & Hh).
    split; [exact Ht|]. split; [exact Hf|]. intros [E|E]; [now apply Hh|].
    apply Hattn in E. exfalso. apply E. simpl. auto.
  - simpl. unfold heap_frame. auto.
  - destruct (Hrebind (default KwNone ck)) as (Ht & Hf & Hh).
    split; [exact Ht|]. split; [exact Hf|]. intros [E|E]; [now apply Hh|].
    apply Hattn in E. exfalso. apply E. simpl. auto.
Qed.

Lemma heap_frame_weaken ck mk ck' mk' (st st' : store) :
  (ck = KwNone \/ ck = ck') -> (mk = KwNone \/ mk = mk') ->
  heap_frame ck mk st st' -> heap_frame ck' mk' st st'.
Proof.
  intros Hc Hm [Hlen Hf]. split; [exact Hlen|]. intros r Hr Hr1 Hr2.
  apply Hf; [exact Hr| |].
  - destruct Hc as [->| ->]; [now destruct r | exact Hr1].
  - destruct Hm as [->| ->]; [now destruct r | exact Hr2].
Qed.

Lemma heap_frame_refl ck mk (st : store) : heap_frame ck mk st st.
Proof. split; [lia | reflexivity]. Qed.

Lemma heap_frame_trans ck mk (st1 st2 st3 : store) :
  heap_frame ck mk st1 st2 -> heap_frame ck mk st2 st3 -> heap_frame ck mk st1 st3.
Proof.
  intros [L1 F1] [L2 F2]. split; [lia|]. intros r Hr Hc Hm.
  rewrite F2, F1; auto. destruct r; simpl in *; [exact I | lia].
Qed.

(** A [forward] call only appends to the log, and every call it logs goes
    to a collaborator its block may call: the Mid block calls resnets and
    attention operators; a Down block calls resnets, with cross-attention
    also attention operators, and its downsampler if it has one; an Up
    block calls [torch.cat] and resnets, with cross-attention also
    attention operators, and its upsampler if it has one; and a motion
    module is called only by a block that holds one. This holds whether
    the call returns or raises. *)
Theorem block_calls_only (self : AnyBlock) attrs hs temb enc ck mk (st : store) :
  exists new,
    trace (store_after self attrs hs temb enc ck mk st) = trace st ++ new /\
    Forall (fun e => In (event_kind e) (block_kinds self)) new.
Proof.
  apply (store_after_maintains
           (fun st st' : store => exists new, trace st' = trace st ++ new /\
              Forall (fun e => In (event_kind e) (block_kinds self)) new)
           ltac:(intros s; exists []; split; [now rewrite app_nil_r | constructor])
           ltac:(intros s1 s2 s3 (n1 & E1 & F1) (n2 & E2 & F2);
                 exists (n1 ++ n2); split;
                 [now rewrite E2, E1, app_assoc | now apply Forall_app])
           (block_kinds self)
           ltac:(intros e s He; exists [e]; split;
                 [reflexivity | now constructor])).
  - auto.
  - intros s. exists []. rewrite app_nil_r. split; [|constructor].
    apply lora_injection_steps.
  - intros s. exists []. rewrite app_nil_r. split; [|constructor].
    apply inject_motion_scale_steps.
Qed.

(** A [forward] call removes no dictionary object, and the only
    dictionaries whose contents it may change are its motion keyword
    argument and, in CrossAttnDownBlock3D, its cross-attention keyword
    argument (for an omitted argument, the default object). *)
Theorem forward_keeps_other_dictionaries (self : AnyBlock) attrs hs temb enc
  ck mk (st : store) :
  heap_frame (lora_target self ck) (default (motion_default self) mk) st
    (store_after self attrs hs temb enc ck mk st).
Proof.
  apply (store_after_maintains
           (heap_frame (lora_target self ck) (default (motion_default self) mk))
           (heap_frame_refl _ _) (heap_frame_trans _ _) (block_kinds self)).
  - intros e s _. split; [simpl; lia | reflexivity].
  - auto.
  - intros s. eapply heap_frame_weaken; [| |apply lora_injection_steps]; auto.
  - intros s. eapply heap_frame_weaken; [| |apply inject_motion_scale_steps]; auto.
Qed.

(** With no motion scale set, and no spatial scale set or a block without
    attention, a [forward] call leaves every dictionary object as it is
    and creates none. *)
Theorem forward_without_scales_keeps_heap (self : AnyBlock) attrs hs temb enc
  ck mk (st : store) :
  motion_lora_scale attrs = None ->
  lora_scale attrs = None \/ ~ In KAttn (block_kinds self) ->
  heap (store_after self attrs hs temb enc ck mk st) = heap st.
Proof.
  intros Hm Hl.
  apply (store_after_maintains (fun st st' : store => heap st' = heap st)
           ltac:(intros s; reflexivity)
           ltac:(intros s1 s2 s3 E1 E2; cbv beta in *; congruence)
           (block_kinds self)
           ltac:(intros e s _; reflexivity)).
  - auto.
  - intros s. now apply lora_injection_steps.
  - intros s. now apply inject_motion_scale_steps.
Qed.

Lemma motion_configs_no_motion (new : list event) :
  Forall (fun e => event_kind e <> KMotion) new -> motion_configs new = [].
Proof.
  induction 1 as [|e new He _ IH]; [reflexivity|].
  destruct e; simpl in *; try exact IH. congruence.
Qed.

Lemma attn_configs_no_attn (new : list event) :
  Forall (fun e => event_kind e <> KAttn) new -> attn_configs new = [].
Proof.
  induction 1 as [|e new He _ IH]; [reflexivity|].
  destruct e; simpl in *; try exact IH. congruence.
Qed.

Lemma block_kinds_no_motion (self : AnyBlock) :
  Forall (fun slot => slot = None) (block_slots self) ->
  ~ In KMotion (block_kinds self).
Proof.
  intros Hs. unfold block_kinds.
  assert (E : forallb is_none (block_slots self) = true).
  { induction Hs as [|slot slots -> _ IH]; [reflexivity | exact IH]. }
  rewrite E. simpl.
  destruct self as [b | [b|b] | [b|b] tup size]; simpl;
    repeat match goal with
           | |- context [if ?c then _ else _] => destruct c
           end; simpl; intuition congruence.
Qed.

(** A block whose motion-module slots are all [None] never calls a motion
    module. *)
Lemma empty_slots_no_motion_call (self : AnyBlock) attrs hs temb enc ck mk
  (st : store) :
  Forall (fun slot => slot = None) (block_slots self) ->
  motion_configs (new_events st (store_after self attrs hs temb enc ck mk st))
  = [].
Proof.
  intros Hs.
  destruct (store_after_maintains
              (fun st st' : store => exists new, trace st' = trace st ++ new /\
                 Forall (fun e => event_kind e <> KMotion) new)
              ltac:(intros s; exists []; split;
                    [now rewrite app_nil_r | constructor])
              ltac:(intros s1 s2 s3 (n1 & E1 & F1) (n2 & E2 & F2);
                    exists (n1 ++ n2); split;
                    [now rewrite E2, E1, app_assoc | now apply Forall_app])
              (block_kinds self)
              ltac:(intros e s He; exists [e]; split; [reflexivity|];
                    constructor; [|constructor]; intros Hk; rewrite Hk in He;
                    now apply (block_kinds_no_motion self Hs))
              self attrs hs temb enc ck mk) with (st := st)
    as (new & E & Hnew).
  - auto.
  - intros s. exists []. rewrite app_nil_r. split; [|constructor].
    apply lora_injection_steps.
  - intros s. exists []. rewrite app_nil_r. split; [|constructor].
    apply inject_motion_scale_steps.
  - rewrite (new_events_app _ _ _ E). now apply motion_configs_no_motion.
Qed.

(** A block built with [use_motion_module = False] never calls a motion
    module, with whatever arguments its [forward] is called. *)
Theorem no_motion_module_no_motion_call (args : BlockArgs MK) (self : AnyBlock)
  attrs hs temb enc ck mk (st : store) :
  use_motion_module args = false ->
  match self with
  | MidBlock b => UNetMidBlock3DCrossAttn_init args = Ok b
  | ADownBlock b => exists cross_attn, DownBlock_init cross_attn args = Ok b
  | AnUpBlock b _ _ => exists cross_attn, UpBlock_init cross_attn args = Ok b
  end ->
  motion_configs (new_events st (store_after self attrs hs temb enc ck mk st))
  = [].
Proof.
  intros Hoff Hinit. apply empty_slots_no_motion_call.
  assert (Hnone : forall channels (slots : list (option MM)),
    Forall (fun slot => motion_module_slot args channels = Ok slot) slots ->
    Forall (fun slot => slot = None) slots).
  { intros channels slots Hs. eapply Forall_impl; [exact Hs|].
    intros slot E. cbv beta in E.
    rewrite (motion_module_slot_disabled args channels Hoff) in E.
    now injection E as <-. }
  destruct self as [b | b | b tup size].
  - apply (Hnone (in_channels args)). now apply Mid_init_slots.
  - destruct Hinit as [c Hinit]. apply (Hnone (out_channels args)).
    now apply (DownBlock_init_slots c).
  - destruct Hinit as [c Hinit]. apply (Hnone (out_channels args)).
    now apply (UpBlock_init_slots c).
Qed.

End StoreEffects.

Lemma forward_without_scales_keeps_heap_witness :
  heap (store_after (ADownBlock Toy.cross_down) Toy.eval_attrs Toy.latent
          (Some Toy.temb) None None None Toy.fresh_store)
  = heap Toy.fresh_store.
Proof.
  apply (forward_without_scales_keeps_heap (ADownBlock Toy.cross_down)
           Toy.eval_attrs).
  - reflexivity.
  - left. reflexivity.
Defined.

Lemma no_motion_module_no_motion_call_witness :
  motion_configs
    (new_events Toy.fresh_store
       (store_after (ADownBlock Toy.still_down) Toy.lora_attrs Toy.latent
          (Some Toy.temb) None None None Toy.fresh_store))
  = [].
Proof.
  apply (no_motion_module_no_motion_call Toy.still_args
           (ADownBlock Toy.still_down)).
  - reflexivity.
  - exists true. reflexivity.
Defined.

(** ** What the operators receive when a scale is set *)

Section ScaleInjection.
Context {A V MM MK : Type} `{Collaborators A V MM MK}.

Local Abbreviation Py := (@Py A V MM).
Local Abbreviation store := (@store A V MM).
Local Abbreviation event := (@event A V MM).
Local Abbreviation AnyBlock := (@AnyBlock A MM).

(** After the prelude has left the references [ck'] and [mk'] and the
    store [st1], every operator receives its reference with the contents
    it has in [st1], and the dictionaries stay as they are in [st1]. *)
Lemma configs_after_prelude {X} lora attrs hs temb ck mk (scale : option V)
  (rest : nat * Tensor A * kwref * kwref -> Py X) (st : store) :
  injection_frame (lora attrs ck) scale ck ->
  (forall F tr ck' mk' h,
     emits_at h (config_event h ck' mk') (rest (F, tr, ck', mk'))) ->
  exists new,
    trace (snd (bind (run_prelude lora attrs hs temb ck mk) rest st))
    = trace st ++ new /\
    match run_prelude lora attrs hs temb ck mk st with
    | (Ok (F, tr, ck', mk'), st1) =>
        Forall (config_event (heap st1) ck' mk') new /\
        heap (snd (bind (run_prelude lora attrs hs temb ck mk) rest st)) = heap st1
    | (Raise _, _) => new = []
    end.
Proof.
  intros Hlora Hrest.
  destruct (run_prelude_spec lora attrs hs temb ck mk scale Hlora st)
    as [Ht _].
  unfold bind.
  destruct (run_prelude lora attrs hs temb ck mk st)
    as [[[[[F tr] ck'] mk']|e] st1] eqn:Ep; simpl in Ht.
  - destruct (Hrest F tr ck' mk' (heap st1) st1 eq_refl) as [Hh [new [Hn HP]]].
    exists new. rewrite Hn, Ht. split; [reflexivity|]. now split.
  - exists []. simpl. rewrite Ht, app_nil_r. split; reflexivity.
Qed.

Lemma DownBlock3D_configs (b : DownBlock3D MM) attrs hs temb enc ck mk (st : store) :
  exists new,
    trace (snd (DownBlock3D_forward b attrs hs temb enc mk st)) = trace st ++ new /\
    match run_prelude lora_unread attrs hs temb ck
        (default (KwDict Down_motion_default) mk) st with
    | (Ok (F, tr, ck', mk'), st1) =>
        Forall (config_event (heap st1) ck' mk') new /\
        heap (snd (DownBlock3D_forward b attrs hs temb enc mk st)) = heap st1
    | (Raise _, _) => new = []
    end.
Proof.
  rewrite (DownBlock3D_forward_eq b attrs hs temb enc ck).
  apply (configs_after_prelude lora_unread _ _ _ _ _ None).
  - apply lora_unread_frame.
  - intros F tr ck' mk' h.
    apply (emits_at_weaken _ _ _ _ (layer_event_config h ck' mk')).
    apply for_each_then_emits.
    + intros. apply Down_layer_emits.
    + intros. apply down_tail_emits.
Qed.

Lemma CrossAttnDownBlock3D_configs (b : CrossAttnDownBlock3D MM) attrs hs temb
  enc ck mk (st : store) :
  exists new,
    trace (snd (CrossAttnDownBlock3D_forward b attrs hs temb enc ck mk st))
    = trace st ++ new /\
    match run_prelude lora_inplace attrs hs temb
        (default (KwDict CrossAttnDown_cross_default) ck)
        (default (KwDict CrossAttnDown_motion_default) mk) st with
    | (Ok (F, tr, ck', mk'), st1) =>
        Forall (config_event (heap st1) ck' mk') new /\
        heap (snd (CrossAttnDownBlock3D_forward b attrs hs temb enc ck mk st)) = heap st1
    | (Raise _, _) => new = []
    end.
Proof.
  rewrite CrossAttnDownBlock3D_forward_eq.
  apply (configs_after_prelude lora_inplace _ _ _ _ _ (lora_scale attrs)).
  - apply lora_inplace_frame.
  - intros F tr ck' mk' h.
    apply (emits_at_weaken _ _ _ _ (layer_event_config h ck' mk')).
    apply for_each_then_emits.
    + intros. apply CrossAttnDown_layer_emits.
    + intros. apply down_tail_emits.
Qed.

Lemma UpBlock3D_configs (b : UpBlock3D MM) attrs hs tup temb enc size ck mk
  (st : store) :
  exists new,
    trace (snd (UpBlock3D_forward b attrs hs tup temb size enc mk st))
    = trace st ++ new /\
    match run_prelude lora_unread attrs hs temb ck
        (default (KwDict Up_motion_default) mk) st with
    | (Ok (F, tr, ck', mk'), st1) =>
        Forall (config_event (heap st1) ck' mk') new /\
        heap (snd (UpBlock3D_forward b attrs hs tup temb size enc mk st)) = heap st1
    | (Raise _, _) => new = []
    end.
Proof.
  unfold UpBlock3D_forward.
  rewrite (bind_ext_l _ _ _ _
             (UpBlock3D_layers_eq b attrs hs tup temb enc ck mk)).
  rewrite bind_assoc.
  apply (configs_after_prelude lora_unread _ _ _ _ _ None).
  - apply lora_unread_frame.
  - intros F tr ck' mk' h.
    apply emits_at_bind; [apply emits_at_bind|].
    + apply emits_at_for_each. intros. apply Up_layer_emits.
    + intros. apply emits_at_ret.
    + intros [F' [h' t']].
      apply (emits_at_weaken _ _ _ _ (layer_event_config h ck' mk')).
      apply up_tail_emits.
Qed.

Lemma CrossAttnUpBlock3D_configs (b : CrossAttnUpBlock3D MM) attrs hs tup temb
  enc size ck mk (st : store) :
  exists new,
    trace (snd (CrossAttnUpBlock3D_forward b attrs hs tup temb enc size ck mk st))
    = trace st ++ new /\
    match run_prelude inject_lora_scale_rebind attrs hs temb (default KwNone ck)
        (default (KwDict CrossAttnUp_motion_default) mk) st with
    | (Ok (F, tr, ck', mk'), st1) =>
        Forall (config_event (heap st1) ck' mk') new /\
        heap (snd (CrossAttnUpBlock3D_forward b attrs hs tup temb enc size ck mk st)) = heap st1
    | (Raise _, _) => new = []
    end.
Proof.
  unfold CrossAttnUpBlock3D_forward.
  rewrite (bind_ext_l _ _ _ _
             (CrossAttnUpBlock3D_layers_eq b attrs hs tup temb enc ck mk)).
  rewrite bind_assoc.
  apply (configs_after_prelude inject_lora_scale_rebind _ _ _ _ _ (lora_scale attrs)).
  - apply inject_lora_scale_rebind_frame.
  - intros F tr ck' mk' h.
    apply emits_at_bind; [apply emits_at_bind|].
    + apply emits_at_for_each. intros. apply CrossAttnUp_layer_emits.
    + intros. apply emits_at_ret.
    + intros [F' [h' t']].
      apply (emits_at_weaken _ _ _ _ (layer_event_config h ck' mk')).
      apply up_tail_emits.
Qed.

Lemma Mid_configs (b : UNetMidBlock3DCrossAttn MM) attrs hs temb enc ck mk
  (st : store) :
  exists ev0 (st_a : store) new,
    heap st_a = heap st /\
    Forall (fun e => event_kind e = KResnet) ev0 /\
    trace (snd (UNetMidBlock3DCrossAttn_forward b attrs hs temb enc ck mk st))
    = trace st ++ ev0 ++ new /\
    match run_prelude inject_lora_scale_rebind attrs hs temb (default KwNone ck)
            (default KwNone mk) st_a with
    | (Ok (F, tr, ck', mk'), st1) => Forall (config_event (heap st1) ck' mk') new
    | (Raise _, _) => new = []
    end.
Proof.
  unfold UNetMidBlock3DCrossAttn_forward.
  unfold bind at 1. unfold lift at 1.
  destruct (video_length_of hs) as [F|e] eqn:EF.
  2:{ exists [], st, []. simpl. rewrite app_nil_r.
      repeat split; [constructor|].
      unfold run_prelude, bind, lift. now rewrite EF. }
  unfold bind at 1. unfold lift at 1.
  destruct (repeat_temb temb F) as [tr|e] eqn:Etr.
  2:{ exists [], st, []. simpl. rewrite app_nil_r.
      repeat split; [constructor|].
      unfold run_prelude, bind, lift. now rewrite EF, Etr. }
  set (first_resnet := fun x =>
         bind (lift (list_first (mid_resnets b)))
           (fun resnet0 => call_resnet resnet0 x tr)).
  assert (Hfirst : forall y,
            emits_at (heap st) (fun e => event_kind e = KResnet)
              (first_resnet y)).
  { intros y. apply emits_at_bind; [apply emits_at_lift|].
    intros r0. unfold call_resnet.
    apply emits_at_bind; [now apply emits_at_emit | intros; apply emits_at_lift]. }
  destruct (per_frame_emits (heap st) (fun e => event_kind e = KResnet) F
              first_resnet hs Hfirst st eq_refl)
    as [Hh [new_a [Ha HPa]]].
  unfold bind at 1.
  destruct (per_frame F first_resnet hs st) as [[hs1|e] st_a]; simpl in Hh, Ha.
  - rewrite <- (run_prelude_known inject_lora_scale_rebind attrs hs temb
                  (default KwNone ck) (default KwNone mk) F tr
                  (fun '(F', tr', ck', mk') =>
                     for_each (Mid_layer F' temb tr' enc ck' mk')
                       (zip3 (mid_attentions b) (tl (mid_resnets b))
                          (mid_motion_modules b)) hs1) st_a EF Etr).
    destruct (configs_after_prelude inject_lora_scale_rebind attrs hs temb
                (default KwNone ck) (default KwNone mk) (lora_scale attrs)
                (fun '(F', tr', ck', mk') =>
                     for_each (Mid_layer F' temb tr' enc ck' mk')
                       (zip3 (mid_attentions b) (tl (mid_resnets b))
                          (mid_motion_modules b)) hs1) st_a)
      as [new_b [Hb Hm]].
    + apply inject_lora_scale_rebind_frame.
    + intros F' tr' ck' mk' h.
      apply (emits_at_weaken _ _ _ _ (layer_event_config h ck' mk')).
      apply emits_at_for_each. intros. apply Mid_layer_emits.
    + exists new_a, st_a, new_b. rewrite Hb, Ha, app_assoc.
      repeat split; [exact Hh | exact HPa |].
      destruct (run_prelude inject_lora_scale_rebind attrs hs temb
                  (default KwNone ck) (default KwNone mk) st_a)
        as [[[[[F' tr'] ck'] mk']|e] st1]; [apply Hm | exact Hm].
  - exists new_a, st_a, []. simpl. rewrite app_nil_r.
    repeat split; [exact Hh | exact HPa | exact Ha |].
    destruct (run_prelude inject_lora_scale_rebind attrs hs temb
                (default KwNone ck) (default KwNone mk) st_a)
      as [[[[[F' tr'] ck'] mk']|e0] st1]; [constructor | reflexivity].
Qed.

(** *** The outcome of the prelude *)

Lemma run_prelude_Ok_inv lora attrs hs temb ck mk (st : store) F tr ck' mk' st1 :
  run_prelude lora attrs hs temb ck mk st = (Ok (F, tr, ck', mk'), st1) ->
  exists st_a, lora attrs ck st = (Ok ck', st_a) /\
               inject_motion_scale attrs mk st_a = (Ok mk', st1).
Proof.
  unfold run_prelude. intros E.
  apply bind_Ok_inv in E as (F0 & s0 & E0 & E).
  apply bind_Ok_inv in E as (tr0 & s1 & E1 & E).
  apply bind_Ok_inv in E as (ck0 & s2 & E2 & E).
  apply bind_Ok_inv in E as (mk0 & s3 & E3 & E).
  unfold lift in E0, E1. injection E0 as E0 <-. injection E1 as E1 <-.
  unfold ret in E. injection E as <- <- <- <- <-. eauto.
Qed.

Lemma inject_motion_scale_set attrs mk sm (st : store) :
  motion_lora_scale attrs = Some sm ->
  inject_motion_scale attrs mk st
  = match mk with
    | KwNone =>
        (Ok (KwDict (length (heap st))),
         mkStore (heap st ++ [{[ "scale" := sm ]}]) (trace st))
    | KwDict l =>
        (Ok mk,
         mkStore (alter (fun old => {[ "scale" := sm ]} ∪ old) l (heap st))
           (trace st))
    end.
Proof. intros E. unfold inject_motion_scale. rewrite E. now destruct mk. Qed.

Lemma inject_motion_scale_unset attrs mk (st : store) :
  motion_lora_scale attrs = None ->
  inject_motion_scale attrs mk st = (Ok mk, st).
Proof. intros E. unfold inject_motion_scale. now rewrite E. Qed.

(** [h_a] has every dictionary of [h], with the same contents up to the
    entry of [scale]. *)
Local Abbreviation same_up_to_scale sm h h_a :=
  (length h <= length h_a /\
   forall l d, h%list !! l = Some d ->
     exists d', h_a%list !! l = Some d' /\
                <[ "scale" := sm ]> d' = <[ "scale" := sm ]> d).

Lemma lora_unread_same attrs ck (st st_a : store) ck' (sm : V) :
  lora_unread attrs ck st = (Ok ck', st_a) ->
  same_up_to_scale sm (heap st) (heap st_a).
Proof.
  unfold lora_unread, ret. intros E. injection E as <- <-.
  split; [lia|]. eauto.
Qed.

Lemma lora_inplace_same attrs ck (st st_a : store) ck' (sm : V) :
  lora_inplace attrs ck st = (Ok ck', st_a) ->
  same_up_to_scale sm (heap st) (heap st_a).
Proof.
  unfold lora_inplace, inject_lora_scale_inplace.
  destruct (lora_scale attrs) as [s|]; [destruct ck as [|lc]|]; simpl.
  - discriminate.
  - unfold bind. simpl. intros E. injection E as <- <-. simpl.
    rewrite length_alter. split; [lia|]. intros l d Hd.
    destruct (decide (lc = l)) as [->|Hne].
    + exists (<[ "scale" := s ]> d). rewrite list_lookup_alter_eq, Hd.
      split; [reflexivity|]. apply insert_insert_eq.
    + exists d. rewrite list_lookup_alter_ne by exact Hne. now split.
  - unfold bind. simpl. intros E. injection E as <- <-.
    split; [lia|]. eauto.
Qed.

Lemma inject_lora_scale_rebind_same attrs ck (st st_a : store) ck' (sm : V) :
  inject_lora_scale_rebind attrs ck st = (Ok ck', st_a) ->
  same_up_to_scale sm (heap st) (heap st_a).
Proof.
  unfold inject_lora_scale_rebind.
  destruct (lora_scale attrs) as [s|]; simpl; intros E; injection E as <- <-.
  - simpl. rewrite length_app. split; [lia|]. intros l d Hd. exists d.
    split; [|reflexivity]. rewrite lookup_app_l; [exact Hd|].
    now apply lookup_lt_Some in Hd.
  - split; [lia|]. eauto.
Qed.

(** What the motion-scale injection leaves: the argument's dictionary
    with the scale stored under ["scale"], or for [None] a new dictionary
    holding only the scale. *)
Lemma motion_contents_after attrs mk sm (h : list (gmap string V))
  (st_a st1 : store) mk' :
  motion_lora_scale attrs = Some sm ->
  match mk with KwDict l => l < length h | KwNone => True end ->
  same_up_to_scale sm h (heap st_a) ->
  inject_motion_scale attrs mk st_a = (Ok mk', st1) ->
  contents_of (heap st1) mk'
  = Some (<[ "scale" := sm ]> (default ∅ (contents_of h mk))) /\
  match mk with
  | KwNone => exists l, mk' = KwDict l /\ length h <= l
  | KwDict _ => mk' = mk
  end.
Proof.
  intros Hm Hok [Hlen Hsame] E. rewrite (inject_motion_scale_set _ _ sm) in E
    by exact Hm.
  destruct mk as [|l]; injection E as <- <-; unfold contents_of, loc in *;
    cbn [heap].
  - rewrite list_lookup_middle by reflexivity. cbn [default].
    rewrite insert_empty. split; [reflexivity|]. eauto.
  - destruct (lookup_lt_is_Some_2 h l Hok) as [d Hd].
    destruct (Hsame l d Hd) as (d' & Hd' & Heq).
    rewrite list_lookup_alter_eq, Hd', Hd. cbn [default fmap option_fmap option_map].
    rewrite <- insert_union_singleton_l, Heq. now split.
Qed.

Lemma motion_configs_from_prelude lora attrs hs temb ck mk (st_a : store)
  (new : list event) sm :
  (forall ck' s', lora attrs ck st_a = (Ok ck', s') ->
                  same_up_to_scale sm (heap st_a) (heap s')) ->
  motion_lora_scale attrs = Some sm ->
  kwref_ok st_a mk ->
  match run_prelude lora attrs hs temb ck mk st_a with
  | (Ok (F, tr, ck', mk'), st1) => Forall (config_event (heap st1) ck' mk') new
  | (Raise _, _) => new = []
  end ->
  exists r,
    Forall (eq (r, Some (<[ "scale" := sm ]>
                           (default ∅ (contents_of (heap st_a) mk)))))
      (motion_configs new) /\
    match mk with
    | KwNone => exists l, r = KwDict l /\ length (heap st_a) <= l
    | KwDict _ => r = mk
    end.
Proof.
  intros Hlora Hm Hok Hnew.
  destruct (run_prelude lora attrs hs temb ck mk st_a)
    as [[[[[F tr] ck'] mk']|e] st1] eqn:Ep.
  - apply run_prelude_Ok_inv in Ep as (s' & El & Em).
    destruct (motion_contents_after attrs mk sm (heap st_a) s' st1 mk' Hm Hok
                (Hlora _ _ El) Em) as [Hc Hr].
    apply config_event_configs in Hnew as [Hcfg _].
    exists mk'. rewrite <- Hc. now split.
  - subst new. destruct mk as [|l].
    + exists (KwDict (length (heap st_a))). split; [constructor|]. eauto.
    + exists (KwDict l). split; [constructor | reflexivity].
Qed.

Lemma attn_configs_rebind attrs hs temb ck mk (st_a : store)
  (new : list event) s :
  lora_scale attrs = Some s ->
  kwref_ok st_a mk ->
  match run_prelude inject_lora_scale_rebind attrs hs temb ck mk st_a with
  | (Ok (F, tr, ck', mk'), st1) => Forall (config_event (heap st1) ck' mk') new
  | (Raise _, _) => new = []
  end ->
  Forall (eq (KwDict (length (heap st_a)), Some {[ "scale" := s ]}))
    (attn_configs new).
Proof.
  intros Hl Hok Hnew.
  destruct (run_prelude inject_lora_scale_rebind attrs hs temb ck mk st_a)
    as [[[[[F tr] ck'] mk']|e] st1] eqn:Ep; [|subst new; constructor].
  apply run_prelude_Ok_inv in Ep as (s' & El & Em).
  unfold inject_lora_scale_rebind in El. rewrite Hl in El.
  injection El as <- <-.
  apply config_event_configs in Hnew as [_ Hcfg].
  assert (Hc : contents_of (heap st1) (KwDict (length (heap st_a)))
               = Some {[ "scale" := s ]}).
  { unfold contents_of, loc in *.
    destruct (motion_lora_scale attrs) as [sm|] eqn:Hm.
    - rewrite (inject_motion_scale_set _ _ sm) in Em by exact Hm.
      destruct mk as [|l]; injection Em as <- <-; cbn [heap].
      + rewrite lookup_app_l by (rewrite length_app; simpl; lia).
        now rewrite list_lookup_middle.
      + simpl in Hok. rewrite list_lookup_alter_ne by lia.
        now rewrite list_lookup_middle.
    - rewrite inject_motion_scale_unset in Em by exact Hm.
      injection Em as <- <-. cbn [heap]. now rewrite list_lookup_middle. }
  now rewrite <- Hc.
Qed.

Lemma lora_inplace_prelude attrs hs temb lc mk (st : store) s F tr :
  lora_scale attrs = Some s ->
  lc < length (heap st) ->
  motion_lora_scale attrs = None \/ no_alias (KwDict lc) mk ->
  video_length_of hs = Ok F -> repeat_temb temb F = Ok tr ->
  exists mk' st1,
    run_prelude lora_inplace attrs hs temb (KwDict lc) mk st
    = (Ok (F, tr, KwDict lc, mk'), st1) /\
    contents_of (heap st1) (KwDict lc)
    = Some (<[ "scale" := s ]> (default ∅ (heap st !! lc))).
Proof.
  intros Hl Hok Hna EF Etr.
  unfold run_prelude, bind, lift. rewrite EF, Etr.
  unfold lora_inplace, inject_lora_scale_inplace, bind. rewrite Hl. simpl.
  unfold contents_of, loc in *.
  destruct (lookup_lt_is_Some_2 (heap st) lc Hok) as [d Hd].
  destruct (motion_lora_scale attrs) as [sm|] eqn:Hm.
  - rewrite (inject_motion_scale_set _ _ sm) by exact Hm.
    destruct Hna as [Hna|Hna]; [discriminate|].
    destruct mk as [|l]; cbn [heap].
    + eexists _, _. split; [reflexivity|]. cbn [heap].
      rewrite lookup_app_l by (rewrite length_alter; lia).
      now rewrite list_lookup_alter_eq, Hd.
    + eexists _, _. split; [reflexivity|]. cbn [heap]. simpl in Hna.
      rewrite list_lookup_alter_ne by congruence.
      now rewrite list_lookup_alter_eq, Hd.
  - rewrite inject_motion_scale_unset by exact Hm.
    eexists _, _. split; [reflexivity|]. cbn [heap].
    now rewrite list_lookup_alter_eq, Hd.
Qed.




(** CrossAttnDownBlock3D called with [cross_attention_kwargs=None] and a
    spatial scale set raises [TypeError] before any collaborator is
    called: it assigns to an item of the argument. (The Mid and
    CrossAttnUp blocks, whose parameter defaults to [None], rebind it
    instead.) *)
Theorem none_kwargs_with_scale_raise (b : CrossAttnDownBlock3D MM) attrs hs
  temb enc mk (st : store) s F tr :
  lora_scale attrs = Some s ->
  video_length_of hs = Ok F -> repeat_temb temb F = Ok tr ->
  CrossAttnDownBlock3D_forward b attrs hs temb enc (Some KwNone) mk st
  = (Raise TypeError, st).
Proof.
  intros Hl EF Etr. unfold CrossAttnDownBlock3D_forward, bind, lift.
  rewrite EF, Etr. unfold inject_lora_scale_inplace. rewrite Hl. reflexivity.
Qed.

End ScaleInjection.




Lemma none_kwargs_with_scale_raise_witness :
  CrossAttnDownBlock3D_forward Toy.cross_down_block Toy.lora_attrs Toy.latent
    (Some Toy.temb) None (Some KwNone) None Toy.fresh_store
  = (Raise TypeError, Toy.fresh_store).
Proof.
  apply (none_kwargs_with_scale_raise Toy.cross_down_block Toy.lora_attrs
           Toy.latent (Some Toy.temb) None None Toy.fresh_store 3%Z 2
           (mkTensor [2; 1] [0%Z; 0%Z])); reflexivity.
Defined.

(** ** Consecutive per-frame operators *)

Section Fusion.
Context {A V MM MK : Type} `{Collaborators A V MM MK}.

Local Abbreviation Py := (@Py A V MM).
Local Abbreviation store := (@store A V MM).

(** Between two consecutive per-frame operators, as between the resnet
    and the attention operator of a layer, the code unflattens the frames
    and flattens them again. When the first operator returns well-formed
    (N, C, H, W) tensors whose batch length the frame count divides, the
    two reshapes cancel: the second operator receives exactly what the
    first one returned, and the pair behaves as one flatten, the two
    operators, and one unflatten. *)
Theorem per_frame_fusion (F : nat) (op1 op2 : Tensor A -> Py (Tensor A))
  (hs : Tensor A) (st : store) :
  0 < F ->
  (forall x, flatten_frames hs = Ok x ->
     forall s y s', op1 x s = (Ok y, s') ->
       exists n c h w, shape y = [n; c; h; w] /\ wf_tensor y /\ n mod F = 0) ->
  bind (per_frame F op1 hs) (per_frame F op2) st
  = bind (lift (flatten_frames hs))
      (fun x => bind (op1 x)
         (fun y => bind (op2 y)
            (fun z => lift (unflatten_frames z F)))) st.
Proof.
  intros HF Hop. unfold per_frame, bind, lift.
  destruct (flatten_frames hs) as [x|e] eqn:Ex; [|reflexivity].
  destruct (op1 x st) as [[y|e] s'] eqn:E1; [|reflexivity].
  destruct (Hop x eq_refl st y s' E1) as (n & c & h & w & Hs & Hwf & Hdiv).
  pose proof (unflatten_then_flatten y n c h w F Hs Hwf HF Hdiv) as Hrt.
  destruct (unflatten_frames y F) as [u|e]; simpl in Hrt; [|discriminate].
  now rewrite Hrt.
Qed.

End Fusion.

Lemma per_frame_fusion_witness :
  let resnet := make_resnet Toy.down_args (Some 1%Z) 1 1 in
  let op := fun x => call_resnet resnet x Toy.temb in
  bind (per_frame 2 op Toy.latent) (per_frame 2 op) Toy.fresh_store
  = bind (lift (flatten_frames Toy.latent))
      (fun x => bind (op x)
         (fun y => bind (op y)
            (fun z => lift (unflatten_frames z 2)))) Toy.fresh_store.
Proof.
  intros resnet op.
  apply (per_frame_fusion 2 op op Toy.latent Toy.fresh_store); [lia|].
  intros x Hx s y s' E. vm_compute in Hx. injection Hx as <-.
  unfold op, call_resnet, bind, emit, lift in E. simpl in E.
  injection E as <- _. exists 2, 1, 2, 2.
  split; [reflexivity|]. split; [reflexivity | reflexivity].
Defined.

(** ** Blocks built by the factory *)

Section FactoryBuilt.
Context {A V MM MK : Type} `{Collaborators A V MM MK}.

Lemma substring_all (t : string) : String.substring 0 (String.length t) t = t.
Proof. induction t as [|a t IH]; simpl; [reflexivity | now rewrite IH]. Qed.

Lemma strip_UNetRes_prefixed (t : string) : strip_UNetRes ("UNetRes" ++ t) = t.
Proof.
  unfold strip_UNetRes, String.app. simpl.
  replace (String.prefix "" t) with true by (now destruct t).
  rewrite Nat.sub_0_r. apply substring_all.
Qed.

(** The factories strip the prefix ["UNetRes"] once: a block type with
    the prefix builds what the block type without it builds. *)
Theorem factory_prefix_stripped_once (t : string) (fa : FactoryArgs MK) :
  String.prefix "UNetRes" t = false ->
  get_down_block (MM := MM) ("UNetRes" ++ t) fa = get_down_block t fa /\
  get_up_block (MM := MM) ("UNetRes" ++ t) fa = get_up_block t fa.
Proof.
  intros Hp.
  assert (Hs : strip_UNetRes t = t) by (unfold strip_UNetRes; now rewrite Hp).
  unfold get_down_block, get_up_block. cbv zeta.
  rewrite strip_UNetRes_prefixed, Hs. split; reflexivity.
Qed.

(** A Down block the factory returns has [num_layers] resnets, the first
    from [in_channels] and the others from [out_channels], all to
    [out_channels], with the factory's hyper-parameters and the
    constructor's defaults for the three it does not pass ([dropout] 0,
    [output_scale_factor] 1, [resnet_pre_norm] true); it has one
    downsampler exactly when [add_downsample] is set, and one
    motion-module slot per layer. *)
Theorem factory_built_down_block (tag : string) (fa : FactoryArgs MK)
  (b : DownBlock MM) :
  get_down_block tag fa = Ok b ->
  down_resnets b
  = map (fun i =>
           mkResnetBlock2D
             (if i =? 0 then f_in_channels fa else f_out_channels fa)
             (f_out_channels fa) (f_temb_channels fa) (f_resnet_eps fa)
             (f_resnet_groups fa) 0 (f_resnet_time_scale_shift fa)
             (f_resnet_act_fn fa) 1 true)
        (range (f_num_layers fa)) /\
  down_downsamplers b
  = (if f_add_sample fa
     then Some [mkDownsample2D (f_out_channels fa) true (f_out_channels fa)
                  (f_downsample_padding fa) "op"]
     else None) /\
  length (block_slots (ADownBlock b : @AnyBlock A MM)) = f_num_layers fa.
Proof.
  unfold get_down_block. intros E.
  destruct (String.eqb (strip_UNetRes tag) "DownBlock3D").
  - apply rbind_Ok in E as [b0 [E1 E2]]. injection E2 as <-.
    unfold DownBlock3D_init in E1.
    apply rbind_Ok in E1 as [[[c rs] ms] [E1 E2]].
    apply rbind_Ok in E2 as [ds [Eds E2]]. injection E2 as <-.
    apply make_downsamplers_Ok in Eds. subst ds.
    apply Down_init_loop in E1 as (-> & new & -> & Hlen & _). simpl.
    repeat split. exact Hlen.
  - destruct (String.eqb (strip_UNetRes tag) "CrossAttnDownBlock3D");
      [|discriminate].
    destruct (f_cross_attention_dim fa); [|discriminate].
    apply rbind_Ok in E as [b0 [E1 E2]]. injection E2 as <-.
    unfold CrossAttnDownBlock3D_init in E1.
    apply rbind_Ok in E1 as [[[[c rs] ats] ms] [E1 E2]].
    apply rbind_Ok in E2 as [ds [Eds E2]]. injection E2 as <-.
    apply make_downsamplers_Ok in Eds. subst ds.
    apply CrossAttnDown_init_loop in E1 as (-> & _ & new & -> & Hlen & _).
    simpl. repeat split. exact Hlen.
Qed.

(** An Up block the factory returns has [num_layers] resnets to
    [out_channels]; resnet [i] takes [prev_output_channel] (for [i = 0]) or
    [out_channels] plus the skip channels, [in_channels] for the last
    layer and [out_channels] otherwise; and it has one upsampler exactly
    when [add_upsample] is set. *)
Theorem factory_built_up_block (tag : string) (fa : FactoryArgs MK)
  (b : UpBlock MM) :
  get_up_block tag fa = Ok b ->
  up_block_resnets b
  = map (fun i =>
           mkResnetBlock2D
             (Z.add
                (if i =? 0 then f_prev_output_channel fa else f_out_channels fa)
                (if (Z.of_nat i =? Z.of_nat (f_num_layers fa) - 1)%Z
                 then f_in_channels fa else f_out_channels fa))
             (f_out_channels fa) (f_temb_channels fa) (f_resnet_eps fa)
             (f_resnet_groups fa) 0 (f_resnet_time_scale_shift fa)
             (f_resnet_act_fn fa) 1 true)
        (range (f_num_layers fa)) /\
  up_block_upsamplers b
  = (if f_add_sample fa
     then Some [mkUpsample2D (f_out_channels fa) true (f_out_channels fa)]
     else None).
Proof.
  unfold get_up_block. intros E.
  destruct (String.eqb (strip_UNetRes tag) "UpBlock3D").
  - apply rbind_Ok in E as [b0 [E1 E2]]. injection E2 as <-.
    unfold UpBlock3D_init in E1.
    apply rbind_Ok in E1 as [[rs ms] [E1 E2]].
    apply rbind_Ok in E2 as [us [Eus E2]]. injection E2 as <-.
    apply make_upsamplers_Ok in Eus. subst us.
    apply Up_init_loop_full in E1 as (-> & _). simpl. split; reflexivity.
  - destruct (String.eqb (strip_UNetRes tag) "CrossAttnUpBlock3D");
      [|discriminate].
    destruct (f_cross_attention_dim fa); [|discriminate].
    apply rbind_Ok in E as [b0 [E1 E2]]. injection E2 as <-.
    unfold CrossAttnUpBlock3D_init in E1.
    apply rbind_Ok in E1 as [[[rs ats] ms] [E1 E2]].
    apply rbind_Ok in E2 as [us [Eus E2]]. injection E2 as <-.
    apply make_upsamplers_Ok in Eus. subst us.
    apply CrossAttnUp_init_loop_full in E1 as (-> & _). simpl.
    split; reflexivity.
Qed.

End FactoryBuilt.

Lemma factory_prefix_stripped_once_witness :
  get_down_block (MM := Z) "UNetResDownBlock3D" (Toy.factory_args 1 None false)
  = get_down_block "DownBlock3D" (Toy.factory_args 1 None false).
Proof.
  apply (factory_prefix_stripped_once (MM := Z) "DownBlock3D"
           (Toy.factory_args 1 None false)).
  reflexivity.
Defined.

Lemma factory_built_down_block_witness :
  map rn_in_channels (down_resnets Toy.factory_down) = [4; 8]%Z /\
  map rn_out_channels (down_resnets Toy.factory_down) = [8; 8]%Z.
Proof.
  destruct (factory_built_down_block "CrossAttnDownBlock3D"
              (Toy.factory_args 2 (Some 8%Z) false) Toy.factory_down)
    as (Hr & _); [reflexivity|].
  rewrite Hr. split; reflexivity.
Defined.

Lemma factory_built_up_block_witness :
  map rn_in_channels (up_block_resnets Toy.factory_up) = [16; 12]%Z.
Proof.
  destruct (factory_built_up_block "UNetResUpBlock3D"
              (Toy.factory_args 2 None false) Toy.factory_up)
    as (Hr & _); [reflexivity|].
  rewrite Hr. reflexivity.
Defined.

(** ** The order of the calls *)

Section CallOrder.
Context {A V MM MK : Type} `{Collaborators A V MM MK}.

Local Abbreviation Py := (@Py A V MM).
Local Abbreviation store := (@store A V MM).
Local Abbreviation event := (@event A V MM).
Local Abbreviation AnyBlock := (@AnyBlock A MM).
Local Abbreviation operator := (@operator MM).
Local Abbreviation calls_in_order := (@calls_in_order A V MM).

Lemma calls_in_order_eq (e e' : list operator) {X} (m : Py X) :
  e = e' -> calls_in_order e m -> calls_in_order e' m.
Proof. now intros ->. Qed.

Lemma calls_in_order_silent {X} (m : Py X) :
  (forall st, trace (snd (m st)) = trace st) -> calls_in_order [] m.
Proof.
  intros Hm st. exists []. rewrite app_nil_r. split; [apply Hm|].
  destruct (fst (m st)); [reflexivity | now exists []].
Qed.

Lemma calls_in_order_raises (e : list operator) {X} (m : Py X) :
  (forall st, trace (snd (m st)) = trace st /\ exists x, fst (m st) = Raise x) ->
  calls_in_order e m.
Proof.
  intros Hm st. destruct (Hm st) as [Ht [x Hx]].
  exists []. rewrite app_nil_r. split; [exact Ht|]. rewrite Hx. now exists e.
Qed.

Lemma calls_in_order_lift {X} (r : result X) : calls_in_order [] (lift r : Py X).
Proof. now apply calls_in_order_silent. Qed.

Lemma calls_in_order_ret {X} (x : X) : calls_in_order [] (ret x : Py X).
Proof. now apply calls_in_order_silent. Qed.

Lemma calls_in_order_emit (e : event) :
  calls_in_order [event_operator e] (emit e).
Proof. intros st. exists [e]. now split. Qed.

Lemma calls_in_order_bind (e1 e2 : list operator) {X Y} (m : Py X)
  (k : X -> Py Y) :
  calls_in_order e1 m -> (forall x, calls_in_order e2 (k x)) ->
  calls_in_order (e1 ++ e2) (bind m k).
Proof.
  intros Hm Hk st. unfold bind. destruct (Hm st) as (new1 & Ht1 & Hr1).
  destruct (m st) as [[x|ex] st1]; simpl in *.
  - destruct (Hk x st1) as (new2 & Ht2 & Hr2). exists (new1 ++ new2).
    rewrite Ht2, Ht1, app_assoc. split; [reflexivity|].
    rewrite map_app, Hr1.
    destruct (fst (k x st1)); [now rewrite Hr2|].
    destruct Hr2 as [rest ->]. exists rest. now rewrite app_assoc.
  - exists new1. split; [exact Ht1|]. destruct Hr1 as [rest ->].
    exists (rest ++ e2). now rewrite app_assoc.
Qed.

Lemma calls_in_order_bind_l (e : list operator) {X Y} (m : Py X) (k : X -> Py Y) :
  calls_in_order [] m -> (forall x, calls_in_order e (k x)) ->
  calls_in_order e (bind m k).
Proof. intros Hm Hk. now apply (calls_in_order_bind [] e). Qed.

Lemma calls_in_order_bind_r (e : list operator) {X Y} (m : Py X) (k : X -> Py Y) :
  calls_in_order e m -> (forall x, calls_in_order [] (k x)) ->
  calls_in_order e (bind m k).
Proof.
  intros Hm Hk. apply (calls_in_order_eq (e ++ [])); [apply app_nil_r|].
  now apply calls_in_order_bind.
Qed.

Lemma calls_in_order_for_each {X S} (f : X -> list operator)
  (body : S -> X -> Py S) xs :
  (forall s x, calls_in_order (f x) (body s x)) ->
  forall s, calls_in_order (flat_map f xs) (for_each body xs s).
Proof.
  intros Hb. induction xs as [|x xs IH]; intros s; simpl.
  - apply calls_in_order_ret.
  - apply calls_in_order_bind; [apply Hb | exact IH].
Qed.

Lemma call_resnet_order r x t : calls_in_order [OpResnet r] (call_resnet r x t).
Proof.
  unfold call_resnet. apply calls_in_order_bind_r.
  - apply (calls_in_order_emit (CallResnet r x t)).
  - intros. apply calls_in_order_lift.
Qed.

Lemma call_attn_order a x enc kw : calls_in_order [OpAttn a] (call_attn a x enc kw).
Proof.
  unfold call_attn. apply calls_in_order_bind_l; [now apply calls_in_order_silent|].
  intros c. apply calls_in_order_bind_r.
  - apply (calls_in_order_emit (CallAttn a x enc kw c)).
  - intros. apply calls_in_order_lift.
Qed.

Lemma call_motion_order m x temb enc kw :
  calls_in_order [OpMotion m] (call_motion m x temb enc kw).
Proof.
  unfold call_motion. apply calls_in_order_bind_l; [now apply calls_in_order_silent|].
  intros c. apply calls_in_order_bind_r.
  - apply (calls_in_order_emit (CallMotion m x temb enc kw c)).
  - intros. apply calls_in_order_lift.
Qed.

Lemma call_cat_order a b : calls_in_order [OpCat] (call_cat a b).
Proof.
  unfold call_cat. apply calls_in_order_bind_r.
  - apply (calls_in_order_emit (CallCat a b)).
  - intros. apply calls_in_order_lift.
Qed.

Lemma call_downsample_order d x :
  calls_in_order [OpDownsample d] (call_downsample d x).
Proof.
  unfold call_downsample. apply calls_in_order_bind_r.
  - apply (calls_in_order_emit (CallDownsample d x)).
  - intros. apply calls_in_order_lift.
Qed.

Lemma call_upsample_order u x size :
  calls_in_order [OpUpsample u] (call_upsample u x size).
Proof.
  unfold call_upsample. apply calls_in_order_bind_r.
  - apply (calls_in_order_emit (CallUpsample u x size)).
  - intros. apply calls_in_order_lift.
Qed.

Lemma per_frame_order (e : list operator) F (op : Tensor A -> Py (Tensor A)) hs :
  (forall x, calls_in_order e (op x)) -> calls_in_order e (per_frame F op hs).
Proof.
  intros Hop. unfold per_frame.
  apply calls_in_order_bind_l; [apply calls_in_order_lift | intros x].
  apply calls_in_order_bind_r; [apply Hop | intros; apply calls_in_order_lift].
Qed.

Lemma motion_slot_call_order (slot : option MM) x temb enc kw :
  calls_in_order (match slot with Some m => [OpMotion m] | None => [] end)
    (motion_slot_call slot x temb enc kw).
Proof.
  destruct slot as [m|]; simpl;
    [apply call_motion_order | apply calls_in_order_ret].
Qed.

Lemma layer_body_order (attrs : Attrs V) F (temb : option (Tensor A)) tr enc mk resnet
  (attn : option (Transformer2DModel * kwref)) slot (h : Tensor A) :
  calls_in_order
    (OpResnet resnet ::
     match attn with Some (a, _) => [OpAttn a] | None => [] end ++
     match slot with Some m => [OpMotion m] | None => [] end)
    (if training attrs && gradient_checkpointing attrs
     then raise NotImplementedError
     else
       bind (per_frame F (fun x => call_resnet resnet x tr) h)
         (fun h1 =>
            bind (match attn with
                  | Some (a, ck) =>
                      per_frame F (fun x => call_attn a x enc ck) h1
                  | None => ret h1
                  end)
              (fun h2 => motion_slot_call slot h2 temb enc mk))).
Proof.
  destruct (training attrs && gradient_checkpointing attrs).
  - apply calls_in_order_raises. intros st. split; [reflexivity|]. now eexists.
  - apply (calls_in_order_bind [OpResnet resnet]).
    + apply per_frame_order. intros x. apply call_resnet_order.
    + intros h1. apply calls_in_order_bind.
      * destruct attn as [[a ck]|];
          [apply per_frame_order; intros x; apply call_attn_order
          | apply calls_in_order_ret].
      * intros h2. apply motion_slot_call_order.
Qed.

Lemma CrossAttnDown_layer_order (attrs : Attrs V) F temb tr enc ck mk s layer :
  calls_in_order (cross_layer_operators false layer)
    (CrossAttnDown_layer attrs F temb tr enc ck mk s layer).
Proof.
  destruct s as [h o], layer as [[resnet attn] slot].
  unfold CrossAttnDown_layer, cross_layer_operators, layer_operators.
  apply calls_in_order_bind_r; [|intros; apply calls_in_order_ret].
  apply (layer_body_order attrs F temb tr enc mk resnet (Some (attn, ck)) slot h).
Qed.

Lemma Down_layer_order (attrs : Attrs V) F temb tr enc mk s layer :
  calls_in_order (plain_layer_operators false layer)
    (Down_layer attrs F temb tr enc mk s layer).
Proof.
  destruct s as [h o], layer as [resnet slot].
  unfold Down_layer, plain_layer_operators, layer_operators.
  apply calls_in_order_bind_r; [|intros; apply calls_in_order_ret].
  pose proof (layer_body_order attrs F temb tr enc mk resnet None slot h) as Hb.
  simpl in Hb. destruct (training attrs && gradient_checkpointing attrs);
    [exact Hb|].
  intros st. specialize (Hb st). unfold bind in *. simpl in *.
  now destruct (per_frame F (fun x => call_resnet resnet x tr) h st)
    as [[h1|e] st1].
Qed.

Lemma pop_and_cat_order (s : Tensor A * list (Tensor A)) :
  calls_in_order [OpCat] (pop_and_cat s).
Proof.
  destruct s as [h t]. unfold pop_and_cat.
  apply calls_in_order_bind_l; [apply calls_in_order_lift | intros e].
  apply calls_in_order_bind_r; [apply call_cat_order|].
  intros. apply calls_in_order_ret.
Qed.

Lemma CrossAttnUp_layer_order (attrs : Attrs V) F temb tr enc ck mk s layer :
  calls_in_order (cross_layer_operators true layer)
    (CrossAttnUp_layer attrs F temb tr enc ck mk s layer).
Proof.
  destruct layer as [[resnet attn] slot].
  unfold CrossAttnUp_layer, cross_layer_operators, layer_operators.
  apply calls_in_order_bind; [apply pop_and_cat_order | intros [h t]].
  apply calls_in_order_bind_r; [|intros; apply calls_in_order_ret].
  apply (layer_body_order attrs F temb tr enc mk resnet (Some (attn, ck)) slot h).
Qed.

Lemma Up_layer_order (attrs : Attrs V) F temb tr enc mk s layer :
  calls_in_order (plain_layer_operators true layer)
    (Up_layer attrs F temb tr enc mk s layer).
Proof.
  destruct layer as [resnet slot].
  unfold Up_layer, plain_layer_operators, layer_operators.
  apply calls_in_order_bind; [apply pop_and_cat_order | intros [h t]].
  apply calls_in_order_bind_r; [|intros; apply calls_in_order_ret].
  pose proof (layer_body_order attrs F temb tr enc mk resnet None slot h) as Hb.
  simpl in Hb. destruct (training attrs && gradient_checkpointing attrs);
    [exact Hb|].
  intros st. specialize (Hb st). unfold bind in *. simpl in *.
  now destruct (per_frame F (fun x => call_resnet resnet x tr) h st)
    as [[h1|e] st1].
Qed.

Lemma Mid_layer_order F temb tr enc ck mk x layer :
  calls_in_order (mid_layer_operators layer)
    (Mid_layer F temb tr enc ck mk x layer).
Proof.
  destruct layer as [[attn resnet] slot]. unfold Mid_layer, mid_layer_operators.
  apply (calls_in_order_bind [OpAttn attn]).
  { apply per_frame_order. intros y. apply call_attn_order. }
  intros y. apply calls_in_order_bind.
  { apply motion_slot_call_order. }
  intros z. apply per_frame_order. intros w. apply call_resnet_order.
Qed.

Lemma flat_map_singleton {X Y} (f : X -> Y) (l : list X) :
  flat_map (fun x => [f x]) l = map f l.
Proof. induction l as [|x l IH]; simpl; [reflexivity | now rewrite IH]. Qed.

Lemma down_tail_order F (ds : option (list Downsample2D))
  (s : Tensor A * list (Tensor A)) :
  calls_in_order (map OpDownsample (default [] ds)) (down_tail F ds s).
Proof.
  destruct s as [h o]. unfold down_tail.
  destruct ds as [ds|]; simpl; [|apply calls_in_order_ret].
  apply calls_in_order_bind_r; [|intros; apply calls_in_order_ret].
  rewrite <- flat_map_singleton. unfold downsample_all.
  apply calls_in_order_for_each. intros x d.
  apply per_frame_order. intros y. apply call_downsample_order.
Qed.

Lemma up_tail_order F (us : option (list Upsample2D)) size (h : Tensor A) :
  calls_in_order (map OpUpsample (default [] us)) (up_tail F us size h).
Proof.
  unfold up_tail. destruct us as [us|]; simpl; [|apply calls_in_order_ret].
  rewrite <- flat_map_singleton. unfold upsample_all.
  apply calls_in_order_for_each. intros x u.
  apply per_frame_order. intros y. apply call_upsample_order.
Qed.

Lemma inject_motion_scale_order (attrs : Attrs V) mk :
  calls_in_order [] (inject_motion_scale attrs mk).
Proof.
  apply calls_in_order_silent. intros st. apply inject_motion_scale_steps.
Qed.

Lemma inject_lora_scale_rebind_order (attrs : Attrs V) ck :
  calls_in_order [] (inject_lora_scale_rebind attrs ck).
Proof.
  apply calls_in_order_silent. intros st.
  apply inject_lora_scale_rebind_frame.
Qed.

Lemma inject_lora_scale_inplace_order (attrs : Attrs V) ck :
  calls_in_order [] (inject_lora_scale_inplace attrs ck).
Proof.
  apply calls_in_order_silent. intros st. unfold inject_lora_scale_inplace.
  destruct (lora_scale attrs); [destruct ck|]; reflexivity.
Qed.

Lemma calls_in_order_outcome (e : list operator) {X} (m : Py X) (st : store) :
  calls_in_order e m ->
  exists new,
    trace (snd (m st)) = trace st ++ new /\
    (exists rest, e = map event_operator new ++ rest) /\
    (raised (fst (m st)) = None -> map event_operator new = e).
Proof.
  intros Hm. destruct (Hm st) as (new & Ht & Hr). exists new.
  split; [exact Ht|]. destruct (fst (m st)); simpl.
  - split; [exists []; now rewrite app_nil_r | auto].
  - split; [exact Hr | discriminate].
Qed.

Lemma Mid_forward_order (b : UNetMidBlock3DCrossAttn MM) (attrs : Attrs V) hs
  temb enc ck mk :
  calls_in_order (call_sequence (MidBlock b : AnyBlock))
    (UNetMidBlock3DCrossAttn_forward b attrs hs temb enc ck mk).
Proof.
  unfold UNetMidBlock3DCrossAttn_forward, call_sequence.
  apply calls_in_order_bind_l; [apply calls_in_order_lift | intros F].
  apply calls_in_order_bind_l; [apply calls_in_order_lift | intros tr].
  apply calls_in_order_bind.
  - apply per_frame_order. intros x.
    destruct (mid_resnets b) as [|resnet0 rs].
    + apply calls_in_order_raises. intros st. split; [reflexivity|].
      now eexists.
    + exact (call_resnet_order resnet0 x tr).
  - intros h1.
    apply calls_in_order_bind_l; [apply inject_lora_scale_rebind_order|].
    intros ck'.
    apply calls_in_order_bind_l; [apply inject_motion_scale_order|].
    intros mk'. apply calls_in_order_for_each. intros x layer.
    apply Mid_layer_order.
Qed.

Lemma DownBlock_forward_order (b : DownBlock MM) (attrs : Attrs V) hs temb enc
  ck mk :
  calls_in_order (call_sequence (ADownBlock b : AnyBlock))
    (DownBlock_forward b attrs hs temb enc ck mk).
Proof.
  destruct b as [b|b]; simpl.
  - unfold DownBlock3D_forward.
    apply calls_in_order_bind_l; [apply calls_in_order_lift | intros F].
    apply calls_in_order_bind_l; [apply calls_in_order_lift | intros tr].
    apply calls_in_order_bind_l; [apply inject_motion_scale_order|].
    intros mk'. apply calls_in_order_bind.
    + apply calls_in_order_for_each. intros s layer. apply Down_layer_order.
    + intros s. apply down_tail_order.
  - unfold CrossAttnDownBlock3D_forward.
    apply calls_in_order_bind_l; [apply calls_in_order_lift | intros F].
    apply calls_in_order_bind_l; [apply calls_in_order_lift | intros tr].
    apply calls_in_order_bind_l; [apply inject_lora_scale_inplace_order|].
    intros _.
    apply calls_in_order_bind_l; [apply inject_motion_scale_order|].
    intros mk'. apply calls_in_order_bind.
    + apply calls_in_order_for_each. intros s layer.
      apply CrossAttnDown_layer_order.
    + intros s. apply down_tail_order.
Qed.

Lemma UpBlock_forward_order (b : UpBlock MM) (attrs : Attrs V) hs tup temb enc
  size ck mk :
  calls_in_order (call_sequence (AnUpBlock b tup size))
    (UpBlock_forward b attrs hs tup temb enc size ck mk).
Proof.
  destruct b as [b|b]; simpl.
  - unfold UpBlock3D_forward. apply calls_in_order_bind.
    + unfold UpBlock3D_layers.
      apply calls_in_order_bind_l; [apply calls_in_order_lift | intros F].
      apply calls_in_order_bind_l; [apply calls_in_order_lift | intros tr].
      apply calls_in_order_bind_l; [apply inject_motion_scale_order|].
      intros mk'.
      apply calls_in_order_bind_r; [|intros; apply calls_in_order_ret].
      apply calls_in_order_for_each. intros s layer. apply Up_layer_order.
    + intros [F [h t]]. apply up_tail_order.
  - unfold CrossAttnUpBlock3D_forward. apply calls_in_order_bind.
    + unfold CrossAttnUpBlock3D_layers.
      apply calls_in_order_bind_l; [apply calls_in_order_lift | intros F].
      apply calls_in_order_bind_l; [apply calls_in_order_lift | intros tr].
      apply calls_in_order_bind_l; [apply inject_lora_scale_rebind_order|].
      intros ck'.
      apply calls_in_order_bind_l; [apply inject_motion_scale_order|].
      intros mk'.
      apply calls_in_order_bind_r; [|intros; apply calls_in_order_ret].
      apply calls_in_order_for_each. intros s layer.
      apply CrossAttnUp_layer_order.
    + intros [F [h t]]. apply up_tail_order.
Qed.

(** The calls a [forward] makes follow the block's layers. A call that
    returns has called, in this order and nothing else: in a Down block,
    per layer the resnet, the attention operator (with cross-attention)
    and the motion module (if the slot holds one), then the downsampler;
    in an Up block the same after [torch.cat] at the start of each layer,
    then the upsampler; in the Mid block the first resnet, then per layer
    attention, motion module and resnet. A call that raises has made some
    first calls of that sequence. *)
Theorem calls_follow_the_layers (self : AnyBlock) (attrs : Attrs V) hs temb enc
  ck mk (st : store) :
  exists new,
    trace (store_after self attrs hs temb enc ck mk st) = trace st ++ new /\
    (exists rest, call_sequence self = map event_operator new ++ rest) /\
    (forward_raises self attrs hs temb enc ck mk st = None ->
     map event_operator new = call_sequence self).
Proof.
  destruct self as [b | b | b tup size]; simpl.
  - apply calls_in_order_outcome, Mid_forward_order.
  - apply calls_in_order_outcome, DownBlock_forward_order.
  - apply calls_in_order_outcome, UpBlock_forward_order.
Qed.

End CallOrder.

Lemma calls_follow_the_layers_witness :
  map event_operator (new_events Toy.fresh_store Toy.down_store)
  = call_sequence (ADownBlock Toy.cross_down : @AnyBlock Z Z).
Proof.
  destruct (calls_follow_the_layers (ADownBlock Toy.cross_down) Toy.eval_attrs
              Toy.latent (Some Toy.temb) None None None Toy.fresh_store)
    as (new & Ht & _ & Hok).
  rewrite (new_events_app Toy.fresh_store Toy.down_store new Ht).
  apply Hok. reflexivity.
Defined.

(** ** Inputs without a frame axis *)

Section ShortInput.
Context {A V MM MK : Type} `{Collaborators A V MM MK}.

(** Every [forward] reads the frame count [hidden_states.shape[2]]
    first: on an input with fewer than three axes it raises [IndexError]
    before any collaborator is called and before any scale is written
    into a dictionary. *)
Theorem short_input_raises (self : @AnyBlock A MM) (attrs : Attrs V) hs temb
  enc ck mk (st : @store A V MM) :
  length (shape hs) < 3 ->
  forward_raises self attrs hs temb enc ck mk st = Some IndexError /\
  store_after self attrs hs temb enc ck mk st = st.
Proof.
  intros Hlen.
  assert (E : video_length_of hs = Raise IndexError).
  { unfold video_length_of.
    destruct (nth_error (shape hs) 2) as [f|] eqn:En; [|reflexivity].
    assert (Hsome : nth_error (shape hs) 2 <> None) by congruence.
    apply nth_error_Some in Hsome. lia. }
  destruct self as [b | [b|b] | [b|b] tup size]; simpl;
    unfold UNetMidBlock3DCrossAttn_forward, DownBlock3D_forward,
      CrossAttnDownBlock3D_forward, UpBlock3D_forward,
      CrossAttnUpBlock3D_forward, UpBlock3D_layers, CrossAttnUpBlock3D_layers,
      bind, lift; rewrite E; split; reflexivity.
Qed.

End ShortInput.

Lemma short_input_raises_witness :
  forward_raises (MidBlock Toy.mid) Toy.lora_attrs Toy.temb (Some Toy.temb)
    None None None Toy.fresh_store = Some IndexError /\
  store_after (MidBlock Toy.mid) Toy.lora_attrs Toy.temb (Some Toy.temb)
    None None None Toy.fresh_store = Toy.fresh_store.
Proof.
  apply (short_input_raises (MidBlock Toy.mid) Toy.lora_attrs Toy.temb).
  simpl. lia.
Defined.
